(** * Instagram content downloader: a shallow embedding and its properties

    The development follows the Python sources module by module:

    - [PyFloat]      Python's [float] (IEEE 754 binary64), the builtins
                     [min]/[max] on two floats and [float ** int];
    - [Downloader]   [RateLimiter] of [src/downloader.py];
    - [Utils]        [validate_username], [extract_username_from_url],
                     [calculate_rate_limit_delay] and
                     [parse_profile_list_file] of [src/utils.py];
    - [Auth]         [SessionEncryption] and [AuthManager._save_session]
                     of [src/auth.py];
    - [Batch]        [BatchDownloader] of [src/batch.py].

    Each module ends with the vocabulary its properties are stated in and,
    where a library stays a parameter, with a small stand-in to run the
    definitions. The properties follow in [Binary64], [RateLimiterProps],
    [UtilsProps], [AuthProps] and [BatchProps]; [Tests] runs the cases of the
    repository's test suite. *)

From Stdlib Require Import ZArith NArith Lia Bool List String Ascii.
From Stdlib Require Import Floats.
From stdpp Require Import base option list strings gmap.

Local Open Scope Z_scope.
Set Warnings "-inexact-float,-register-all".

(** ** Python values shared by all modules *)

(** A Python [str] is a sequence of Unicode code points. *)
Definition codepoint := N.
Definition pystr := list codepoint.

(** An ASCII literal of the sources as a [pystr]. *)
Definition lit (s : string) : pystr :=
  map N_of_ascii (list_ascii_of_string s).

(** Python [bytes]: a sequence of octets. *)
Definition byte := N.
Definition bytes := list byte.

(** The reason carried by a [ValueError] raised in the sources (the sources
    carry a formatted message; the tag records which [raise] produced it). *)
Inductive value_error :=
| EmptyUsername                 (* "Nazwa uzytkownika nie moze byc pusta" *)
| BadLength (n : nat)           (* "... musi miec 1-30 znakow (podano: n)" *)
| BadCharacters (u : pystr)     (* "... zawiera niedozwolone znaki: 'u'" *)
| LeadingDot                    (* "... nie moze zaczynac sie od kropki" *)
| TrailingDot                   (* "... nie moze konczyc sie kropka" *)
| CannotExtract (url : pystr)   (* "Nie mozna wyciagnac nazwy ... z: 'url'" *)
| NoValidProfiles               (* "Plik ... nie zawiera zadnych ... profili" *)
| InvalidUrl                    (* raised inside urllib.parse.urlparse *)
| InvalidFernetKey.             (* raised by Fernet(key) *)

(** The exceptions that occur in the modelled code. *)
Inductive exn :=
| ValueError (why : value_error)
| FileNotFoundError
| OverflowError
| ZeroDivisionError
| UnicodeEncodeError
| UnicodeDecodeError
| InvalidToken
| OSError.

(** A computation that returns or raises. *)
Inductive result (A : Type) :=
| Ok (a : A)
| Raise (e : exn).
Arguments Ok {A} a.
Arguments Raise {A} e.

(** Sequencing: an exception raised by the first computation propagates.
    With these instances [x ← r; k] is the sequencing of two statements. *)
#[export] Instance result_ret : MRet result := fun A a => Ok a.
#[export] Instance result_bind : MBind result := fun A B k r =>
  match r with
  | Ok a => k a
  | Raise e => Raise e
  end.
#[export] Instance result_fmap : FMap result := fun A B f r =>
  match r with
  | Ok a => Ok (f a)
  | Raise e => Raise e
  end.

(** ** Python floats *)

Module PyFloat.

(** A Python [float] is a binary64 value; arithmetic and comparisons are the
    IEEE operations (round to nearest, ties to even). *)
Definition float := PrimFloat.float.

(** [max(a, b)] of [bltinmodule.c]: the first argument is kept unless the
    second compares strictly greater. *)
Definition max2 (a b : float) : float :=
  if (a <? b)%float then b else a.

(** [min(a, b)]: the first argument is kept unless the second compares
    strictly less. *)
Definition min2 (a b : float) : float :=
  if (b <? a)%float then b else a.

Definition is_nan (x : float) : bool := negb (x =? x)%float.

Definition is_inf (x : float) : bool :=
  (x =? infinity)%float || (x =? neg_infinity)%float.

(** [float(n)] for a Python [int] ([PyLong_AsDouble]): the nearest float,
    ties to even; [OverflowError] when [n] is too large for a float. *)
Definition of_int (n : Z) : result float :=
  let x := SF2Prim (binary_normalize prec emax n 0 false) in
  if is_inf x then Raise OverflowError else Ok x.

(** [DOUBLE_IS_ODD_INTEGER] of [floatobject.c]. *)
Definition is_odd_integer (x : float) : bool :=
  match Prim2SF x with
  | S754_finite _ m e =>
      if 0 <=? e then (e =? 0) && Z.odd (Z.pos m)
      else (Z.pos m mod 2 ^ (- e) =? 0) && Z.odd (Z.pos m / 2 ^ (- e))
  | _ => false
  end.

(** The C library's [pow], which CPython calls for the general case of
    [**]; it is not part of the repository and stays a parameter. *)
Class Libm := { libm_pow : float -> float -> float }.

(** [v ** w] for a float [v] and an int [w] ([float_pow] of
    [floatobject.c]): the exponent is converted to a float, the special
    cases are sorted out, and the rest is passed to [pow]; a zero base with a
    negative exponent raises [ZeroDivisionError], an overflowing result
    raises [OverflowError]. *)
Definition float_pow `{Libm} (v : float) (w : Z) : result float :=
  iw ← of_int w;
  if (iw =? 0)%float then Ok 1%float
  else if is_nan v then Ok v
  else if is_inf v then
    if (0 <? iw)%float
    then Ok (if is_odd_integer iw then v else abs v)
    else Ok (if is_odd_integer iw && (v <? 0)%float then neg_zero else 0%float)
  else if (v =? 0)%float then
    if (iw <? 0)%float then Raise ZeroDivisionError
    else Ok (if is_odd_integer iw then v else 0%float)
  else
    let negate_result := (v <? 0)%float && is_odd_integer iw in
    let iv := if (v <? 0)%float then (- v)%float else v in
    if (iv =? 1)%float then Ok (if negate_result then (-1)%float else 1%float)
    else
      let ix := libm_pow iv iw in
      let ix := if negate_result then (- ix)%float else ix in
      if is_inf ix then Raise OverflowError else Ok ix.

(** *** Vocabulary of the properties *)

(** What [binary_round_aux] builds from the rounded mantissa [M] at exponent
    [e1]: a second shift renormalises a mantissa that rounding made too
    long, then the exponent range is checked. *)
Definition finish (M e1 : Z) : spec_float :=
  let n2 := fexp prec emax (Zdigits2 M + e1) - e1 in
  let m2 := if 0 <? n2 then M / 2 ^ n2 else M in
  let e2 := if 0 <? n2 then e1 + n2 else e1 in
  match m2 with
  | Z0 => S754_zero false
  | Zpos m =>
      if e2 <=? emax - prec then S754_finite false m e2
      else S754_infinity false
  | Zneg _ => S754_nan
  end.

End PyFloat.

(** ** [src/downloader.py]: the adaptive rate limiter *)

Module Downloader.
Import PyFloat.

(** The attributes of a [RateLimiter] object. The counters are Python
    integers (unbounded). *)
Record RateLimiter := {
  base_delay : float;
  min_delay : float;
  max_delay : float;
  current_delay : float;
  error_count : Z;
  success_count : Z
}.

(** [RateLimiter.__init__(base_delay, min_delay, max_delay)] *)
Definition init (base min max : float) : RateLimiter :=
  {| base_delay := base; min_delay := min; max_delay := max;
     current_delay := base; error_count := 0; success_count := 0 |}.

(** [RateLimiter()] with the default arguments 3.0, 2.0 and 30.0. *)
Definition init_default : RateLimiter := init 3.0%float 2.0%float 30.0%float.

(** The delay [wait] sleeps for:
    [max(self.min_delay, min(self.current_delay, self.max_delay))]. *)
Definition wait_delay (self : RateLimiter) : float :=
  max2 (min_delay self) (min2 (current_delay self) (max_delay self)).

(** [RateLimiter.wait]: it only reads the attributes and sleeps (whole
    seconds under a progress bar, then the remainder); the object is returned
    as it was, together with the total delay asked for. *)
Definition wait (self : RateLimiter) : RateLimiter * float :=
  (self, wait_delay self).

(** [RateLimiter.on_success] *)
Definition on_success (self : RateLimiter) : RateLimiter :=
  let success_count' := success_count self + 1 in
  if 10 <=? success_count' then
    {| base_delay := base_delay self; min_delay := min_delay self;
       max_delay := max_delay self;
       current_delay := max2 (min_delay self) (current_delay self * 0.9)%float;
       error_count := 0;
       success_count := 0 |}
  else
    {| base_delay := base_delay self; min_delay := min_delay self;
       max_delay := max_delay self;
       current_delay := current_delay self;
       error_count := 0;
       success_count := success_count' |}.

(** [RateLimiter.on_error(is_rate_limit)] *)
Definition on_error (is_rate_limit : bool) (self : RateLimiter) : RateLimiter :=
  {| base_delay := base_delay self; min_delay := min_delay self;
     max_delay := max_delay self;
     current_delay :=
       if is_rate_limit
       then min2 (max_delay self) (current_delay self * 2.0)%float
       else min2 (max_delay self) (current_delay self * 1.2)%float;
     error_count := error_count self + 1;
     success_count := 0 |}.

(** [RateLimiter.reset] *)
Definition reset (self : RateLimiter) : RateLimiter :=
  {| base_delay := base_delay self; min_delay := min_delay self;
     max_delay := max_delay self;
     current_delay := base_delay self;
     error_count := 0;
     success_count := 0 |}.

(** The method calls a client can make on a [RateLimiter]. *)
Inductive call :=
| Wait
| OnSuccess
| OnError (is_rate_limit : bool)
| Reset.

Definition step (self : RateLimiter) (c : call) : RateLimiter :=
  match c with
  | Wait => fst (wait self)
  | OnSuccess => on_success self
  | OnError b => on_error b self
  | Reset => reset self
  end.

(** A sequence of calls, performed from left to right. *)
Definition run (self : RateLimiter) (cs : list call) : RateLimiter :=
  fold_left step cs self.

(** The bound the limiter is meant to keep:
    [min_delay <= current_delay <= max_delay], with Python's [<=]. *)
Definition within_bounds (self : RateLimiter) : bool :=
  (min_delay self <=? current_delay self)%float &&
  (current_delay self <=? max_delay self)%float.

(** *** Vocabulary of the properties *)

(** The invariant behind the bound: the three parameters are ordered and not
    negative, and the current delay lies between the outer two. *)
Definition ordered (self : RateLimiter) : Prop :=
  (0 <=? min_delay self)%float = true /\
  (min_delay self <=? base_delay self)%float = true /\
  (base_delay self <=? max_delay self)%float = true /\
  (min_delay self <=? current_delay self)%float = true /\
  (current_delay self <=? max_delay self)%float = true.

(** [n] calls of [on_success] in a row. *)
Definition successes (n : nat) (self : RateLimiter) : RateLimiter :=
  Nat.iter n on_success self.

End Downloader.

(** ** [src/utils.py] *)

Module Utils.
Import PyFloat.

(** *** Python string methods used by the module *)

(** [str.isspace] on one code point ([_PyUnicode_IsWhitespace]). *)
Definition is_whitespace (c : codepoint) : bool :=
  ((9 <=? c) && (c <=? 13) || (28 <=? c) && (c <=? 32) ||
   (c =? 133) || (c =? 160) || (c =? 5760) ||
   (8192 <=? c) && (c <=? 8202) ||
   (c =? 8232) || (c =? 8233) || (c =? 8239) || (c =? 8287) ||
   (c =? 12288))%N.

Fixpoint lstrip_by (p : codepoint -> bool) (s : pystr) : pystr :=
  match s with
  | [] => []
  | c :: s' => if p c then lstrip_by p s' else s
  end.

Definition rstrip_by (p : codepoint -> bool) (s : pystr) : pystr :=
  rev (lstrip_by p (rev s)).

(** [s.strip()] *)
Definition strip (s : pystr) : pystr :=
  rstrip_by is_whitespace (lstrip_by is_whitespace s).

(** [s.strip(chars)] *)
Definition strip_chars (chars s : pystr) : pystr :=
  let p c := existsb (N.eqb c) chars in
  rstrip_by p (lstrip_by p s).

(** [s.startswith(prefix)] *)
Fixpoint startswith (prefix s : pystr) : bool :=
  match prefix, s with
  | [], _ => true
  | _ :: _, [] => false
  | a :: prefix', b :: s' => (a =? b)%N && startswith prefix' s'
  end.

(** [s.endswith(suffix)] *)
Definition endswith (suffix s : pystr) : bool :=
  startswith (rev suffix) (rev s).

(** [sub in s] *)
Fixpoint contains (sub s : pystr) : bool :=
  startswith sub s ||
  match s with
  | [] => false
  | _ :: s' => contains sub s'
  end.

(** [s.split(sep)] for a non-empty separator: [skip] counts the characters
    of a separator just recognised that are still to be passed over, [cur]
    holds the current piece in reverse. *)
Fixpoint split_go (sep s : pystr) (skip : nat) (cur : pystr) : list pystr :=
  match s with
  | [] => [rev cur]
  | c :: s' =>
      match skip with
      | S k => split_go sep s' k cur
      | O =>
          if startswith sep s
          then rev cur :: split_go sep s' (length sep - 1) []
          else split_go sep s' O (c :: cur)
      end
  end.

Definition split (sep s : pystr) : list pystr := split_go sep s O [].

(** [str.lower] on the ASCII letters. The one call of the module is reached
    only by strings of ASCII letters, digits, dots and underscores. *)
Definition lower_char (c : codepoint) : codepoint :=
  if ((65 <=? c) && (c <=? 90))%N then (c + 32)%N else c.

Definition lower (s : pystr) : pystr := map lower_char s.

(** *** [validate_username] *)

(** The character class [[a-zA-Z0-9._]]. *)
Definition allowed_char (c : codepoint) : bool :=
  ((97 <=? c) && (c <=? 122) || (65 <=? c) && (c <=? 90) ||
   (48 <=? c) && (c <=? 57) || (c =? 46) || (c =? 95))%N.

(** [re.match(r'^[a-zA-Z0-9._]+$', s)] is a match: a non-empty run of
    allowed characters up to the end of the string, where [$] also matches
    just before a final newline. *)
Definition re_match_allowed (s : pystr) : bool :=
  let body :=
    match rev s with
    | 10%N :: r => rev r
    | _ => s
    end in
  match body with
  | [] => false
  | _ :: _ => forallb allowed_char body
  end.

Definition validate_username (username : pystr) : result pystr :=
  match username with
  | [] => Raise (ValueError EmptyUsername)
  | _ :: _ =>
      let username := strip username in
      if ((length username <? 1) || (30 <? length username))%nat
      then Raise (ValueError (BadLength (length username)))
      else if negb (re_match_allowed username)
      then Raise (ValueError (BadCharacters username))
      else if startswith (lit ".") username
      then Raise (ValueError LeadingDot)
      else if endswith (lit ".") username
      then Raise (ValueError TrailingDot)
      else Ok (lower username)
  end.

(** *** [extract_username_from_url] *)

(** [urllib.parse.urlparse(url).path], a library function: [None] when
    [urlparse] raises its [ValueError]. *)
Class UrlLib := { urlparse_path : pystr -> option pystr }.

Definition extract_username_from_url `{UrlLib} (url : pystr) : result pystr :=
  let url := strip url in
  let fail := Raise (ValueError (CannotExtract url)) in
  (* case 4: a URL without scheme *)
  let case4 :=
    if contains (lit "instagram.com") url then
      match split (lit "instagram.com/") url with
      | _ :: part :: _ =>
          match split (lit "/") part with
          | (_ :: _) as username :: _ => validate_username username
          | _ => fail
          end
      | _ => fail
      end
    else fail in
  (* case 1: already a user name *)
  if negb (startswith (lit "http") url) && negb (startswith (lit "@") url)
     && negb (contains (lit "/") url)
  then validate_username url
  (* case 2: a mention *)
  else if startswith (lit "@") url
  then validate_username (tl url)
  (* case 3: a full URL *)
  else if startswith (lit "http") url then
    match urlparse_path url with
    | None => Raise (ValueError InvalidUrl)
    | Some path =>
        match strip_chars (lit "/") path with
        | [] => case4
        | (_ :: _) as path' =>
            match split (lit "/") path' with
            | first :: _ => validate_username first
            | [] => case4
            end
        end
    end
  else case4.

(** *** [calculate_rate_limit_delay] *)

(** The arguments left out of a call take the defaults of the signature:
    [base_delay = 3.0], [multiplier = 1.5], [max_delay = 300.0]. *)
Definition calculate_rate_limit_delay `{Libm} (error_count : Z)
    (base_delay multiplier max_delay : option float) : result float :=
  let base_delay := default 3.0%float base_delay in
  let multiplier := default 1.5%float multiplier in
  let max_delay := default 300.0%float max_delay in
  p ← float_pow multiplier error_count;
  let delay := (base_delay * p)%float in
  Ok (min2 delay max_delay).

(** *** [parse_profile_list_file] *)

(** The text files of the file system: a path that exists holds the lines
    that iterating over the open file yields. *)
Definition text_files := gmap pystr (list pystr).

(** The warnings logged: line number and (stripped) line. *)
Definition warnings := list (Z * pystr).

(** The [for] loop over [enumerate(f, 1)]. An exception that the
    [except ValueError] does not catch leaves the loop. *)
Fixpoint parse_lines `{UrlLib} (lines : list pystr) (line_num : Z)
    (profiles : list pystr) (log : warnings) : warnings * result (list pystr) :=
  match lines with
  | [] => (log, Ok profiles)
  | line :: rest =>
      let line := strip line in
      if match line with [] => true | _ => false end
         || startswith (lit "#") line
      then parse_lines rest (line_num + 1) profiles log
      else
        match extract_username_from_url line with
        | Ok username =>
            parse_lines rest (line_num + 1) (profiles ++ [username]) log
        | Raise (ValueError _) =>
            parse_lines rest (line_num + 1) profiles (log ++ [(line_num, line)])
        | Raise e => (log, Raise e)
        end
  end.

Definition parse_profile_list_file `{UrlLib} (fs : text_files)
    (file_path : pystr) : warnings * result (list pystr) :=
  match fs !! file_path with
  | None => ([], Raise FileNotFoundError)
  | Some lines =>
      match parse_lines lines 1 [] [] with
      | (log, Ok []) => (log, Raise (ValueError NoValidProfiles))
      | (log, r) => (log, r)
      end
  end.

(** *** Lengths and slices *)

(** [len(s)], a Python integer. *)
Definition len (s : pystr) : Z := Z.of_nat (length s).

(** [s[:k]] for an integer [k]: a negative [k] counts from the end of the
    string, and a bound outside the string is clipped. *)
Definition slice_to (k : Z) (s : pystr) : pystr :=
  if 0 <=? k then take (Z.to_nat k) s
  else take (Z.to_nat (len s + k)) s.

(** *** [safe_filename] *)

(** The character class of [invalid_chars]: [<], [>], [:], the double
    quote, [/], the backslash, [|], [?] and [*]. *)
Definition invalid_char (c : codepoint) : bool :=
  existsb (N.eqb c) [60; 62; 58; 34; 47; 92; 124; 63; 42]%N.

(** [re.sub(invalid_chars, '_', filename)]: the pattern matches single
    characters, so each match is replaced on its own. *)
Definition re_sub_invalid (filename : pystr) : pystr :=
  map (fun c => if invalid_char c then 95%N else c) filename.

(** [s.rfind(c)] for a single character: the last index of [c], or [-1].
    [i] is the index of the head of [s], [last] the result so far. *)
Fixpoint rfind_from (c : codepoint) (s : pystr) (i last : Z) : Z :=
  match s with
  | [] => last
  | a :: s' => rfind_from c s' (i + 1) (if (a =? c)%N then i else last)
  end.

Definition rfind (c : codepoint) (s : pystr) : Z := rfind_from c s 0 (-1).

(** [os.path.splitext] of [posixpath] ([genericpath._splitext] with
    [sep = '/'], no [altsep] and [extsep = '.']): the extension starts at
    the last dot of the last path component, unless only dots precede it
    there. The [while] loop looks for a character other than a dot between
    the separator and the last dot. *)
Definition splitext (p : pystr) : pystr * pystr :=
  let sepIndex := rfind 47%N p in
  let dotIndex := rfind 46%N p in
  if (sepIndex <? dotIndex)
     && existsb (fun c => negb (c =? 46)%N)
          (take (Z.to_nat (dotIndex - (sepIndex + 1)))
             (drop (Z.to_nat (sepIndex + 1)) p))
  then (take (Z.to_nat dotIndex) p, drop (Z.to_nat dotIndex) p)
  else (p, []).

(** An argument left out takes the default of the signature:
    [max_length = 255]. *)
Definition safe_filename (filename : pystr) (max_length : option Z) : pystr :=
  let max_length := default 255 max_length in
  let safe_name := re_sub_invalid filename in
  let safe_name := strip safe_name in
  if max_length <? len safe_name then
    let '(name, ext) := splitext safe_name in
    let max_name_length := max_length - len ext in
    slice_to max_name_length name ++ ext
  else safe_name.

(** *** [truncate_string] *)

(** Defaults of the signature: [max_length = 50], [suffix = "..."]. *)
Definition truncate_string (text : pystr) (max_length : option Z)
    (suffix : option pystr) : pystr :=
  let max_length := default 50 max_length in
  let suffix := default (lit "...") suffix in
  if len text <=? max_length then text
  else slice_to (max_length - len suffix) text ++ suffix.

(** *** Vocabulary of the properties *)

(** The rule the docstring states, on the stripped name: 1 to 30
    characters, each of them a letter, a digit, a dot or an underscore, no
    dot first or last. *)
Definition valid_name (t : pystr) : bool :=
  (1 <=? length t)%nat && (length t <=? 30)%nat &&
  forallb allowed_char t &&
  negb (startswith (lit ".") t) && negb (endswith (lit ".") t).

(** Whether the loop keeps a line: the user name it contributes. *)
Definition kept_name `{UrlLib} (line : pystr) : option pystr :=
  let line := strip line in
  match line with
  | [] => None
  | _ :: _ =>
      if startswith (lit "#") line then None
      else match extract_username_from_url line with
           | Ok username => Some username
           | Raise _ => None
           end
  end.

(** Whether the loop logs a line: its number and stripped text. *)
Definition logged_line `{UrlLib} (numbered : Z * pystr) : option (Z * pystr) :=
  let line := strip numbered.2 in
  match line with
  | [] => None
  | _ :: _ =>
      if startswith (lit "#") line then None
      else match extract_username_from_url line with
           | Ok _ => None
           | Raise _ => Some (numbered.1, line)
           end
  end.




(** The valid user names of a file, in file order. *)
Definition valid_profiles `{UrlLib} (lines : list pystr) : list pystr :=
  omap kept_name lines.

(** The lines of a file that are neither empty, nor comments, nor yield a
    user name, with their numbers counted from [n]. *)
Definition rejected_lines `{UrlLib} (n : Z) (lines : list pystr) : list (Z * pystr) :=
  omap logged_line (zip (seqZ n (Z.of_nat (length lines))) lines).

(** *** Stand-ins for the libraries, to run the definitions *)

(** A stand-in for [urlparse(url).path] on URLs of the shape
    [scheme://host/path]: what follows the host, up to a [?] or [#]. *)
Definition simple_urlparse : UrlLib :=
  {| urlparse_path := fun url =>
       match split (lit "://") url with
       | _ :: rest :: _ =>
           let after_host := lstrip_by (fun c => negb (c =? 47)%N) rest in
           let cut sep p := match split sep p with q :: _ => q | [] => p end in
           Some (cut (lit "#") (cut (lit "?") after_host))
       | _ => Some url
       end |}.

Definition no_libm : Libm := {| libm_pow := fun _ _ => nan |}.

(** The integer a float holds, if it holds one. *)
Definition int_of_float (y : float) : option Z :=
  match Prim2SF y with
  | S754_zero _ => Some 0
  | S754_finite s m e =>
      let n := if 0 <=? e then Z.pos m * 2 ^ e
               else if Z.pos m mod 2 ^ (- e) =? 0 then Z.pos m / 2 ^ (- e)
               else -1 in
      if (n <? 0) || s then None else Some n
  | _ => None
  end.

(** A stand-in for [pow] on a positive base and an exponent that is an
    integer and not negative: the exact power, rounded to the nearest float
    as IEEE 754 asks of [pow], which is infinity when the power is beyond
    the floats. Elsewhere it answers NaN. *)
Definition rounding_pow : Libm :=
  {| libm_pow := fun x y =>
       match Prim2SF x, int_of_float y with
       | S754_finite false m e, Some n =>
           SF2Prim (binary_normalize prec emax (Z.pos m ^ n) (e * n) false)
       | _, _ => nan
       end |}.

(** The file name of [test_safe_filename_max_length]. *)
Definition long_name : pystr := repeat 97%N 300 ++ lit ".txt".

(** The lines of the file of [test_parse_valid_file], as iterating over it
    yields them. *)
Definition profiles_txt : list pystr :=
  [ [10%N];
    lit "# Komentarz" ++ [10%N];
    lit "username1" ++ [10%N];
    lit "https://instagram.com/username2/" ++ [10%N];
    lit "@username3" ++ [10%N];
    [10%N];
    lit "# Kolejny komentarz" ++ [10%N];
    lit "        " ].

End Utils.

(** ** [src/auth.py] *)

Module Auth.

(** *** Codecs of the Python library *)

(** [str.encode()] (UTF-8, strict) on one code point; a surrogate cannot be
    encoded. Code points of a Python string lie below [0x110000]. *)
Definition utf8_encode_char (c : codepoint) : option bytes :=
  (if c <? 128 then Some [c]
   else if c <? 2048 then Some [192 + c / 64; 128 + c mod 64]
   else if (55296 <=? c) && (c <=? 57343) then None
   else if c <? 65536
   then Some [224 + c / 4096; 128 + (c / 64) mod 64; 128 + c mod 64]
   else Some [240 + c / 262144; 128 + (c / 4096) mod 64;
              128 + (c / 64) mod 64; 128 + c mod 64])%N.

Fixpoint utf8_encode (s : pystr) : result bytes :=
  match s with
  | [] => Ok []
  | c :: s' =>
      match utf8_encode_char c with
      | None => Raise UnicodeEncodeError
      | Some bs => rest ← utf8_encode s'; Ok (bs ++ rest)
      end
  end.

Definition continuation (b : byte) : bool := ((128 <=? b) && (b <=? 191))%N.

(** [bytes.decode()] (UTF-8, strict): overlong forms, surrogates and code
    points above [0x10FFFF] are refused. *)
Fixpoint utf8_decode (bs : bytes) : result pystr :=
  match bs with
  | [] => Ok []
  | b1 :: r1 =>
      if (b1 <? 128)%N then s ← utf8_decode r1; Ok (b1 :: s)
      else if ((194 <=? b1) && (b1 <=? 223))%N then
        match r1 with
        | b2 :: r2 =>
            if continuation b2
            then s ← utf8_decode r2;
                 Ok (((b1 - 192) * 64 + (b2 - 128))%N :: s)
            else Raise UnicodeDecodeError
        | _ => Raise UnicodeDecodeError
        end
      else if ((224 <=? b1) && (b1 <=? 239))%N then
        match r1 with
        | b2 :: b3 :: r3 =>
            let c := ((b1 - 224) * 4096 + (b2 - 128) * 64 + (b3 - 128))%N in
            if continuation b2 && continuation b3 && (2048 <=? c)%N
               && negb ((55296 <=? c) && (c <=? 57343))%N
            then s ← utf8_decode r3; Ok (c :: s)
            else Raise UnicodeDecodeError
        | _ => Raise UnicodeDecodeError
        end
      else if ((240 <=? b1) && (b1 <=? 244))%N then
        match r1 with
        | b2 :: b3 :: b4 :: r4 =>
            let c := ((b1 - 240) * 262144 + (b2 - 128) * 4096
                      + (b3 - 128) * 64 + (b4 - 128))%N in
            if continuation b2 && continuation b3 && continuation b4
               && (65536 <=? c)%N && (c <=? 1114111)%N
            then s ← utf8_decode r4; Ok (c :: s)
            else Raise UnicodeDecodeError
        | _ => Raise UnicodeDecodeError
        end
      else Raise UnicodeDecodeError
  end.

(** [bytes.decode('latin-1')]: every byte is the code point of its value. *)
Definition latin1_decode (bs : bytes) : pystr := bs.

(** The alphabet of [base64.urlsafe_b64encode]. *)
Definition b64_char (i : N) : byte :=
  (if i <? 26 then 65 + i
   else if i <? 52 then 71 + i
   else if i <? 62 then i - 4
   else if i =? 62 then 45
   else 95)%N.

Fixpoint urlsafe_b64encode (bs : bytes) : bytes :=
  match bs with
  | [] => []
  | [a] =>
      [b64_char (a / 4); b64_char ((a mod 4) * 16); 61; 61]%N
  | [a; b] =>
      [b64_char (a / 4); b64_char ((a mod 4) * 16 + b / 16);
       b64_char ((b mod 16) * 4); 61]%N
  | a :: b :: c :: rest =>
      [b64_char (a / 4); b64_char ((a mod 4) * 16 + b / 16);
       b64_char ((b mod 16) * 4 + c / 64); b64_char (c mod 64)]%N
      ++ urlsafe_b64encode rest
  end.

(** *** Library primitives that stay parameters *)

(** [hashlib.pbkdf2_hmac(hash_name, password, salt, iterations)] *)
Class Hashlib := { pbkdf2_hmac : string -> bytes -> bytes -> Z -> bytes }.

(** [cryptography.fernet.Fernet]: the constructor refuses a malformed key
    with a [ValueError]; [encrypt] draws an initialisation vector and reads
    the clock ([fernet_entropy]); [decrypt] raises [InvalidToken] on a token
    it does not accept. *)
Class FernetLib := {
  fernet : Type;
  fernet_entropy : Type;
  Fernet : bytes -> result fernet;
  fernet_encrypt : fernet -> fernet_entropy -> bytes -> bytes;
  fernet_decrypt : fernet -> bytes -> result bytes
}.

(** The process environment read by [os.getenv]. *)
Definition environ := gmap pystr pystr.

Definition getenv (env : environ) (name : string) : option pystr :=
  env !! lit name.

(** [a or b] on the results of [os.getenv]: [None] and the empty string are
    false. *)
Definition or_else (a : option pystr) (b : pystr) : pystr :=
  match a with
  | Some (c :: s) => c :: s
  | _ => b
  end.

(** *** [SessionEncryption] *)

(** [b'instagram_downloader_salt_v1'] *)
Definition kdf_salt : bytes := lit "instagram_downloader_salt_v1".

(** The passphrase built from the system user when no password is given:
    [f"ig_downloader_{system_user}_secret"]. *)
Definition machine_passphrase (env : environ) : pystr :=
  let system_user :=
    or_else (getenv env "USER")
      (or_else (getenv env "USERNAME") (lit "default")) in
  lit "ig_downloader_" ++ system_user ++ lit "_secret".

(** The last two statements of [_derive_key]: PBKDF2 and base64. *)
Definition kdf_key `{Hashlib} (password : pystr) : result bytes :=
  encoded ← utf8_encode password;
  let key := pbkdf2_hmac "sha256" encoded kdf_salt 100000 in
  Ok (urlsafe_b64encode key).

(** [SessionEncryption._derive_key(password)] *)
Definition _derive_key `{Hashlib} (env : environ) (password : option pystr)
  : result bytes :=
  match password with
  | None =>
      match getenv env "SESSION_ENCRYPTION_KEY" with
      | Some (c :: k) => utf8_encode (c :: k)
      | _ => kdf_key (machine_passphrase env)
      end
  | Some password => kdf_key password
  end.

Record SessionEncryption `{FernetLib} := {
  key : bytes;
  fernet_obj : fernet
}.

(** [SessionEncryption.__init__(password)] *)
Definition init `{Hashlib} `{FernetLib} (env : environ)
    (password : option pystr) : result SessionEncryption :=
  k ← _derive_key env password;
  f ← Fernet k;
  Ok {| key := k; fernet_obj := f |}.

(** [SessionEncryption.encrypt(data)] *)
Definition encrypt `{FernetLib} (self : SessionEncryption)
    (r : fernet_entropy) (data : pystr) : result bytes :=
  encoded ← utf8_encode data;
  Ok (fernet_encrypt (fernet_obj self) r encoded).

(** [SessionEncryption.decrypt(encrypted_data)] *)
Definition decrypt `{FernetLib} (self : SessionEncryption)
    (encrypted_data : bytes) : result pystr :=
  plain ← fernet_decrypt (fernet_obj self) encrypted_data;
  utf8_decode plain.

(** *** The file system seen by [AuthManager._save_session] *)

(** A document written by [json.dump]. *)
Inductive json :=
| JString (s : pystr)
| JBool (b : bool)
| JObject (fields : list (string * json)).

(** What a file holds: raw bytes, or the text of a JSON document
    (represented by the document). *)
Inductive file_content :=
| Binary (b : bytes)
| JsonText (j : json).

Inductive log_event :=
| SessionEncrypted (path : pystr)
| ChmodWarning (e : exn)
| SessionSaved (username : pystr)
| SaveFailed (e : exn).

Record world := {
  files : gmap pystr file_content;
  modes : gmap pystr Z;            (* set by os.chmod *)
  unwritable : gset pystr;         (* open(..., 'w') fails on these paths *)
  now_isoformat : pystr;           (* datetime.now().isoformat() *)
  log : list log_event
}.

(** A statement: it changes the world and returns or raises. *)
Definition io (A : Type) : Type := world -> world * result A.

#[export] Instance io_ret : MRet io := fun A a w => (w, Ok a).
#[export] Instance io_bind : MBind io := fun A B k m w =>
  match m w with
  | (w', Ok a) => k a w'
  | (w', Raise e) => (w', Raise e)
  end.

(** [try: m except Exception as e: h e] *)
Definition try_except {A} (m : io A) (h : exn -> io A) : io A :=
  fun w =>
    match m w with
    | (w', Ok a) => (w', Ok a)
    | (w', Raise e) => h e w'
    end.

Definition lift {A} (r : result A) : io A := fun w => (w, r).

Definition datetime_now_isoformat : io pystr :=
  fun w => (w, Ok (now_isoformat w)).

Definition set_files (fs : gmap pystr file_content) (w : world) : world :=
  {| files := fs; modes := modes w; unwritable := unwritable w;
     now_isoformat := now_isoformat w; log := log w |}.

(** [open(path, 'rb').read()] *)
Definition read_bytes (path : pystr) : io bytes :=
  fun w =>
    match files w !! path with
    | Some (Binary b) => (w, Ok b)
    | Some (JsonText _) => (w, Raise OSError)
    | None => (w, Raise FileNotFoundError)
    end.

(** [open(path, 'w' or 'wb')] followed by one write. *)
Definition write_file (path : pystr) (c : file_content) : io unit :=
  fun w =>
    if decide (path ∈ unwritable w) then (w, Raise OSError)
    else (set_files (<[path := c]> (files w)) w, Ok tt).

(** [os.chmod(path, mode)] *)
Definition chmod (path : pystr) (mode : Z) : io unit :=
  fun w =>
    match files w !! path with
    | None => (w, Raise FileNotFoundError)
    | Some _ =>
        ({| files := files w; modes := <[path := mode]> (modes w);
            unwritable := unwritable w; now_isoformat := now_isoformat w;
            log := log w |}, Ok tt)
    end.

Definition logger (ev : log_event) : io unit :=
  fun w =>
    ({| files := files w; modes := modes w; unwritable := unwritable w;
        now_isoformat := now_isoformat w; log := log w ++ [ev] |}, Ok tt).

(** [Path / name], for a relative [name] (the normalisation that [pathlib]
    applies to the text of a path is left out). *)
Definition path_join (dir name : pystr) : pystr := dir ++ lit "/" ++ name.

(** [instaloader.Instaloader.save_session_to_file(filename)], a library
    call: it writes the session file or raises. *)
Class Instaloader := {
  loader : Type;
  save_session_to_file : loader -> pystr -> io unit
}.

(** *** [AuthManager] *)

Record AuthManager `{Instaloader} `{FernetLib} := {
  am_loader : loader;
  session_dir : pystr;
  encrypt_sessions : bool;
  logged_in : bool;
  username : option pystr;
  encryption : option SessionEncryption
}.

(** The body of the [try] of [AuthManager._save_session]. *)
Definition _save_session_try `{Instaloader} `{FernetLib} (self : AuthManager)
    (username : pystr) (r : fernet_entropy) : io unit :=
  timestamp ← datetime_now_isoformat;
  let session_data :=
    JObject [("username", JString username);
             ("timestamp", JString timestamp);
             ("encrypted", JBool (encrypt_sessions self))] in
  let session_file_path :=
    path_join (session_dir self) (lit "session_" ++ username) in
  _ ← save_session_to_file (am_loader self) session_file_path;
  _ ← (if encrypt_sessions self then
         match encryption self with
         | Some enc =>
             session_content ← read_bytes session_file_path;
             encrypted_content ←
               lift (encrypt enc r (latin1_decode session_content));
             _ ← write_file session_file_path (Binary encrypted_content);
             logger (SessionEncrypted session_file_path)
         | None => mret tt
         end
       else mret tt);
  _ ← try_except (chmod session_file_path 384)
        (fun e => logger (ChmodWarning e));
  let metadata_file := path_join (session_dir self) (lit "session.json") in
  _ ← write_file metadata_file (JsonText session_data);
  _ ← try_except (chmod metadata_file 384) (fun _ => mret tt);
  logger (SessionSaved username).

(** [AuthManager._save_session(username)]: every exception of the body is
    reported and swallowed. The boolean tells whether the body completed. *)
Definition _save_session `{Instaloader} `{FernetLib} (self : AuthManager)
    (username : pystr) (r : fernet_entropy) (w : world) : world * bool :=
  match _save_session_try self username r w with
  | (w', Ok _) => (w', true)
  | (w', Raise e) => (fst (logger (SaveFailed e) w'), false)
  end.

(** *** What [_load_session] and [logout] use of the Python library *)

(** [Path.exists()] *)
Definition path_exists (path : pystr) (w : world) : bool :=
  match files w !! path with Some _ => true | None => false end.

(** [Path.unlink()]: the file is gone, and its mode with it. *)
Definition unlink (path : pystr) : io unit :=
  fun w =>
    match files w !! path with
    | None => (w, Raise FileNotFoundError)
    | Some _ =>
        ({| files := delete path (files w); modes := delete path (modes w);
            unwritable := unwritable w; now_isoformat := now_isoformat w;
            log := log w |}, Ok tt)
    end.

(** [session_data.get(key)] on the dictionary [json.load] builds from an
    object: of two members with the same name the later one is kept. *)
Definition json_get (key : string) (fields : list (string * json))
  : option json :=
  fold_left (fun found '(k, v) => if String.eqb k key then Some v else found)
    fields None.

(** The truth value of a value [json.load] returns. *)
Definition truthy (j : json) : bool :=
  match j with
  | JString [] => false
  | JString (_ :: _) => true
  | JBool b => b
  | JObject [] => false
  | JObject (_ :: _) => true
  end.

(** [repr] of a dictionary, which an f-string prints for a value that is
    one; it stays a parameter. *)
Class PyFormat := { dict_repr : list (string * json) -> pystr }.

(** [f"{value}"] *)
Definition format_value `{PyFormat} (j : json) : pystr :=
  match j with
  | JString s => s
  | JBool true => lit "True"
  | JBool false => lit "False"
  | JObject fields => dict_repr fields
  end.

(** [PurePath.name] on the text of a path: what follows the last [/]. *)
Definition path_name (p : pystr) : pystr :=
  drop (Z.to_nat (Utils.rfind 47%N p + 1)) p.

(** [PurePath.with_suffix(suffix)] for a suffix such as [.tmp]: the suffix
    of the name starts at its last dot, unless that dot is the first or the
    last character of the name; it is replaced, or [suffix] is appended when
    the name has none. [None] stands for the [ValueError] raised on an empty
    name. *)
Definition with_suffix (p suffix : pystr) : option pystr :=
  let name := path_name p in
  match name with
  | [] => None
  | _ :: _ =>
      let i := Utils.rfind 46%N name in
      let stem :=
        if (0 <? i) && (i <? Utils.len name - 1)
        then take (Z.to_nat i) name else name in
      Some (take (Z.to_nat (Utils.rfind 47%N p + 1)) p ++ stem ++ suffix)
  end.

(** [str.encode('latin-1')], as a file opened with [encoding='latin-1']
    does on [write]: code points from 256 on cannot be encoded. *)
Definition latin1_encode (s : pystr) : option bytes :=
  if forallb (fun c => c <? 256)%N s then Some s else None.

(** [instaloader.Instaloader.load_session_from_file(username, filename)], a
    library call: it reads the file into the loader, whose new state it
    gives, or raises. *)
Class SessionLoader `{Instaloader} := {
  load_session_from_file : loader -> json -> pystr -> io loader
}.

(** *** [AuthManager._load_session] *)

Definition set_encryption `{Instaloader} `{FernetLib}
    (enc : SessionEncryption) (self : AuthManager) : AuthManager :=
  {| am_loader := am_loader self; session_dir := session_dir self;
     encrypt_sessions := encrypt_sessions self; logged_in := logged_in self;
     username := username self; encryption := Some enc |}.

Definition set_loader `{Instaloader} `{FernetLib}
    (ldr : loader) (self : AuthManager) : AuthManager :=
  {| am_loader := ldr; session_dir := session_dir self;
     encrypt_sessions := encrypt_sessions self; logged_in := logged_in self;
     username := username self; encryption := encryption self |}.

(** [self.logged_in = ...; self.username = ...] *)
Definition set_login `{Instaloader} `{FernetLib}
    (logged : bool) (name : option pystr) (self : AuthManager) : AuthManager :=
  {| am_loader := am_loader self; session_dir := session_dir self;
     encrypt_sessions := encrypt_sessions self; logged_in := logged;
     username := name; encryption := encryption self |}.

(** The [try] inside the branch of an encrypted session; [enc] is
    [self.encryption]. Every exception in it ends in [return False]. A
    user name that is not a string is kept in [self.username] as the
    f-strings print it. *)
Definition _load_encrypted `{SessionLoader} `{FernetLib} `{PyFormat}
    (self : AuthManager) (enc : SessionEncryption) (username : json)
    (session_file_path : pystr) (w : world) : world * (AuthManager * bool) :=
  match read_bytes session_file_path w with
  | (w, Raise _) => (w, (self, false))
  | (w, Ok encrypted_content) =>
  match decrypt enc encrypted_content with
  | Raise _ => (w, (self, false))
  | Ok decrypted_content =>
  match with_suffix session_file_path (lit ".tmp") with
  | None => (w, (self, false))
  | Some temp_file =>
  (* [open(temp_file, 'w', encoding='latin-1')] empties the file *)
  match write_file temp_file (Binary []) w with
  | (w, Raise _) => (w, (self, false))
  | (w, Ok _) =>
  match latin1_encode decrypted_content with
  | None => (w, (self, false))
  | Some written =>
  let w := set_files (<[temp_file := Binary written]> (files w)) w in
  match load_session_from_file (am_loader self) username temp_file w with
  | (w, Raise _) => (w, (self, false))
  | (w, Ok ldr) =>
  let self := set_loader ldr self in
  match unlink temp_file w with
  | (w, Raise _) => (w, (self, false))
  | (w, Ok _) =>
      (w, (set_login true (Some (format_value username)) self, true))
  end end end end end end end.

(** [AuthManager._load_session()]: every exception ends in
    [return False]. The result is the manager as the call leaves it and the
    boolean returned. *)
Definition _load_session `{SessionLoader} `{Hashlib} `{FernetLib} `{PyFormat}
    (self : AuthManager) (env : environ) (w : world)
  : world * (AuthManager * bool) :=
  let metadata_file := path_join (session_dir self) (lit "session.json") in
  match files w !! metadata_file with
  | None => (w, (self, false))
  | Some (Binary _) => (w, (self, false))      (* not a JSON document *)
  | Some (JsonText (JString _)) | Some (JsonText (JBool _)) =>
      (w, (self, false))                       (* no method [get] *)
  | Some (JsonText (JObject session_data)) =>
      let username := json_get "username" session_data in
      let is_encrypted :=
        default (JBool false) (json_get "encrypted" session_data) in
      match username with
      | None => (w, (self, false))
      | Some username =>
          if negb (truthy username) then (w, (self, false))
          else
            let session_file_path :=
              path_join (session_dir self)
                (lit "session_" ++ format_value username) in
            if negb (path_exists session_file_path w) then (w, (self, false))
            else if truthy is_encrypted then
              match encryption self with
              | Some enc =>
                  _load_encrypted self enc username session_file_path w
              | None =>
                  (* [self.encryption = SessionEncryption()] *)
                  match init env None with
                  | Raise _ => (w, (self, false))
                  | Ok enc =>
                      _load_encrypted (set_encryption enc self) enc username
                        session_file_path w
                  end
              end
            else
              match load_session_from_file (am_loader self) username
                      session_file_path w with
              | (w, Raise _) => (w, (self, false))
              | (w, Ok ldr) =>
                  (w, (set_login true (Some (format_value username))
                         (set_loader ldr self), true))
              end
      end
  end.

(** *** [AuthManager.logout] *)

(** Whether the operating system lets the process remove a file. [unlink]
    needs the right to write in the directory of the file, which the model
    of the files does not record: it stays a parameter. *)
Class Permissions := { may_unlink : pystr -> world -> bool }.

(** [Path.unlink()] under these permissions: a refusal raises
    [PermissionError], an [OSError]. *)
Definition unlink_checked `{Permissions} (path : pystr) : io unit :=
  fun w => if may_unlink path w then unlink path w else (w, Raise OSError).

(** [if path.exists(): path.unlink()] *)
Definition remove_if_exists `{Permissions} (path : pystr) : io unit :=
  fun w => if path_exists path w then unlink_checked path w else (w, Ok tt).

(** The body of the [try] of [logout]; it gives the manager as the two
    assignments at its end leave it. *)
Definition logout_try `{Instaloader} `{FernetLib} `{Permissions}
    (self : AuthManager) : io AuthManager :=
  let metadata_file := path_join (session_dir self) (lit "session.json") in
  _ ← remove_if_exists metadata_file;
  _ ← match username self with
      | Some (c :: name) =>
          let session_file :=
            path_join (session_dir self) (lit "session_" ++ c :: name) in
          remove_if_exists session_file
      | _ => mret tt
      end;
  mret (set_login false None self).

(** [AuthManager.logout()]: an exception raised in the body is printed and
    logged by the [except Exception], and the manager stays as it was. *)
Definition logout `{Instaloader} `{FernetLib} `{Permissions}
    (self : AuthManager) (w : world) : world * AuthManager :=
  match logout_try self w with
  | (w, Ok self') => (w, self')
  | (w, Raise _) => (w, self)
  end.

(** *** Vocabulary of the properties *)

(** The strings [str.encode()] accepts: Unicode scalar values only. *)
Definition encodable (s : pystr) : bool :=
  forallb (fun c => (c <? 55296) || (57343 <? c) && (c <? 1114112))%N s.

(** The world [logout] removes the session file in: the metadata file is
    gone. *)
Definition without_metadata `{Instaloader} `{FernetLib} (self : AuthManager)
    (w : world) : world :=
  let metadata_file := path_join (session_dir self) (lit "session.json") in
  if path_exists metadata_file w then (unlink metadata_file w).1 else w.

(** The removals that [logout] attempts are allowed: that of the metadata
    file if there is one and then, the metadata file gone, that of the
    session file of its user if there is one. *)
Definition logout_permitted `{Instaloader} `{FernetLib} `{Permissions}
    (self : AuthManager) (w : world) : bool :=
  let metadata_file := path_join (session_dir self) (lit "session.json") in
  (negb (path_exists metadata_file w) || may_unlink metadata_file w) &&
  match username self with
  | Some (c :: name) =>
      let session_file :=
        path_join (session_dir self) (lit "session_" ++ c :: name) in
      let w1 := without_metadata self w in
      negb (path_exists session_file w1) || may_unlink session_file w1
  | _ => true
  end.

(** What is assumed of Fernet: decrypting a token with the key that made it
    gives the plain text back. *)
Definition fernet_correct (F : FernetLib) : Prop :=
  forall (f : fernet) (r : fernet_entropy) (m : bytes),
    fernet_decrypt f (fernet_encrypt f r m) = Ok m.

(** *** Stand-ins for the libraries

    The properties are proved for every implementation of the library
    classes. To run the definitions on concrete inputs, these small
    implementations take the place of PBKDF2, Fernet and instaloader. *)

(** Not a hash: it mixes password and salt into 32 bytes. *)
Definition toy_hashlib : Hashlib :=
  {| pbkdf2_hmac := fun _ password salt _ =>
       take 32 (password ++ salt ++ repeat 0%N 32) |}.

(** Not a cipher: a token is the key followed by the plain text, and only
    tokens that start with the key are accepted. A key has 44 bytes, as the
    base64 form of 32 bytes has. *)
Definition toy_fernet : FernetLib :=
  {| fernet := bytes;
     fernet_entropy := unit;
     Fernet := fun k =>
       if (length k =? 44)%nat then Ok k
       else Raise (ValueError InvalidFernetKey);
     fernet_encrypt := fun k _ m => k ++ m;
     fernet_decrypt := fun k token =>
       if decide (take (length k) token = k)
       then Ok (drop (length k) token)
       else Raise InvalidToken |}.

(** The loader holds the bytes of its session and writes them out. *)
Definition toy_instaloader : Instaloader :=
  {| loader := bytes;
     save_session_to_file := fun session path => write_file path (Binary session) |}.

(** An environment that sets [SESSION_ENCRYPTION_KEY] to a key of the shape
    Fernet accepts (the base64 form of 32 zero bytes). *)
Definition session_key : pystr :=
  lit "AAAAAAAAAAAAAAAAAAAAAAAAAAAAAAAAAAAAAAAAAAA=".

Definition env_with_key : environ :=
  {[ lit "SESSION_ENCRYPTION_KEY" := session_key ]}.

(** An instance built from the password ["secret"] with the stand-ins. *)
Definition toy_session : @SessionEncryption toy_fernet :=
  Eval vm_compute in
    match @kdf_key toy_hashlib (lit "secret") with
    | Ok k => {| key := k; fernet_obj := k : @fernet toy_fernet |}
    | Raise _ => {| key := []; fernet_obj := [] : @fernet toy_fernet |}
    end.

(** A manager over the stand-ins, with encryption switched on. *)
Definition toy_manager : @AuthManager toy_instaloader toy_fernet :=
  {| am_loader := [1; 2; 3]%N : @loader toy_instaloader;
     session_dir := lit "data/sessions";
     encrypt_sessions := true;
     logged_in := true;
     username := Some (lit "alice");
     encryption := Some toy_session |}.

Definition toy_world : world :=
  {| files := ∅; modes := ∅; unwritable := ∅;
     now_isoformat := lit "2024-05-01T12:00:00"; log := [] |}.

(** A loader that takes the bytes of the file for its session, and one that
    refuses every file. *)
Definition toy_session_loader : @SessionLoader toy_instaloader :=
  {| load_session_from_file := fun _ _ path w =>
       match files w !! path with
       | Some (Binary b) => (w, Ok (b : @loader toy_instaloader))
       | _ => (w, Raise FileNotFoundError)
       end |}.

Definition picky_session_loader : @SessionLoader toy_instaloader :=
  {| load_session_from_file := fun _ _ _ w => (w, Raise OSError) |}.

Definition toy_format : PyFormat := {| dict_repr := fun _ => lit "{...}" |}.

(** The world after [toy_manager] has saved the session of [alice]. *)
Definition saved_world : world :=
  (@_save_session toy_instaloader toy_fernet toy_manager (lit "alice") tt
     toy_world).1.

(** The manager of a new process: not logged in, no cipher yet. *)
Definition fresh_manager : @AuthManager toy_instaloader toy_fernet :=
  {| am_loader := [] : @loader toy_instaloader;
     session_dir := lit "data/sessions";
     encrypt_sessions := true;
     logged_in := false;
     username := None;
     encryption := None |}.

(** Every removal is allowed; and the session files are protected, the
    metadata file is not. *)
Definition permissive : Permissions := {| may_unlink := fun _ _ => true |}.

Definition protected_sessions : Permissions :=
  {| may_unlink := fun path _ =>
       negb (Utils.contains (lit "/session_") path) |}.

(** [SessionEncryption()] with the stand-ins, in an empty environment. *)
Definition default_session : @SessionEncryption toy_fernet :=
  Eval vm_compute in
    match @kdf_key toy_hashlib (machine_passphrase ∅) with
    | Ok k => {| key := k; fernet_obj := k : @fernet toy_fernet |}
    | Raise _ => {| key := []; fernet_obj := [] : @fernet toy_fernet |}
    end.

End Auth.

(** ** [src/batch.py] *)

Module Batch.

(** What a call of [downloader.download_profile] does: it returns a
    dictionary (of which the loop reads [success] and [error]), raises an
    [Exception], or raises [KeyboardInterrupt]. *)
Inductive outcome :=
| Returned (success : bool) (error : option pystr)
| RaisedException (message : pystr)
| RaisedKeyboardInterrupt.

(** [InstagramDownloader.download_profile], with the state [W] of the
    downloader and of the remote service it talks to. *)
Class ProfileDownloader (W : Type) := {
  download_profile : pystr -> W -> outcome * W
}.

(** What [time.sleep(1)] does: it returns after its second, or the user
    presses Ctrl-C and it raises [KeyboardInterrupt]. *)
Inductive nap :=
| Slept
| NapInterrupted.

(** [time.sleep(1)], in the same world as the downloads. *)
Class Clock (W : Type) := {
  time_sleep : W -> nap * W
}.

(** What an observer of the loop sees: the calls of [download_profile], the
    calls of [time.sleep(1)] that return, and a [KeyboardInterrupt], raised
    by the download that was just started or by the [time.sleep(1)] that
    was due. *)
Inductive event :=
| Download (username : pystr)
| Sleep1
| CtrlC.

Record stats := {
  total : Z;
  completed : Z;
  failed : Z;
  skipped : Z
}.

Record BatchDownloader := {
  delay_between : Z;
  failed_profiles : list (pystr * pystr);
  batch_stats : stats
}.

(** [BatchDownloader.__init__(downloader, delay_between)] *)
Definition init (delay_between : Z) : BatchDownloader :=
  {| delay_between := delay_between;
     failed_profiles := [];
     batch_stats := {| total := 0; completed := 0; failed := 0; skipped := 0 |} |}.

Definition set_total (n : Z) (self : BatchDownloader) : BatchDownloader :=
  {| delay_between := delay_between self;
     failed_profiles := failed_profiles self;
     batch_stats :=
       {| total := n; completed := completed (batch_stats self);
          failed := failed (batch_stats self);
          skipped := skipped (batch_stats self) |} |}.

(** [self.stats['completed'] += 1] *)
Definition count_completed (self : BatchDownloader) : BatchDownloader :=
  {| delay_between := delay_between self;
     failed_profiles := failed_profiles self;
     batch_stats :=
       {| total := total (batch_stats self);
          completed := completed (batch_stats self) + 1;
          failed := failed (batch_stats self);
          skipped := skipped (batch_stats self) |} |}.

(** [self.stats['failed'] += 1; self.failed_profiles.append((username, error))] *)
Definition count_failed (username error : pystr) (self : BatchDownloader)
  : BatchDownloader :=
  {| delay_between := delay_between self;
     failed_profiles := failed_profiles self ++ [(username, error)];
     batch_stats :=
       {| total := total (batch_stats self);
          completed := completed (batch_stats self);
          failed := failed (batch_stats self) + 1;
          skipped := skipped (batch_stats self) |} |}.

(** ['Nieznany błąd'], the default of [result.get('error', ...)]. *)
Definition unknown_error : pystr :=
  lit "Nieznany b" ++ [322; 261]%N ++ lit "d".

(** The state of the loop. *)
Record loop_state (W : Type) := {
  this : BatchDownloader;
  remote : W;
  trace : list event
}.
Arguments this {W}.
Arguments remote {W}.
Arguments trace {W}.

(** [for _ in tqdm(range(self.delay_between)): time.sleep(1)], with the
    seconds still to sleep. The loop stands outside every [try]: a
    [KeyboardInterrupt] raised by [time.sleep] ends it, and [false] says
    so. *)
Fixpoint sleep_between {W} `{Clock W} (seconds : nat) (w : W)
    (tr : list event) : bool * W * list event :=
  match seconds with
  | O => (true, w, tr)
  | S seconds' =>
      match time_sleep w with
      | (Slept, w') => sleep_between seconds' w' (tr ++ [Sleep1])
      | (NapInterrupted, w') => (false, w', tr ++ [CtrlC])
      end
  end.

(** How the [for] loop over the user names ends: the list is exhausted, the
    [except KeyboardInterrupt] around a download has run [break], or a
    [KeyboardInterrupt] raised while sleeping leaves the loop and the
    method. *)
Inductive ending :=
| LoopDone
| LoopBroke
| LoopEscaped.

(** The [for i, username in enumerate(usernames, 1)] loop of
    [download_from_list]; [n] is [len(usernames)], [i] the index of the head
    of [rest]. *)
Fixpoint loop {W} `{ProfileDownloader W} `{Clock W} (n i : Z)
    (rest : list pystr) (st : loop_state W) : ending * loop_state W :=
  match rest with
  | [] => (LoopDone, st)
  | username :: rest' =>
      let '(result, remote') := download_profile username (remote st) in
      let tr := trace st ++ [Download username] in
      match result with
      | RaisedKeyboardInterrupt =>
          (LoopBroke,
           {| this := this st; remote := remote'; trace := tr ++ [CtrlC] |})
      | _ =>
          let this' :=
            match result with
            | Returned true _ => count_completed (this st)
            | Returned false error =>
                count_failed username (default unknown_error error) (this st)
            | RaisedException message =>
                count_failed username message (this st)
            | RaisedKeyboardInterrupt => this st
            end in
          let '(slept, remote'', tr') :=
            if i <? n
            then sleep_between (Z.to_nat (delay_between this')) remote' tr
            else (true, remote', tr) in
          let st' := {| this := this'; remote := remote''; trace := tr' |} in
          if slept then loop n (i + 1) rest' st' else (LoopEscaped, st')
      end
  end.

(** The dictionary [download_from_list] returns. *)
Record batch_result := {
  res_success : bool;
  res_stats : stats;
  res_failed : list (pystr * pystr)
}.

(** How a call of one of the two methods ends: it returns, or an exception
    leaves it, which is an exception of the parser or the
    [KeyboardInterrupt] of an interrupted sleep. *)
Inductive leaving (A : Type) :=
| ByReturn (a : A)
| ByException (e : exn)
| ByKeyboardInterrupt.
Arguments ByReturn {A} a.
Arguments ByException {A} e.
Arguments ByKeyboardInterrupt {A}.

(** [BatchDownloader.download_from_list(usernames)]: after the loop, the
    summary and the dictionary; the state is that of the object, the
    downloader and the observer when the call ends. *)
Definition download_from_list {W} `{ProfileDownloader W} `{Clock W}
    (self : BatchDownloader) (usernames : list pystr) (w : W)
  : leaving batch_result * loop_state W :=
  let n := Z.of_nat (length usernames) in
  let '(how, st) :=
    loop n 1 usernames
      {| this := set_total n self; remote := w; trace := [] |} in
  (match how with
   | LoopEscaped => ByKeyboardInterrupt
   | _ => ByReturn {| res_success := true;
                      res_stats := batch_stats (this st);
                      res_failed := failed_profiles (this st) |}
   end, st).

(** *** Text files *)

(** The lines that iterating over a file opened in text mode yields
    (universal newlines): a line ends after [\n], [\r\n] or a lone [\r],
    each read as [\n]; [cur] holds the current line in reverse. *)
Fixpoint readlines_go (s cur : pystr) : list pystr :=
  match s with
  | [] => match cur with [] => [] | _ :: _ => [rev cur] end
  | c :: s' =>
      if (c =? 10)%N then rev (10%N :: cur) :: readlines_go s' []
      else if (c =? 13)%N then
        match s' with
        | c' :: s'' =>
            if (c' =? 10)%N then rev (10%N :: cur) :: readlines_go s'' []
            else rev (10%N :: cur) :: readlines_go s' []
        | [] => rev (10%N :: cur) :: readlines_go s' []
        end
      else readlines_go s' (c :: cur)
  end.

Definition readlines (text : pystr) : list pystr := readlines_go text [].

(** The files the batch downloader reads and writes, with their text (UTF-8
    on disk, line ends as on POSIX); the paths that cannot be opened for
    writing and those that cannot be opened for reading; and what
    [time.strftime('%Y-%m-%d %H:%M:%S')] returns. *)
Record disk := {
  texts : gmap pystr pystr;
  locked : gset pystr;
  unreadable : gset pystr;
  clock : pystr
}.

(** The files as [parse_profile_list_file] reads them. *)
Definition open_for_reading (d : disk) : Utils.text_files :=
  readlines <$> texts d.

(** [parse_profile_list_file(file_path)] on this disk: the [open] of a file
    that exists and cannot be opened for reading raises [PermissionError],
    an [OSError]. *)
Definition read_profiles `{Utils.UrlLib} (d : disk) (file_path : pystr)
  : result (list pystr) :=
  match texts d !! file_path with
  | Some _ =>
      if decide (file_path ∈ unreadable d) then Raise OSError
      else (Utils.parse_profile_list_file (open_for_reading d) file_path).2
  | None => (Utils.parse_profile_list_file (open_for_reading d) file_path).2
  end.

(** The calls of [f.write] one after the other, on a file opened with
    [encoding='utf-8']: a string that cannot be encoded raises, and the
    file keeps what was written before. *)
Fixpoint write_all (pieces : list pystr) (written : pystr) : pystr * bool :=
  match pieces with
  | [] => (written, true)
  | piece :: rest =>
      match Auth.utf8_encode piece with
      | Ok _ => write_all rest (written ++ piece)
      | Raise _ => (written, false)
      end
  end.

(** *** [_save_failed_profiles] *)

(** The strings written, in order. *)
Definition failed_pieces (now : pystr) (failed : list (pystr * pystr))
  : list pystr :=
  [ lit "# Nieudane profile - Instagram Content Downloader" ++ [10%N];
    lit "# Wygenerowano: " ++ now ++ [10; 10]%N ] ++
  flat_map (fun '(username, error) =>
              [ lit "# B" ++ [322; 261]%N ++ lit "d: " ++ error ++ [10%N];
                username ++ [10; 10]%N ]) failed.

(** An exception ([open] that fails, a string that cannot be encoded) is
    caught and reported; [None] for [filename] is the default of the
    signature. *)
Definition _save_failed_profiles (self : BatchDownloader)
    (filename : option pystr) (d : disk) : disk :=
  let filename := default (lit "failed_profiles.txt") filename in
  if decide (filename ∈ locked d) then d
  else
    {| texts :=
         <[filename :=
             (write_all (failed_pieces (clock d) (failed_profiles self)) []).1]>
           (texts d);
       locked := locked d;
       unreadable := unreadable d;
       clock := clock d |}.

(** *** [download_from_file] *)

(** What the method sends to the logger inside its loop. *)
Inductive note :=
| LogCompleted (username : pystr)
| LogFailed (username error : pystr)
| LogInterrupted
| LogException (username message : pystr).

(** The [for i, username in enumerate(profiles, 1)] loop of
    [download_from_file]. *)
Fixpoint loop_file {W} `{ProfileDownloader W} `{Clock W} (n i : Z)
    (rest : list pystr) (st : loop_state W) (journal : list note)
  : ending * loop_state W * list note :=
  match rest with
  | [] => (LoopDone, st, journal)
  | username :: rest' =>
      let '(result, remote') := download_profile username (remote st) in
      let tr := trace st ++ [Download username] in
      let next this' journal' :=
        let '(slept, remote'', tr') :=
          if i <? n
          then sleep_between (Z.to_nat (delay_between this')) remote' tr
          else (true, remote', tr) in
        let st' := {| this := this'; remote := remote''; trace := tr' |} in
        if slept then loop_file n (i + 1) rest' st' journal'
        else (LoopEscaped, st', journal') in
      match result with
      | Returned true _ =>
          next (count_completed (this st)) (journal ++ [LogCompleted username])
      | Returned false error =>
          let error := default unknown_error error in
          next (count_failed username error (this st))
            (journal ++ [LogFailed username error])
      | RaisedKeyboardInterrupt =>
          (LoopBroke,
           {| this := this st; remote := remote'; trace := tr ++ [CtrlC] |},
           journal ++ [LogInterrupted])
      | RaisedException message =>
          next (count_failed username message (this st))
            (journal ++ [LogException username message])
      end
  end.

(** What [download_from_file] returns: [{'success': False, 'error': str(e)}]
    for the exception [e] of the parser, or the dictionary of the run. *)
Inductive file_outcome :=
| NotLoaded (e : exn)
| Loaded (r : batch_result).

(** [except (FileNotFoundError, ValueError)]: the two Unicode errors are
    subclasses of [ValueError]. *)
Definition caught_on_loading (e : exn) : bool :=
  match e with
  | FileNotFoundError | ValueError _ | UnicodeEncodeError
  | UnicodeDecodeError => true
  | _ => false
  end.

(** [BatchDownloader.download_from_file(file_path, save_failed=...)]. An
    exception of the parser that the [except] does not catch propagates;
    so does the [KeyboardInterrupt] of an interrupted sleep, and then
    neither the summary nor the file of failures is written. *)
Definition download_from_file {W} `{Utils.UrlLib} `{ProfileDownloader W}
    `{Clock W} (self : BatchDownloader) (file_path : pystr)
    (save_failed : bool) (d : disk) (w : W)
  : leaving file_outcome * (loop_state W * list note) * disk :=
  let untouched := ({| this := self; remote := w; trace := [] |}, []) in
  match read_profiles d file_path with
  | Raise e =>
      (if caught_on_loading e then ByReturn (NotLoaded e) else ByException e,
       untouched, d)
  | Ok profiles =>
      let n := Z.of_nat (length profiles) in
      let '(how, st, journal) :=
        loop_file n 1 profiles
          {| this := set_total n self; remote := w; trace := [] |} [] in
      match how with
      | LoopEscaped => (ByKeyboardInterrupt, (st, journal), d)
      | _ =>
          let d :=
            if save_failed
               && match failed_profiles (this st) with
                  | [] => false
                  | _ => true
                  end
            then _save_failed_profiles (this st) None d
            else d in
          (ByReturn (Loaded {| res_success := true;
                               res_stats := batch_stats (this st);
                               res_failed := failed_profiles (this st) |}),
           (st, journal), d)
      end
  end.

(** *** Vocabulary of the properties *)

(** What the loop is expected to do on a list of user names: one download per
    name, in order, and [d] one-second sleeps between two names, none after
    the last. *)
Fixpoint expected_trace (d : Z) (usernames : list pystr) : list event :=
  match usernames with
  | [] => []
  | u :: rest =>
      match rest with
      | [] => [Download u]
      | _ :: _ => Download u :: repeat Sleep1 (Z.to_nat d) ++ expected_trace d rest
      end
  end.

(** A string without line break, as a text file sees them. *)
Definition one_line (s : pystr) : bool :=
  forallb (fun c => negb (c =? 10)%N && negb (c =? 13)%N) s.

(** A failed profile that the file of failures gives back on reading: the
    user name is in the normal form of [validate_username] and does not look
    like a URL with scheme, and the error message is one line of text that
    can be written. *)
Definition retryable (entry : pystr * pystr) : Prop :=
  Utils.validate_username entry.1 = Ok entry.1 /\
  Utils.startswith (lit "http") entry.1 = false /\
  one_line entry.2 = true /\ Auth.encodable entry.2 = true.

(** A line of text with its line end. *)
Definition with_newline (l : pystr) : pystr := l ++ [10%N].

(** The lines written for the failures, without their line ends. *)
Definition failed_lines (now : pystr) (failed : list (pystr * pystr))
  : list pystr :=
  [ lit "# Nieudane profile - Instagram Content Downloader";
    lit "# Wygenerowano: " ++ now; [] ] ++
  flat_map (fun '(username, error) =>
              [ lit "# B" ++ [322; 261]%N ++ lit "d: " ++ error;
                username; [] ]) failed.

(** What the parser makes of a line: the name it keeps, if any, and no
    warning. *)
Definition line_gives `{Utils.UrlLib} (l : pystr) (name : option pystr)
  : Prop :=
  Utils.kept_name (with_newline l) = name /\
  forall k, Utils.logged_line (k, with_newline l) = None.


(** No [KeyboardInterrupt] occurs in a run: none is among the events of
    its trace. *)
Definition uninterrupted (tr : list event) : bool :=
  forallb (fun ev => match ev with CtrlC => false | _ => true end) tr.


Definition interrupted : ProfileDownloader unit :=
  {| download_profile := fun _ w => (RaisedKeyboardInterrupt, w) |}.


(** A world that counts the seconds slept, with a user who presses Ctrl-C
    during the third second; the downloads always succeed. *)
Definition third_second : Clock nat :=
  {| time_sleep := fun k =>
       (if (k =? 2)%nat then NapInterrupted else Slept, S k) |}.

Definition patient_ok : ProfileDownloader nat :=
  {| download_profile := fun _ k => (Returned true None, k) |}.

(** A batch downloader after one failure, and a disk without files. *)
Definition failed_once : BatchDownloader :=
  {| delay_between := 0;
     failed_profiles := [(lit "user_a", lit "Profil nie istnieje")];
     batch_stats := {| total := 1; completed := 0; failed := 1; skipped := 0 |} |}.

Definition failed_in_two_lines : BatchDownloader :=
  {| delay_between := 0;
     failed_profiles := [(lit "user_a", lit "timeout" ++ [10%N] ++ lit "retry_later")];
     batch_stats := {| total := 1; completed := 0; failed := 1; skipped := 0 |} |}.

Definition empty_disk : disk :=
  {| texts := ∅; locked := ∅; unreadable := ∅;
     clock := lit "2025-01-01 12:00:00" |}.


Definition quiet_clock : Clock nat :=
  {| time_sleep := fun k => (Slept, k) |}.

(** A downloader that finds no profile, and a disk with a list of two
    profiles. *)
Definition never_found : ProfileDownloader nat :=
  {| download_profile := fun _ k =>
       (Returned false (Some (lit "Profil nie istnieje")), k) |}.

Definition two_profiles : disk :=
  {| texts := {[ lit "profiles.txt" := lit "user_a" ++ [10%N] ++ lit "user_b"
                                        ++ [10%N] ]};
     locked := ∅; unreadable := ∅;
     clock := lit "2025-01-01 12:00:00" |}.

End Batch.

(** ** [src/downloader.py]: [InstagramDownloader._download_posts] *)

Module Posts.
Import PyFloat Downloader.

(** What [self.loader.download_post(post, target=...)] does, as the
    [except] clauses of the loop tell it apart, in their order: it returns,
    or raises [KeyboardInterrupt], [QueryReturnedNotFoundException],
    another [ConnectionException] (to which [TooManyRequestsException]
    belongs) with its text, or any other [Exception]. *)
Inductive post_outcome :=
| PostSaved
| PostInterrupted
| PostNotFound
| PostConnection (message : pystr)
| PostOther (message : pystr).

(** What a call of [self.rate_limiter.wait] does: it sleeps and returns,
    raises an [Exception] ([time.sleep] and [int] refuse some delays), or is
    interrupted from the keyboard. *)
Inductive wait_outcome :=
| WaitReturned
| WaitRaised
| WaitInterrupted.

(** The library and the clock, with the state [W] of the remote service:
    [download_post] for a post of type [P], and the sleeping inside [wait]
    for the delay asked. *)
Class PostLoader (P W : Type) := {
  download_post : P -> W -> post_outcome * W;
  sleep : float -> W -> wait_outcome * W
}.

(** What an observer of the loop sees. *)
Inductive post_event (P : Type) :=
| Attempt (post : P) (outcome : post_outcome)
| Wait (delay : float) (outcome : wait_outcome).
Arguments Attempt {P}.
Arguments Wait {P}.

(** The local variables [count] and [error_count], the rate limiter of the
    downloader, the remote service and the events so far. *)
Record posts_state (P W : Type) := {
  count : Z;
  errors : Z;
  limiter : RateLimiter;
  remote : W;
  trace : list (post_event P)
}.
Arguments count {P W}.
Arguments errors {P W}.
Arguments limiter {P W}.
Arguments remote {P W}.
Arguments trace {P W}.

(** How the method ends: the [for] loop runs out of posts, a [break] leaves
    it, the outer [except Exception] catches an exception, or
    [KeyboardInterrupt] leaves the method. In the first three cases the
    method returns [count]. *)
Inductive ending :=
| Exhausted
| Broke
| Caught
| Interrupted.

Definition max_errors : Z := 5.

(** ["403" in error_msg or "Forbidden" in error_msg] *)
Definition forbidden (error_msg : pystr) : bool :=
  Utils.contains (lit "403") error_msg
  || Utils.contains (lit "Forbidden") error_msg.

(** [self.rate_limiter.wait(...)] at a point of the loop. *)
Definition rate_limiter_wait {P W} `{PostLoader P W} (st : posts_state P W)
  : wait_outcome * posts_state P W :=
  let delay := wait_delay (limiter st) in
  let '(outcome, remote') := sleep delay (remote st) in
  (outcome,
   {| count := count st; errors := errors st; limiter := limiter st;
      remote := remote'; trace := trace st ++ [Wait delay outcome] |}).

Definition with_limiter {P W} (rl : RateLimiter) (st : posts_state P W)
  : posts_state P W :=
  {| count := count st; errors := errors st; limiter := rl;
     remote := remote st; trace := trace st |}.

Definition with_errors {P W} (n : Z) (st : posts_state P W)
  : posts_state P W :=
  {| count := count st; errors := n; limiter := limiter st;
     remote := remote st; trace := trace st |}.

(** What the body of the loop ends in: the next post ([continue], or the
    end of the body), or the loop is left. *)
Inductive control :=
| Next
| Leave (how : ending).

(** The body of [for post in posts]. *)
Definition loop_body {P W} `{PostLoader P W} (post : P) (st : posts_state P W)
  : control * posts_state P W :=
  let '(outcome, remote') := download_post post (remote st) in
  let st :=
    {| count := count st; errors := errors st; limiter := limiter st;
       remote := remote';
       trace := trace st ++ [Attempt post outcome] |} in
  match outcome with
  | PostSaved =>
      (* [count += 1], [on_success()], [wait("Rate limit")], [error_count = 0] *)
      let st :=
        {| count := count st + 1; errors := errors st;
           limiter := on_success (limiter st);
           remote := remote st; trace := trace st |} in
      let '(waited, st) := rate_limiter_wait st in
      match waited with
      | WaitReturned => (Next, with_errors 0 st)
      | WaitInterrupted => (Leave Interrupted, st)
      | WaitRaised =>
          (* [except Exception] of the body *)
          (Next, with_limiter (on_error false (limiter st)) st)
      end
  | PostInterrupted => (Leave Interrupted, st)
  | PostNotFound => (Next, st)
  | PostConnection error_msg =>
      (* [error_count += 1], [on_error(is_rate_limit=True)] *)
      let st :=
        {| count := count st; errors := errors st + 1;
           limiter := on_error true (limiter st);
           remote := remote st; trace := trace st |} in
      if forbidden error_msg then (Leave Broke, st)
      else
        let '(waited, st) := rate_limiter_wait st in
        match waited with
        | WaitReturned =>
            if max_errors <=? errors st then (Leave Broke, st) else (Next, st)
        | WaitInterrupted => (Leave Interrupted, st)
        | WaitRaised => (Leave Caught, st)  (* raised inside a handler *)
        end
  | PostOther _ =>
      (Next, with_limiter (on_error false (limiter st)) st)
  end.

(** The [for post in posts] loop. *)
Fixpoint posts_loop {P W} `{PostLoader P W} (posts : list P)
    (st : posts_state P W) : ending * posts_state P W :=
  match posts with
  | [] => (Exhausted, st)
  | post :: rest =>
      match loop_body post st with
      | (Next, st) => posts_loop rest st
      | (Leave how, st) => (how, st)
      end
  end.

(** [_download_posts(profile, username)]: [posts] is what
    [list(profile.get_posts())] gives, [None] when it raises an
    [Exception]. *)
Definition _download_posts {P W} `{PostLoader P W} (rate_limiter : RateLimiter)
    (posts : option (list P)) (w : W) : ending * posts_state P W :=
  let st := {| count := 0; errors := 0; limiter := rate_limiter;
               remote := w; trace := [] |} in
  match posts with
  | None => (Caught, st)
  | Some posts => posts_loop posts st
  end.

(** *** [_download_tagged] and [_download_igtv] *)

(** The body of [for post in tagged_posts]: every [Exception], also one of
    [wait], ends in [on_error()] and [continue]. *)
Definition plain_body {P W} `{PostLoader P W} (post : P) (st : posts_state P W)
  : control * posts_state P W :=
  let '(outcome, remote') := download_post post (remote st) in
  let st :=
    {| count := count st; errors := errors st; limiter := limiter st;
       remote := remote';
       trace := trace st ++ [Attempt post outcome] |} in
  match outcome with
  | PostSaved =>
      let st :=
        {| count := count st + 1; errors := errors st;
           limiter := on_success (limiter st);
           remote := remote st; trace := trace st |} in
      let '(waited, st) := rate_limiter_wait st in
      match waited with
      | WaitReturned => (Next, st)
      | WaitInterrupted => (Leave Interrupted, st)
      | WaitRaised => (Next, with_limiter (on_error false (limiter st)) st)
      end
  | PostInterrupted => (Leave Interrupted, st)
  | PostNotFound | PostConnection _ | PostOther _ =>
      (Next, with_limiter (on_error false (limiter st)) st)
  end.

Fixpoint plain_loop {P W} `{PostLoader P W} (posts : list P)
    (st : posts_state P W) : ending * posts_state P W :=
  match posts with
  | [] => (Exhausted, st)
  | post :: rest =>
      match plain_body post st with
      | (Next, st) => plain_loop rest st
      | (Leave how, st) => (how, st)
      end
  end.

(** [_download_tagged(profile, username)]: [posts] is what
    [list(profile.get_tagged_posts())] gives, [None] when it raises an
    [Exception]. *)
Definition _download_tagged {P W} `{PostLoader P W} (rate_limiter : RateLimiter)
    (posts : option (list P)) (w : W) : ending * posts_state P W :=
  let st := {| count := 0; errors := 0; limiter := rate_limiter;
               remote := w; trace := [] |} in
  match posts with
  | None => (Caught, st)
  | Some posts => plain_loop posts st
  end.

(** [_download_igtv(profile, username)] is the same code on
    [list(profile.get_igtv_posts())], with other messages and another target
    directory. *)
Definition _download_igtv {P W} `{PostLoader P W} (rate_limiter : RateLimiter)
    (posts : option (list P)) (w : W) : ending * posts_state P W :=
  let st := {| count := 0; errors := 0; limiter := rate_limiter;
               remote := w; trace := [] |} in
  match posts with
  | None => (Caught, st)
  | Some posts => plain_loop posts st
  end.

(** *** Vocabulary of the properties *)

(** The posts tried, with what came of each, in the order of the calls. *)
Definition attempts {P} (tr : list (post_event P)) : list (P * post_outcome) :=
  omap (fun ev => match ev with
                  | Attempt post outcome => Some (post, outcome)
                  | Wait _ _ => None
                  end) tr.

(** The delays asked of [wait], in the order of the calls. *)
Definition waits {P} (tr : list (post_event P)) : list float :=
  omap (fun ev => match ev with
                  | Attempt _ _ => None
                  | Wait delay _ => Some delay
                  end) tr.

(** The number of posts saved. *)
Fixpoint saved (outcomes : list post_outcome) : Z :=
  match outcomes with
  | [] => 0
  | PostSaved :: rest => 1 + saved rest
  | _ :: rest => saved rest
  end.

(** The number of connection errors since the last saved post, after one
    more attempt. *)
Definition streak_after (k : Z) (outcome : post_outcome) : Z :=
  match outcome with
  | PostSaved => 0
  | PostConnection _ => k + 1
  | _ => k
  end.

(** After each attempt, the number of connection errors since the last
    saved post, starting from [k]. *)
Fixpoint streaks (k : Z) (outcomes : list post_outcome) : list Z :=
  match outcomes with
  | [] => []
  | outcome :: rest =>
      streak_after k outcome :: streaks (streak_after k outcome) rest
  end.

(** A delay within the bounds of a rate limiter. *)
Definition within (self : RateLimiter) (delay : float) : Prop :=
  (min_delay self <=? delay)%float = true /\
  (delay <=? max_delay self)%float = true.

(** The outcomes after which the loop tries no further post, whatever the
    rate limiter holds: an interrupt, and a connection error that mentions
    403 or Forbidden. *)
Definition stops_at_once (outcome : post_outcome) : bool :=
  match outcome with
  | PostInterrupted => true
  | PostConnection error_msg => forbidden error_msg
  | _ => false
  end.

(** *** Stand-ins, to run the definitions *)

(** A service that answers each post with the outcome the post names, and a
    clock that always lets [wait] return. *)
Definition scripted : PostLoader post_outcome unit :=
  {| download_post := fun post w => (post, w);
     sleep := fun _ w => (WaitReturned, w) |}.

End Posts.

(** ** [src/downloader.py]: [InstagramDownloader.download_profile] *)

Module Profiles.

(** An exception of the library or of a helper method, as the handlers of
    [download_profile] tell them apart, with its text [str(e)]. The three
    instaloader classes named here are disjoint. *)
Inductive raised :=
| ProfileNotExistsException (text : pystr)
| ConnectionException (text : pystr)
| LoginRequiredException (text : pystr)
| KeyboardInterrupt
| OtherException (text : pystr).

Definition str_of (e : raised) : pystr :=
  match e with
  | ProfileNotExistsException text | ConnectionException text
  | LoginRequiredException text | OtherException text => text
  | KeyboardInterrupt => []
  end.

(** The five kinds of content, in the order of the method. *)
Inductive content := Posts | Stories | Highlights | Tagged | Igtv.

(** What the method calls, with the state [W] of the loader, of the remote
    service and of the disk: [instaloader.Profile.from_username], and the
    helpers [_display_profile_info], [ensure_directory] and [_download_posts]
    to [_download_igtv]. Each returns or raises. *)
Class Instagram (Pr W : Type) := {
  from_username : pystr -> W -> (Pr + raised) * W;
  _display_profile_info : Pr -> W -> option raised * W;
  ensure_directory : pystr -> W -> option raised * W;
  _download : content -> Pr -> pystr -> W -> (Z + raised) * W
}.

(** What the method reads of the downloader: the download directory and the
    switches of the configuration (taken to hold booleans). *)
Record InstagramDownloader := {
  download_dir : pystr;
  config : gmap pystr bool
}.

(** The dictionary [stats]; [interrupted] is set when the key is there. *)
Record stats := {
  stats_username : pystr;
  success : bool;
  posts : Z;
  stories : Z;
  highlights : Z;
  tagged : Z;
  igtv : Z;
  errors : list pystr;
  interrupted : bool
}.

(** What the method returns: [{'success': False, 'error': str(e)}] for the
    [ValueError] of the user name, or [stats]. *)
Inductive answer :=
| Invalid (why : value_error)
| Report (s : stats).

(** [stats['errors'].append(error_msg)] *)
Definition add_error (error_msg : pystr) (s : stats) : stats :=
  {| stats_username := stats_username s; success := success s;
     posts := posts s; stories := stories s; highlights := highlights s;
     tagged := tagged s; igtv := igtv s;
     errors := errors s ++ [error_msg]; interrupted := interrupted s |}.

(** [stats['downloaded'][...] = count] *)
Definition set_downloaded (c : content) (n : Z) (s : stats) : stats :=
  {| stats_username := stats_username s; success := success s;
     posts := match c with Posts => n | _ => posts s end;
     stories := match c with Stories => n | _ => stories s end;
     highlights := match c with Highlights => n | _ => highlights s end;
     tagged := match c with Tagged => n | _ => tagged s end;
     igtv := match c with Igtv => n | _ => igtv s end;
     errors := errors s; interrupted := interrupted s |}.

(** [stats['success'] = True] *)
Definition set_success (s : stats) : stats :=
  {| stats_username := stats_username s; success := true;
     posts := posts s; stories := stories s; highlights := highlights s;
     tagged := tagged s; igtv := igtv s;
     errors := errors s; interrupted := interrupted s |}.

(** [stats['interrupted'] = True] *)
Definition set_interrupted (s : stats) : stats :=
  {| stats_username := stats_username s; success := success s;
     posts := posts s; stories := stories s; highlights := highlights s;
     tagged := tagged s; igtv := igtv s;
     errors := errors s; interrupted := true |}.

(** The key of a kind of content in the options and in the configuration,
    the default of its switch, and its name in the error messages. *)
Definition key_of (c : content) : pystr :=
  match c with
  | Posts => lit "download_posts"
  | Stories => lit "download_stories"
  | Highlights => lit "download_highlights"
  | Tagged => lit "download_tagged"
  | Igtv => lit "download_igtv"
  end.

Definition default_of (c : content) : bool :=
  match c with Posts => true | _ => false end.

Definition label_of (c : content) : pystr :=
  match c with
  | Posts => lit "Posty"
  | Stories => lit "Stories"
  | Highlights => lit "Highlights"
  | Tagged => lit "Tagged"
  | Igtv => lit "IGTV"
  end.

(** [options.get(key, self.config.get(key, default))] *)
Definition wanted (self : InstagramDownloader) (options : gmap pystr bool)
    (c : content) : bool :=
  default (default (default_of c) (config self !! key_of c))
    (options !! key_of c).

(** How the body of the outer [try] is left before its end: by a [return],
    or by an exception for the outer handlers. *)
Inductive leave :=
| Returns
| Raises (e : raised).

(** A statement of the body: it reads and changes [stats] and the world, and
    goes on with a value or leaves the body. *)
Definition step (W A : Type) : Type := stats -> W -> (A + leave) * stats * W.

#[export] Instance step_ret {W} : MRet (step W) :=
  fun A a s w => (inl a, s, w).
#[export] Instance step_bind {W} : MBind (step W) := fun A B k m s w =>
  match m s w with
  | (inl a, s, w) => k a s w
  | (inr l, s, w) => (inr l, s, w)
  end.

(** [Profile.from_username(...)] under its two handlers, which report the
    error and [return stats]. *)
Definition fetch_profile {Pr W} `{Instagram Pr W} (username : pystr)
  : step W Pr :=
  fun s w =>
    match from_username username w with
    | (inl profile, w) => (inl profile, s, w)
    | (inr (ProfileNotExistsException _), w) =>
        (inr Returns,
         add_error (lit "Profil '" ++ username ++ lit "' nie istnieje!") s, w)
    | (inr (ConnectionException text), w) =>
        (inr Returns,
         add_error (lit "B" ++ [322; 261]%N ++ lit "d po" ++ [322; 261]%N
                    ++ lit "czenia: " ++ text) s, w)
    | (inr e, w) => (inr (Raises e), s, w)
    end.

(** A call outside the inner handlers. *)
Definition call {W} (f : W -> option raised * W) : step W unit :=
  fun s w =>
    match f w with
    | (None, w) => (inl tt, s, w)
    | (Some e, w) => (inr (Raises e), s, w)
    end.

(** One of the five blocks: [if options.get(...): try: count = ...;
    stats['downloaded'][...] = count; except KeyboardInterrupt: raise;
    except Exception as e: stats['errors'].append(f"<label>: {e}")]. *)
Definition content_step {Pr W} `{Instagram Pr W} (self : InstagramDownloader)
    (options : gmap pystr bool) (c : content) (profile : Pr)
    (username : pystr) : step W unit :=
  fun s w =>
    if wanted self options c then
      match _download c profile username w with
      | (inl count, w) => (inl tt, set_downloaded c count s, w)
      | (inr KeyboardInterrupt, w) => (inr (Raises KeyboardInterrupt), s, w)
      | (inr e, w) =>
          (inl tt, add_error (label_of c ++ lit ": " ++ str_of e) s, w)
      end
    else (inl tt, s, w).

(** [stats['success'] = True], the last statement of the body that counts. *)
Definition mark_success {W} : step W unit :=
  fun s w => (inl tt, set_success s, w).

(** The body of the outer [try]. *)
Definition try_body {Pr W} `{Instagram Pr W} (self : InstagramDownloader)
    (options : gmap pystr bool) (username : pystr) : step W unit :=
  profile ← fetch_profile username;
  _ ← call (_display_profile_info profile);
  _ ← call (ensure_directory (Auth.path_join (download_dir self) username));
  _ ← content_step self options Posts profile username;
  _ ← content_step self options Stories profile username;
  _ ← content_step self options Highlights profile username;
  _ ← content_step self options Tagged profile username;
  _ ← content_step self options Igtv profile username;
  mark_success.

(** ["Wymagane logowanie! Użyj opcji logowania."] *)
Definition login_required : pystr :=
  lit "Wymagane logowanie! U" ++ [380%N] ++ lit "yj opcji logowania.".

(** [f"Nieoczekiwany błąd: {e}"] *)
Definition unexpected (e : raised) : pystr :=
  lit "Nieoczekiwany b" ++ [322; 261]%N ++ lit "d: " ++ str_of e.

(** [InstagramDownloader.download_profile(profile_url, download_options)].
    An exception of [extract_username_from_url] other than [ValueError]
    would propagate. *)
Definition download_profile {Pr W} `{Utils.UrlLib} `{Instagram Pr W}
    (self : InstagramDownloader) (profile_url : pystr)
    (download_options : option (gmap pystr bool)) (w : W)
  : result answer * W :=
  match Utils.extract_username_from_url profile_url with
  | Raise (ValueError why) => (Ok (Invalid why), w)
  | Raise e => (Raise e, w)
  | Ok username =>
      let options := default ∅ download_options in
      let stats :=
        {| stats_username := username; success := false;
           posts := 0; stories := 0; highlights := 0; tagged := 0; igtv := 0;
           errors := []; interrupted := false |} in
      match try_body self options username stats w with
      | (inl _, s, w) | (inr Returns, s, w) => (Ok (Report s), w)
      | (inr (Raises (LoginRequiredException _)), s, w) =>
          (Ok (Report (add_error login_required s)), w)
      | (inr (Raises KeyboardInterrupt), s, w) =>
          (Ok (Report (set_interrupted s)), w)
      | (inr (Raises e), s, w) =>
          (Ok (Report (add_error (unexpected e) s)), w)
      end
  end.

(** *** [download_profile] as the batch downloader calls it *)

(** [str(e)] for an exception of [utils.py]; the texts stay a parameter. *)
Class ErrorText := { str_of_exn : exn -> pystr }.



(** *** Stand-ins, to run the definitions *)

(** A service on which every profile exists and every download is blocked. *)
Definition blocked : Instagram unit unit :=
  {| from_username := fun _ w => (inl tt, w);
     _display_profile_info := fun _ w => (None, w);
     ensure_directory := fun _ w => (None, w);
     _download := fun _ _ _ w =>
       (inr (ConnectionException (lit "403 Forbidden")), w) |}.

Definition plain_downloader : InstagramDownloader :=
  {| download_dir := lit "data/downloads"; config := ∅ |}.

Definition plain_text : ErrorText := {| str_of_exn := fun _ => lit "invalid" |}.

End Profiles.

(** ** [src/config.py] *)

Module Config.
Import PyFloat.

(** The values a configuration holds: what [json.load] returns and what the
    helpers of [_load_from_env] build. *)
Inductive pyvalue :=
| VNone
| VBool (b : bool)
| VInt (n : Z)
| VFloat (x : float)
| VStr (s : pystr)
| VList (items : list pyvalue)
| VObject (members : list (pystr * pyvalue)).

(** Built-ins of Python that stay parameters: [str.lower], and [int] and
    [float] applied to a string ([None] for their [ValueError]). *)
Class PyBuiltins := {
  str_lower : pystr -> pystr;
  int_of_str : pystr -> option Z;
  float_of_str : pystr -> option float
}.

(** What the file at [config_path] holds, when it exists: something
    [json.load] raises on, or a JSON object (the shape the module writes and
    documents; other JSON values are not modelled). *)
Inductive config_file :=
| Unreadable
| Object (members : gmap pystr pyvalue).

(** *** [_default_config] *)

Definition default_items : list (pystr * pyvalue) :=
  [ (lit "download_videos", VBool true);
    (lit "download_thumbnails", VBool true);
    (lit "download_geotags", VBool false);
    (lit "download_comments", VBool false);
    (lit "save_metadata", VBool true);
    (lit "compress_json", VBool false);
    (lit "max_attempts", VInt 3);
    (lit "request_timeout", VFloat 300.0%float);
    (lit "sleep_time", VInt 5);
    (lit "download_posts", VBool true);
    (lit "download_stories", VBool false);
    (lit "download_highlights", VBool false);
    (lit "download_tagged", VBool false);
    (lit "download_igtv", VBool false);
    (lit "download_dir", VStr (lit "data/downloads"));
    (lit "session_dir", VStr (lit "data/sessions"));
    (lit "min_sleep_time", VInt 2);
    (lit "max_sleep_time", VInt 10);
    (lit "rate_limit_backoff_multiplier", VFloat 1.5%float) ].

Definition _default_config : gmap pystr pyvalue := list_to_map default_items.

(** *** [_load_from_env] *)

(** [get_bool(key)]: a variable that is set gives [True] for four words and
    [False] for every other text. *)
Definition get_bool `{PyBuiltins} (env : Auth.environ) (key : string)
  : option bool :=
  match Auth.getenv env key with
  | None => None
  | Some value =>
      Some (bool_decide
              (str_lower value ∈ [lit "true"; lit "1"; lit "yes"; lit "tak"]))
  end.

(** [get_int(key)] and [get_float(key)]: [None] when the variable is not
    set or cannot be converted. *)
Definition get_int `{PyBuiltins} (env : Auth.environ) (key : string)
  : option Z :=
  match Auth.getenv env key with
  | None => None
  | Some value => int_of_str value
  end.

Definition get_float `{PyBuiltins} (env : Auth.environ) (key : string)
  : option float :=
  match Auth.getenv env key with
  | None => None
  | Some value => float_of_str value
  end.

(** The four ways in which the method reads a variable. *)
Inductive kind := Bool | Int | Float | Str.

(** The statements of the method, in their order: the variable read, the
    key set, and how the variable is read. *)
Definition env_table : list (string * pystr * kind) :=
  [ ("DOWNLOAD_VIDEOS", lit "download_videos", Bool);
    ("DOWNLOAD_THUMBNAILS", lit "download_thumbnails", Bool);
    ("DOWNLOAD_GEOTAGS", lit "download_geotags", Bool);
    ("DOWNLOAD_COMMENTS", lit "download_comments", Bool);
    ("SAVE_METADATA", lit "save_metadata", Bool);
    ("COMPRESS_JSON", lit "compress_json", Bool);
    ("MAX_ATTEMPTS", lit "max_attempts", Int);
    ("REQUEST_TIMEOUT", lit "request_timeout", Float);
    ("SLEEP_TIME", lit "sleep_time", Int);
    ("DOWNLOAD_POSTS", lit "download_posts", Bool);
    ("DOWNLOAD_STORIES", lit "download_stories", Bool);
    ("DOWNLOAD_HIGHLIGHTS", lit "download_highlights", Bool);
    ("DOWNLOAD_TAGGED", lit "download_tagged", Bool);
    ("DOWNLOAD_IGTV", lit "download_igtv", Bool);
    ("DOWNLOAD_DIR", lit "download_dir", Str);
    ("SESSION_DIR", lit "session_dir", Str);
    ("MIN_SLEEP_TIME", lit "min_sleep_time", Int);
    ("MAX_SLEEP_TIME", lit "max_sleep_time", Int);
    ("RATE_LIMIT_BACKOFF_MULTIPLIER", lit "rate_limit_backoff_multiplier",
     Float) ]%string.

(** The value one statement sets, if it sets one: [if get_bool(...) is not
    None], [if get_int(...) is not None], [if get_float(...) is not None],
    [if os.getenv(...)]. *)
Definition env_value `{PyBuiltins} (env : Auth.environ) (name : string)
    (k : kind) : option pyvalue :=
  match k with
  | Bool => VBool <$> get_bool env name
  | Int => VInt <$> get_int env name
  | Float => VFloat <$> get_float env name
  | Str =>
      match Auth.getenv env name with
      | Some (c :: value) => Some (VStr (c :: value))
      | _ => None
      end
  end.

(** One statement: [if ... : env_config[key] = ...]. *)
Definition env_step `{PyBuiltins} (env : Auth.environ)
    (env_config : gmap pystr pyvalue) (row : string * pystr * kind)
  : gmap pystr pyvalue :=
  let '(name, key, k) := row in
  match env_value env name k with
  | Some value => <[key := value]> env_config
  | None => env_config
  end.

Definition _load_from_env `{PyBuiltins} (env : Auth.environ)
  : gmap pystr pyvalue :=
  fold_left (env_step env) env_table ∅.

(** *** [_load_from_file] and [_load_config] *)

(** The files by path; a path that does not exist is not in the map. *)
Definition config_files := gmap pystr config_file.

Definition _load_from_file (fs : config_files) (config_path : pystr)
  : gmap pystr pyvalue :=
  match fs !! config_path with
  | None => ∅
  | Some Unreadable => ∅
  | Some (Object members) => members
  end.

(** [config = defaults; config.update(file_config); config.update(env_config)] *)
Definition _load_config `{PyBuiltins} (fs : config_files)
    (config_path : pystr) (env : Auth.environ) : gmap pystr pyvalue :=
  let config := _default_config in
  let file_config := _load_from_file fs config_path in
  let config := file_config ∪ config in
  let env_config := _load_from_env env in
  env_config ∪ config.

(** *** [ConfigManager] *)

Record ConfigManager := {
  config_path : pystr;
  config : gmap pystr pyvalue
}.

(** [ConfigManager(config_path)]: [None] and the empty string stand for the
    default path. *)
Definition init `{PyBuiltins} (path : option pystr) (fs : config_files)
    (env : Auth.environ) : ConfigManager :=
  let config_path :=
    match path with
    | Some (c :: p) => c :: p
    | _ => lit "config/config.json"
    end in
  {| config_path := config_path;
     config := _load_config fs config_path env |}.

(** [get(key, default)], with [VNone] for the default of the signature. *)
Definition get (self : ConfigManager) (key : pystr) (fallback : option pyvalue)
  : pyvalue :=
  default (default VNone fallback) (config self !! key).

(** [set(key, value)] *)
Definition set (key : pystr) (value : pyvalue) (self : ConfigManager)
  : ConfigManager :=
  {| config_path := config_path self;
     config := <[key := value]> (config self) |}.

(** [get_instagram_credentials()] *)
Definition get_instagram_credentials (env : Auth.environ)
  : option pystr * option pystr :=
  (Auth.getenv env "INSTAGRAM_USERNAME", Auth.getenv env "INSTAGRAM_PASSWORD").

(** [load_config(config_path)] *)
Definition load_config `{PyBuiltins} (path : option pystr) (fs : config_files)
    (env : Auth.environ) : gmap pystr pyvalue :=
  config (init path fs env).

(** *** Vocabulary of the properties *)

(** What file and defaults give for a key, the file first. *)
Definition below_env (fs : config_files) (config_path key : pystr)
  : option pyvalue :=
  match _load_from_file fs config_path !! key with
  | Some value => Some value
  | None => _default_config !! key
  end.

(** *** Stand-ins, to run the definitions *)

(** [str.lower] on ASCII, [int] on plain decimal digits, and a [float] that
    accepts nothing. *)
Definition digits_value (s : pystr) : option Z :=
  match s with
  | [] => None
  | _ :: _ =>
      fold_left (fun acc c =>
                   match acc with
                   | Some n =>
                       if ((48 <=? c) && (c <=? 57))%N
                       then Some (10 * n + Z.of_N (c - 48))
                       else None
                   | None => None
                   end) s (Some 0)
  end.

Definition plain_builtins : PyBuiltins :=
  {| str_lower := Utils.lower;
     int_of_str := digits_value;
     float_of_str := fun _ => None |}.

End Config.

(** * Properties *)

(** ** Binary64 arithmetic

    Facts about the IEEE operations behind Python's [float], proved on the
    specification [SpecFloat] of the primitive floats: the order is a total
    preorder away from NaN, and multiplying a non-negative float by a
    constant below (above) one does not increase (decrease) it, rounding
    included. *)

Module Binary64.
Import PyFloat.

Lemma iter_pos_nat {A} (f : A -> A) (p : positive) (x : A) :
  SpecFloat.iter_pos f p x = Nat.iter (Pos.to_nat p) f x.
Proof.
  revert x. induction p as [p IH | p IH |]; intros x.
  - rewrite Pos2Nat.inj_xI. cbn [SpecFloat.iter_pos]. rewrite !IH.
    rewrite <- Nat.iter_succ_r, <- Nat.iter_add. f_equal. lia.
  - rewrite Pos2Nat.inj_xO. cbn [SpecFloat.iter_pos]. rewrite !IH.
    rewrite <- Nat.iter_add. f_equal. lia.
  - reflexivity.
Qed.

Lemma shr_1_m mrs : 0 <= shr_m mrs -> shr_m (shr_1 mrs) = shr_m mrs / 2.
Proof.
  destruct mrs as [m r s]. cbn [shr_m]. intros Hm.
  rewrite <- Z.div2_div.
  destruct m as [| [p | p |] | p]; try reflexivity. lia.
Qed.

Lemma shr_1_r mrs : 0 <= shr_m mrs -> shr_r (shr_1 mrs) = Z.odd (shr_m mrs).
Proof.
  destruct mrs as [m r s]. simpl. intros Hm.
  destruct m as [| [p | p |] | p]; simpl; try lia; reflexivity.
Qed.

Lemma shr_1_s mrs : shr_s (shr_1 mrs) = shr_r mrs || shr_s mrs.
Proof.
  destruct mrs as [m r s]. simpl.
  destruct m as [| [p | p |] | [p | p |]]; reflexivity.
Qed.


(** The record after [k] one-bit shifts of a non-negative mantissa. *)
Lemma shr_iter m k :
  0 <= m ->
  let mrs := Nat.iter k shr_1 (Build_shr_record m false false) in
  shr_m mrs = m / 2 ^ Z.of_nat k /\
  (m mod 2 ^ Z.of_nat k = 0 -> shr_r mrs = false /\ shr_s mrs = false).
Proof.
  intros Hm. induction k as [|k IH].
  - simpl. rewrite Z.div_1_r. auto.
  - cbn zeta in *. rewrite Nat2Z.inj_succ, Z.pow_succ_r by lia.
    rewrite Nat.iter_succ. destruct IH as [IHm IHrs].
    set (mrs := Nat.iter k shr_1 _) in *.
    assert (Hpow : 0 < 2 ^ Z.of_nat k) by (apply Z.pow_pos_nonneg; lia).
    assert (0 <= shr_m mrs) by (rewrite IHm; apply Z.div_pos; lia).
    split.
    + rewrite shr_1_m, IHm by assumption.
      rewrite Z.div_div by lia. f_equal. lia.
    + intros Hmod. rewrite shr_1_r, shr_1_s by assumption.
      rewrite (Z.mul_comm 2), Z.rem_mul_r in Hmod by lia.
      pose proof (Z.mod_pos_bound m (2 ^ Z.of_nat k) Hpow).
      pose proof (Z.mod_pos_bound (m / 2 ^ Z.of_nat k) 2 ltac:(lia)).
      assert (Hlo : m mod 2 ^ Z.of_nat k = 0) by nia.
      assert (Hhi : (m / 2 ^ Z.of_nat k) mod 2 = 0) by nia.
      destruct (IHrs Hlo) as [-> ->]. rewrite IHm.
      rewrite Zmod_odd in Hhi. destruct (Z.odd _); [lia | auto].
Qed.

Lemma shr_spec m e n :
  0 <= m -> 0 < n ->
  exists mrs,
    shr (Build_shr_record m false false) e n = (mrs, e + n) /\
    shr_m mrs = m / 2 ^ n /\
    (m mod 2 ^ n = 0 -> loc_of_shr_record mrs = loc_Exact).
Proof.
  intros Hm Hn. destruct n as [| p | p]; try lia.
  unfold shr. rewrite iter_pos_nat.
  destruct (shr_iter m (Pos.to_nat p) Hm) as [H1 H2].
  rewrite positive_nat_Z in H1, H2.
  eexists. split; [reflexivity |]. split; [exact H1 |].
  intros H0. destruct (H2 H0) as [Hr Hs].
  destruct (Nat.iter _ _ _) as [m' r s]. simpl in *. subst. reflexivity.
Qed.

Lemma rne_bounds mrs :
  let M := round_nearest_even (shr_m mrs) (loc_of_shr_record mrs) in
  shr_m mrs <= M <= shr_m mrs + 1 /\
  (loc_of_shr_record mrs = loc_Exact -> M = shr_m mrs).
Proof.
  destruct mrs as [m [] []]; simpl; try destruct (Z.even m); split;
    try lia; intros; try discriminate; reflexivity.
Qed.

Lemma digits2_pos_bounds p :
  2 ^ (Z.pos (digits2_pos p) - 1) <= Z.pos p < 2 ^ Z.pos (digits2_pos p).
Proof.
  induction p as [p IH | p IH |]; cbn [digits2_pos].
  - rewrite Pos2Z.inj_succ.
    replace (Z.succ (Z.pos (digits2_pos p)) - 1)
      with (Z.succ (Z.pos (digits2_pos p) - 1)) by lia.
    rewrite !Z.pow_succ_r by lia. lia.
  - rewrite Pos2Z.inj_succ.
    replace (Z.succ (Z.pos (digits2_pos p)) - 1)
      with (Z.succ (Z.pos (digits2_pos p) - 1)) by lia.
    rewrite !Z.pow_succ_r by lia. lia.
  - simpl. lia.
Qed.

Lemma Zdigits2_bounds M :
  0 < M -> 0 < Zdigits2 M /\ 2 ^ (Zdigits2 M - 1) <= M < 2 ^ Zdigits2 M.
Proof.
  destruct M as [| p | p]; try lia. intros _. cbn [Zdigits2].
  split; [lia | apply digits2_pos_bounds].
Qed.

(** Comparing scaled integers bounds their numbers of digits. *)
Lemma Zdigits2_scaled_le a b i j :
  0 < a -> 0 < b -> 0 <= i -> 0 <= j ->
  a * 2 ^ i <= b * 2 ^ j ->
  Zdigits2 a + i <= Zdigits2 b + j.
Proof.
  intros Ha Hb Hi Hj Hle.
  destruct (Zdigits2_bounds a Ha) as [Hda [Ha1 _]].
  destruct (Zdigits2_bounds b Hb) as [Hdb [_ Hb2]].
  assert (H : 2 ^ (Zdigits2 a - 1 + i) < 2 ^ (Zdigits2 b + j)).
  { rewrite !Z.pow_add_r by lia.
    assert (0 < 2 ^ i) by (apply Z.pow_pos_nonneg; lia).
    assert (0 < 2 ^ j) by (apply Z.pow_pos_nonneg; lia).
    nia. }
  apply Z.pow_lt_mono_r_iff in H; lia.
Qed.


Abbreviation fx := (fexp prec emax).

Lemma fx_unfold e : fx e = Z.max (e - 53) (-1074).
Proof. reflexivity. Qed.

Lemma shr_fexp_exact M e :
  0 <= M ->
  let n := fx (Zdigits2 M + e) - e in
  exists mrs,
    shr_fexp prec emax M e loc_Exact = (mrs, if 0 <? n then e + n else e) /\
    shr_m mrs = (if 0 <? n then M / 2 ^ n else M) /\
    ((if 0 <? n then M mod 2 ^ n else 0) = 0 ->
     loc_of_shr_record mrs = loc_Exact).
Proof.
  intros HM n. unfold shr_fexp. cbn [shr_record_of_loc]. fold n.
  destruct (Z.ltb_spec 0 n) as [Hn | Hn].
  - destruct (shr_spec M e n HM Hn) as (mrs & -> & ? & ?). eauto.
  - exists (Build_shr_record M false false). split.
    + destruct n; try lia; reflexivity.
    + split; auto.
Qed.

Lemma binary_round_aux_cases P E :
  0 < P -> E <= fx (Zdigits2 P + E) ->
  let e1 := fx (Zdigits2 P + E) in
  let n1 := e1 - E in
  exists M,
    P / 2 ^ n1 <= M <= P / 2 ^ n1 + 1 /\
    (P mod 2 ^ n1 = 0 -> M = P / 2 ^ n1) /\
    binary_round_aux prec emax false P E loc_Exact = finish M e1.
Proof.
  intros HP HE e1 n1. unfold binary_round_aux.
  destruct (shr_fexp_exact P E ltac:(lia)) as (mrs1 & -> & Hm1 & Hloc1).
  fold e1 in Hm1, Hloc1 |- *. fold n1 in Hm1, Hloc1 |- *.
  destruct (rne_bounds mrs1) as [HM Hex].
  set (M := round_nearest_even (shr_m mrs1) (loc_of_shr_record mrs1)) in *.
  assert (Hn1 : 0 <= n1) by (unfold n1, e1; lia).
  assert (He1 : (if 0 <? n1 then E + n1 else E) = e1).
  { destruct (Z.ltb_spec 0 n1); unfold n1 in *; lia. }
  rewrite He1.
  assert (Hq : shr_m mrs1 = P / 2 ^ n1).
  { rewrite Hm1. destruct (Z.ltb_spec 0 n1); [reflexivity |].
    replace n1 with 0 by lia. rewrite Z.div_1_r. reflexivity. }
  assert (Hr : P mod 2 ^ n1 = 0 -> loc_of_shr_record mrs1 = loc_Exact).
  { intros H0. apply Hloc1. destruct (0 <? n1); [exact H0 | reflexivity]. }
  assert (0 <= P / 2 ^ n1) by (apply Z.div_pos; [lia | apply Z.pow_pos_nonneg; lia]).
  exists M. rewrite <- Hq. split; [exact HM |]. split; [auto |].
  destruct (shr_fexp_exact M e1 ltac:(lia)) as (mrs2 & -> & Hm2 & _).
  unfold finish. rewrite Hm2.
  destruct (0 <? fx (Zdigits2 M + e1) - e1); reflexivity.
Qed.

(** Rounding a product that does not exceed a representable number [X * 2^eX]
    gives a float that does not exceed it. *)
Lemma round_le P E X eX :
  0 < P -> 0 < X ->
  fx (Zdigits2 X + eX) = eX -> eX <= emax - prec ->
  E <= eX -> E <= fx (Zdigits2 P + E) ->
  P <= X * 2 ^ (eX - E) ->
  binary_round_aux prec emax false P E loc_Exact = S754_zero false \/
  exists m2 e2,
    binary_round_aux prec emax false P E loc_Exact = S754_finite false m2 e2 /\
    (e2 < eX \/ (e2 = eX /\ Z.pos m2 <= X)).
Proof.
  intros HP HX Hcan Hmax HE H0 Hle.
  destruct (binary_round_aux_cases P E HP H0) as (M & HM & Hex & ->).
  set (e1 := fx (Zdigits2 P + E)) in *. set (n1 := e1 - E) in *.
  assert (Hd : Zdigits2 P + 0 <= Zdigits2 X + (eX - E)).
  { apply Zdigits2_scaled_le; lia. }
  assert (He1 : e1 <= eX).
  { unfold e1. rewrite <- Hcan. rewrite !fx_unfold. lia. }
  assert (Hn1 : 0 <= n1) by (unfold n1; lia).
  assert (Hp1 : 0 < 2 ^ n1) by (apply Z.pow_pos_nonneg; lia).
  assert (Hp2 : 0 < 2 ^ (eX - e1)) by (apply Z.pow_pos_nonneg; lia).
  set (X' := X * 2 ^ (eX - e1)).
  assert (HleX : P <= X' * 2 ^ n1).
  { unfold X', n1. rewrite <- Z.mul_assoc, <- Z.pow_add_r by lia.
    replace (eX - e1 + (e1 - E)) with (eX - E) by lia. exact Hle. }
  assert (Hq0 : 0 <= P / 2 ^ n1) by (apply Z.div_pos; lia).
  assert (HMX : M <= X').
  { pose proof (Z.div_mod P (2 ^ n1) ltac:(lia)) as Hdm.
    pose proof (Z.mod_pos_bound P (2 ^ n1) Hp1) as Hmb.
    destruct (Z.eq_dec (P mod 2 ^ n1) 0) as [Hz | Hnz].
    - rewrite (Hex Hz). nia.
    - assert (P / 2 ^ n1 < X') by nia. lia. }
  unfold finish.
  destruct (Z.eq_dec M 0) as [-> | HM0].
  { left. cbn [Zdigits2].
    destruct (0 <? fx (0 + e1) - e1); [rewrite Zdiv_0_l |]; reflexivity. }
  assert (HMpos : 0 < M) by lia.
  assert (Hd2 : Zdigits2 M + 0 <= Zdigits2 X + (eX - e1)).
  { apply Zdigits2_scaled_le; lia. }
  assert (He2 : fx (Zdigits2 M + e1) <= eX).
  { rewrite <- Hcan. rewrite !fx_unfold. lia. }
  destruct (Z.ltb_spec 0 (fx (Zdigits2 M + e1) - e1)) as [Hn2 | Hn2].
  - set (n2 := fx (Zdigits2 M + e1) - e1) in *.
    assert (Hp3 : 0 < 2 ^ n2) by (apply Z.pow_pos_nonneg; lia).
    assert (Hm2 : 0 <= M / 2 ^ n2) by (apply Z.div_pos; lia).
    destruct (M / 2 ^ n2) as [| m2 | m2] eqn:Hdiv; [left; reflexivity | | lia].
    right. exists m2, (e1 + n2).
    assert (Hfin : (e1 + n2 <=? emax - prec) = true) by (apply Z.leb_le; unfold n2; lia).
    rewrite Hfin. split; [reflexivity |].
    destruct (Z.eq_dec (e1 + n2) eX) as [Heq | Hne]; [right | left; unfold n2 in *; lia].
    split; [exact Heq |]. rewrite <- Hdiv.
    assert (Hn2' : n2 = eX - e1) by lia.
    rewrite Hn2'. apply Z.div_le_upper_bound; [lia |].
    fold X' in HMX. unfold X' in HMX. lia.
  - destruct M as [| m | m]; try lia.
    right. exists m, e1.
    assert (Hfin : (e1 <=? emax - prec) = true) by (apply Z.leb_le; lia).
    rewrite Hfin. split; [reflexivity |].
    destruct (Z.eq_dec e1 eX) as [Heq | Hne]; [right | left; lia].
    split; [exact Heq |]. unfold X' in HMX. rewrite Heq, Z.sub_diag in HMX. lia.
Qed.


(** Rounding a product that is at least a representable number [X * 2^eX]
    gives a float that is at least that number (or overflows). *)
Lemma round_ge P E X eX :
  0 < P -> 0 < X ->
  fx (Zdigits2 X + eX) = eX ->
  E <= eX -> E <= fx (Zdigits2 P + E) ->
  X * 2 ^ (eX - E) <= P ->
  binary_round_aux prec emax false P E loc_Exact = S754_infinity false \/
  exists m2 e2,
    binary_round_aux prec emax false P E loc_Exact = S754_finite false m2 e2 /\
    (eX < e2 \/ (e2 = eX /\ X <= Z.pos m2)).
Proof.
  intros HP HX Hcan HE H0 Hle.
  destruct (binary_round_aux_cases P E HP H0) as (M & HM & _ & ->).
  set (e1 := fx (Zdigits2 P + E)) in *. set (n1 := e1 - E) in *.
  assert (Hd : Zdigits2 X + (eX - E) <= Zdigits2 P + 0).
  { apply Zdigits2_scaled_le; lia. }
  assert (He1 : eX <= e1).
  { unfold e1. rewrite <- Hcan. rewrite !fx_unfold. lia. }
  assert (Hn1 : 0 <= n1) by (unfold n1; lia).
  assert (Hp1 : 0 < 2 ^ n1) by (apply Z.pow_pos_nonneg; lia).
  destruct (Zdigits2_bounds P HP) as [HdP [HP1 HP2]].
  assert (HeX : -1074 <= eX) by (rewrite <- Hcan, fx_unfold; lia).
  (* the rounded mantissa is positive, and at least [X] at equal exponents *)
  assert (HMpos : 0 < M /\ (e1 = eX -> X <= M)).
  { destruct (Z.eq_dec e1 eX) as [Heq | Hne].
    - assert (X <= P / 2 ^ n1).
      { apply Z.div_le_lower_bound; [lia |].
        unfold n1. rewrite Heq. lia. }
      lia.
    - assert (Hn : n1 = Zdigits2 P - 53).
      { unfold n1, e1 in *. rewrite fx_unfold in *. lia. }
      assert (1 <= P / 2 ^ n1).
      { apply Z.div_le_lower_bound; [lia |].
        assert (2 ^ n1 <= 2 ^ (Zdigits2 P - 1))
          by (apply Z.pow_le_mono_r; lia).
        lia. }
      lia. }
  destruct HMpos as [HMpos HMX].
  destruct (Zdigits2_bounds M HMpos) as [HdM [HM1 HM2]].
  unfold finish.
  destruct (Z.ltb_spec 0 (fx (Zdigits2 M + e1) - e1)) as [Hn2 | Hn2].
  - set (n2 := fx (Zdigits2 M + e1) - e1) in *.
    assert (Hn : n2 = Zdigits2 M - 53).
    { unfold n2 in *. rewrite fx_unfold in *. lia. }
    assert (1 <= M / 2 ^ n2).
    { apply Z.div_le_lower_bound; [apply Z.pow_pos_nonneg; lia |].
      assert (2 ^ n2 <= 2 ^ (Zdigits2 M - 1))
        by (apply Z.pow_le_mono_r; lia).
      lia. }
    destruct (M / 2 ^ n2) as [| m2 | m2]; try lia.
    destruct (e1 + n2 <=? emax - prec); [right | left; reflexivity].
    exists m2, (e1 + n2). split; [reflexivity | left; lia].
  - destruct M as [| m | m]; try lia.
    destruct (e1 <=? emax - prec); [right | left; reflexivity].
    exists m, e1. split; [reflexivity |].
    destruct (Z.eq_dec e1 eX) as [Heq | Hne]; [right | left; lia].
    split; [exact Heq | auto].
Qed.

(** *** The order on binary64 values *)

Ltac cmp_cases :=
  repeat match goal with
  | |- context [Pos.compare_cont Eq ?a ?b] =>
      change (Pos.compare_cont Eq a b) with (Pos.compare a b)
  | H : context [Pos.compare_cont Eq ?a ?b] |- _ =>
      change (Pos.compare_cont Eq a b) with (Pos.compare a b) in H
  end;
  repeat match goal with
  | |- context [Z.compare ?a ?b] => destruct (Z.compare_spec a b)
  | H : context [Z.compare ?a ?b] |- _ => destruct (Z.compare_spec a b)
  | |- context [Pos.compare ?a ?b] => destruct (Pos.compare_spec a b)
  | H : context [Pos.compare ?a ?b] |- _ => destruct (Pos.compare_spec a b)
  end;
  cbn in *; try discriminate; try reflexivity; try lia.

Lemma SFleb_trans a b c :
  SFleb a b = true -> SFleb b c = true -> SFleb a c = true.
Proof.
  unfold SFleb, SFcompare.
  destruct a as [[] | [] | | [] ma ea], b as [[] | [] | | [] mb eb],
    c as [[] | [] | | [] mc ec];
    intros Hab Hbc; try discriminate; try reflexivity; cmp_cases.
Qed.

Lemma SFltb_leb a b : SFltb a b = true -> SFleb a b = true.
Proof.
  unfold SFltb, SFleb. destruct (SFcompare a b) as [[] |]; auto.
Qed.

Lemma SFleb_refl_l a b : SFleb a b = true -> SFleb a a = true.
Proof.
  unfold SFleb, SFcompare.
  destruct a as [[] | [] | | [] ma ea], b as [[] | [] | | [] mb eb];
    intros Hab; try discriminate; try reflexivity;
    rewrite ?Z.compare_refl, ?Pos.compare_cont_refl; reflexivity.
Qed.

Lemma SFleb_refl_r a b : SFleb a b = true -> SFleb b b = true.
Proof.
  unfold SFleb, SFcompare.
  destruct a as [[] | [] | | [] ma ea], b as [[] | [] | | [] mb eb];
    intros Hab; try discriminate; try reflexivity;
    rewrite ?Z.compare_refl, ?Pos.compare_cont_refl; reflexivity.
Qed.

(** When neither side is a NaN, "not less" is "at least". *)
Lemma SFltb_false_leb a b :
  SFleb a a = true -> SFleb b b = true ->
  SFltb a b = false -> SFleb b a = true.
Proof.
  unfold SFleb, SFltb, SFcompare.
  destruct a as [[] | [] | | [] ma ea], b as [[] | [] | | [] mb eb];
    intros Ha Hb Hab; try discriminate; try reflexivity; cmp_cases.
Qed.


(** *** Multiplying a non-negative float by a constant *)

(** The shapes of a float that is at least zero. *)
Lemma Prim2SF_nonneg x :
  (0 <=? x)%float = true ->
  (exists s, Prim2SF x = S754_zero s) \/
  Prim2SF x = S754_infinity false \/
  exists m e,
    Prim2SF x = S754_finite false m e /\
    fx (Zdigits2 (Z.pos m) + e) = e /\ e <= emax - prec.
Proof.
  rewrite leb_spec. pose proof (Prim2SF_valid x) as Hv.
  change (Prim2SF 0) with (S754_zero false).
  destruct (Prim2SF x) as [s | [] | | [] m e]; try discriminate; eauto.
  intros _. right. right. exists m, e. split; [reflexivity |].
  cbn [SpecFloat.valid_binary] in Hv. unfold bounded, canonical_mantissa in Hv.
  apply andb_true_iff in Hv as [H1 H2].
  apply Z.eqb_eq in H1. apply Z.leb_le in H2. auto.
Qed.

Section MulConst.

(** A positive normal constant [c = mc * 2^ec] with [ec <= 0]. *)
Variables (c : float) (mc : positive) (ec : Z).
Hypothesis Hc : Prim2SF c = S754_finite false mc ec.
Hypothesis Hdc : Z.pos (digits2_pos mc) = 53.
Hypothesis Hec : ec <= 0.

Lemma product_exponent m e :
  e + ec <= fx (Zdigits2 (Z.pos (m * mc)) + (e + ec)).
Proof.
  destruct (Zdigits2_bounds (Z.pos m) ltac:(lia)) as [Hdm [Hm1 _]].
  destruct (Zdigits2_bounds (Z.pos mc) ltac:(lia)) as [_ [Hc1 _]].
  destruct (Zdigits2_bounds (Z.pos (m * mc)) ltac:(lia)) as [_ [_ Hp2]].
  cbn [Zdigits2] in *. rewrite Hdc in Hc1.
  assert (H : 2 ^ (Z.pos (digits2_pos m) - 1 + 52)
              < 2 ^ Z.pos (digits2_pos (m * mc))).
  { rewrite Z.pow_add_r by lia. rewrite Pos2Z.inj_mul in Hp2.
    change (53 - 1) with 52 in Hc1. nia. }
  apply Z.pow_lt_mono_r_iff in H; [| lia | lia].
  rewrite fx_unfold. lia.
Qed.

Lemma mul_const_le x :
  Z.pos mc <= 2 ^ (- ec) ->
  (0 <=? x)%float = true -> (x * c <=? x)%float = true.
Proof using Hc Hdc Hec.
  intros Hone Hx. rewrite leb_spec, mul_spec, Hc.
  destruct (Prim2SF_nonneg x Hx) as [[s ->] | [-> | (m & e & -> & Hcan & Hmax)]].
  - destruct s; reflexivity.
  - reflexivity.
  - unfold SF64mul, SFmul. cbn [xorb].
    destruct (round_le (Z.pos (m * mc)) (e + ec) (Z.pos m) e)
      as [-> | (m2 & e2 & -> & Hcmp)]; try lia; try assumption.
    + apply product_exponent.
    + replace (e - (e + ec)) with (- ec) by lia.
      rewrite Pos2Z.inj_mul. nia.
    + reflexivity.
    + unfold SFleb, SFcompare.
      change (Pos.compare_cont Eq m2 m) with (Pos.compare m2 m).
      destruct Hcmp as [Hlt | [-> Hm]].
      * destruct (Z.compare_spec e2 e); try lia; reflexivity.
      * rewrite Z.compare_refl.
        destruct (Pos.compare_spec m2 m); try lia; reflexivity.
Qed.

Lemma mul_const_ge x :
  2 ^ (- ec) <= Z.pos mc ->
  (0 <=? x)%float = true -> (x <=? x * c)%float = true.
Proof using Hc Hdc Hec.
  intros Hone Hx. rewrite leb_spec, mul_spec, Hc.
  destruct (Prim2SF_nonneg x Hx) as [[s ->] | [-> | (m & e & -> & Hcan & Hmax)]].
  - destruct s; reflexivity.
  - reflexivity.
  - unfold SF64mul, SFmul. cbn [xorb].
    destruct (round_ge (Z.pos (m * mc)) (e + ec) (Z.pos m) e)
      as [-> | (m2 & e2 & -> & Hcmp)]; try lia; try assumption.
    + apply product_exponent.
    + replace (e - (e + ec)) with (- ec) by lia.
      rewrite Pos2Z.inj_mul. nia.
    + reflexivity.
    + unfold SFleb, SFcompare.
      change (Pos.compare_cont Eq m m2) with (Pos.compare m m2).
      destruct Hcmp as [Hlt | [-> Hm]].
      * destruct (Z.compare_spec e e2); try lia; reflexivity.
      * rewrite Z.compare_refl.
        destruct (Pos.compare_spec m m2); try lia; reflexivity.
Qed.

End MulConst.

(** The three factors of the rate limiter. *)
Lemma mul_0_9_le x : (0 <=? x)%float = true -> (x * 0.9 <=? x)%float = true.
Proof.
  apply (mul_const_le 0.9%float 8106479329266893 (-53));
    [reflexivity | reflexivity | lia | vm_compute; discriminate].
Qed.

Lemma mul_1_2_ge x : (0 <=? x)%float = true -> (x <=? x * 1.2)%float = true.
Proof.
  apply (mul_const_ge 1.2%float 5404319552844595 (-52));
    [reflexivity | reflexivity | lia | vm_compute; discriminate].
Qed.

Lemma mul_2_0_ge x : (0 <=? x)%float = true -> (x <=? x * 2.0)%float = true.
Proof.
  apply (mul_const_ge 2.0%float 4503599627370496 (-51));
    [reflexivity | reflexivity | lia | vm_compute; discriminate].
Qed.

(** The order on Python floats. *)
Lemma leb_trans (a b c : float) :
  (a <=? b)%float = true -> (b <=? c)%float = true -> (a <=? c)%float = true.
Proof. rewrite !leb_spec. apply SFleb_trans. Qed.

Lemma ltb_leb (a b : float) : (a <? b)%float = true -> (a <=? b)%float = true.
Proof. rewrite ltb_spec, leb_spec. apply SFltb_leb. Qed.

Lemma leb_refl_l (a b : float) : (a <=? b)%float = true -> (a <=? a)%float = true.
Proof. rewrite !leb_spec. apply SFleb_refl_l. Qed.

Lemma leb_refl_r (a b : float) : (a <=? b)%float = true -> (b <=? b)%float = true.
Proof. rewrite !leb_spec. apply SFleb_refl_r. Qed.

Lemma ltb_false_leb (a b : float) :
  (a <=? a)%float = true -> (b <=? b)%float = true ->
  (a <? b)%float = false -> (b <=? a)%float = true.
Proof. rewrite ltb_spec, !leb_spec. apply SFltb_false_leb. Qed.

Lemma SFltb_irrefl a : SFltb a a = false.
Proof.
  unfold SFltb, SFcompare.
  destruct a as [[] | [] | | [] ma ea]; try reflexivity; cmp_cases.
Qed.

Lemma ltb_irrefl (a : float) : (a <? a)%float = false.
Proof. rewrite ltb_spec. apply SFltb_irrefl. Qed.

Lemma SFleb_not_ltb a b : SFleb a b = true -> SFltb b a = false.
Proof.
  unfold SFleb, SFltb, SFcompare.
  destruct a as [[] | [] | | [] ma ea], b as [[] | [] | | [] mb eb];
    intros Hab; try discriminate; try reflexivity; cmp_cases.
Qed.

Lemma leb_not_ltb (a b : float) :
  (a <=? b)%float = true -> (b <? a)%float = false.
Proof. rewrite ltb_spec, leb_spec. apply SFleb_not_ltb. Qed.

End Binary64.

(** ** The rate limiter *)

Module RateLimiterProps.
Import PyFloat Downloader Binary64.

Lemma ordered_within_bounds self : ordered self -> within_bounds self = true.
Proof.
  intros (_ & _ & _ & Hlo & Hhi). unfold within_bounds.
  rewrite Hlo, Hhi. reflexivity.
Qed.

Lemma ordered_init base min max :
  (0 <=? min)%float = true ->
  (min <=? base)%float = true ->
  (base <=? max)%float = true ->
  ordered (init base min max).
Proof. intros H0 H1 H2. repeat split; assumption. Qed.

Lemma ordered_on_success self : ordered self -> ordered (on_success self).
Proof.
  intros (H0 & H1 & H2 & Hlo & Hhi). unfold on_success.
  destruct (10 <=? success_count self + 1); repeat split; cbn; try assumption.
  - (* min <= max(min, cur * 0.9) *)
    unfold max2.
    destruct (min_delay self <? current_delay self * 0.9)%float eqn:Hlt.
    + apply ltb_leb. exact Hlt.
    + apply (leb_refl_l _ _ H1).
  - (* max(min, cur * 0.9) <= max *)
    unfold max2.
    destruct (min_delay self <? current_delay self * 0.9)%float.
    + apply leb_trans with (current_delay self); [| exact Hhi].
      apply mul_0_9_le. apply leb_trans with (min_delay self); assumption.
    + apply leb_trans with (base_delay self); assumption.
Qed.

Lemma ordered_on_error b self : ordered self -> ordered (on_error b self).
Proof.
  intros (H0 & H1 & H2 & Hlo & Hhi).
  assert (Hcur : (0 <=? current_delay self)%float = true)
    by (apply leb_trans with (min_delay self); assumption).
  assert (Hmm : (min_delay self <=? max_delay self)%float = true)
    by (apply leb_trans with (base_delay self); assumption).
  unfold on_error. repeat split; cbn; try assumption.
  - (* min <= min(max, cur * factor) *)
    destruct b; unfold min2.
    + destruct (current_delay self * 2 <? max_delay self)%float;
        [| exact Hmm].
      apply leb_trans with (current_delay self); [exact Hlo |].
      apply mul_2_0_ge. exact Hcur.
    + destruct (current_delay self * 1.2 <? max_delay self)%float;
        [| exact Hmm].
      apply leb_trans with (current_delay self); [exact Hlo |].
      apply mul_1_2_ge. exact Hcur.
  - (* min(max, cur * factor) <= max *)
    destruct b; unfold min2.
    + destruct (current_delay self * 2 <? max_delay self)%float eqn:Hlt;
        [apply ltb_leb; exact Hlt | apply (leb_refl_r _ _ Hhi)].
    + destruct (current_delay self * 1.2 <? max_delay self)%float eqn:Hlt;
        [apply ltb_leb; exact Hlt | apply (leb_refl_r _ _ Hhi)].
Qed.

Lemma ordered_reset self : ordered self -> ordered (reset self).
Proof.
  intros (H0 & H1 & H2 & Hlo & Hhi). repeat split; cbn; assumption.
Qed.

Lemma ordered_step self c : ordered self -> ordered (step self c).
Proof.
  destruct c; cbn.
  - auto.
  - apply ordered_on_success.
  - apply ordered_on_error.
  - apply ordered_reset.
Qed.

Lemma ordered_run cs : forall self, ordered self -> ordered (run self cs).
Proof.
  unfold run. induction cs as [| c cs IH]; intros self H; cbn.
  - exact H.
  - apply IH, ordered_step, H.
Qed.

(** C1, as stated, fails: with [min_delay = base_delay = -1.0] and
    [max_delay = 0.0] the parameters are ordered and the bound holds after
    construction, but one [on_error(is_rate_limit=True)] doubles the delay to
    [-2.0], below [min_delay]. *)
Lemma C1_negative_delay_escapes :
  ((-1) <=? (-1))%float = true /\ ((-1) <=? 0)%float = true /\
  within_bounds (init (-1)%float (-1)%float 0%float) = true /\
  current_delay (run (init (-1)%float (-1)%float 0%float) [OnError true]) = (-2)%float /\
  within_bounds (run (init (-1)%float (-1)%float 0%float) [OnError true]) = false.
Proof. repeat split; vm_compute; reflexivity. Qed.

(** C1 (amended): for every [RateLimiter] constructed with
    [0 <= min_delay <= base_delay <= max_delay], the bound
    [min_delay <= current_delay <= max_delay] holds after construction and
    after every sequence of [wait], [on_success], [on_error] (with either
    classification) and [reset]. *)
Theorem C1_delay_within_bounds (base min max : float) (cs : list call) :
  (0 <=? min)%float = true ->
  (min <=? base)%float = true ->
  (base <=? max)%float = true ->
  within_bounds (init base min max) = true /\
  within_bounds (run (init base min max) cs) = true.
Proof.
  intros H0 H1 H2.
  pose proof (ordered_init base min max H0 H1 H2) as Hinit.
  split; apply ordered_within_bounds; [exact Hinit |].
  apply ordered_run, Hinit.
Qed.

Lemma C1_delay_within_bounds_witness :
  within_bounds init_default = true /\
  within_bounds
    (run init_default
       [OnSuccess; OnError true; Wait; OnError false; Reset; OnError true])
  = true.
Proof.
  apply (C1_delay_within_bounds 3%float 2%float 30%float); vm_compute; reflexivity.
Defined.

Lemma successes_succ n self :
  successes (S n) self = on_success (successes n self).
Proof. unfold successes. apply Nat.iter_succ. Qed.

Lemma on_success_below_ten s :
  success_count s + 1 < 10 ->
  current_delay (on_success s) = current_delay s /\
  min_delay (on_success s) = min_delay s /\
  success_count (on_success s) = success_count s + 1.
Proof.
  intros Hs. unfold on_success.
  destruct (Z.leb_spec 10 (success_count s + 1)); [lia | auto].
Qed.

Lemma on_success_tenth s :
  10 <= success_count s + 1 ->
  current_delay (on_success s)
  = max2 (min_delay s) (current_delay s * 0.9)%float /\
  success_count (on_success s) = 0.
Proof.
  intros Hs. unfold on_success.
  destruct (Z.leb_spec 10 (success_count s + 1)); [auto | lia].
Qed.

Lemma successes_below_ten n self :
  success_count self = 0 -> (n < 10)%nat ->
  current_delay (successes n self) = current_delay self /\
  min_delay (successes n self) = min_delay self /\
  success_count (successes n self) = Z.of_nat n.
Proof.
  intros Hsc. induction n as [| n IH]; intros Hn.
  - cbn. auto.
  - destruct (IH ltac:(lia)) as (Hc & Hm & Hs).
    rewrite successes_succ.
    destruct (on_success_below_ten (successes n self)) as (Hc' & Hm' & Hs');
      [lia |].
    rewrite Hc', Hm', Hs'. repeat split; try assumption. lia.
Qed.

(** C2: in every state, [on_success] multiplies the delay by 0.9 (clamped
    below at [min_delay]) and resets the success counter exactly when the
    counter reaches 10, and leaves the delay unchanged otherwise; counted
    from a state whose counter is 0 (as every [on_error] leaves it), the
    first nine successes leave the delay unchanged and the tenth decays it. *)
Theorem C2_on_success_decay (self : RateLimiter) (n : nat) :
  success_count self = 0 -> (n < 10)%nat ->
  (* any error resets the counter *)
  (forall b s, success_count (on_error b s) = 0) /\
  (* one call, in any state [s] *)
  (forall s, 10 <= success_count s + 1 ->
     current_delay (on_success s)
     = max2 (min_delay s) (current_delay s * 0.9)%float /\
     success_count (on_success s) = 0) /\
  (forall s, success_count s + 1 < 10 ->
     current_delay (on_success s) = current_delay s /\
     success_count (on_success s) = success_count s + 1) /\
  (* consecutive successes *)
  current_delay (successes n self) = current_delay self /\
  success_count (successes n self) = Z.of_nat n /\
  current_delay (successes 10 self)
  = max2 (min_delay self) (current_delay self * 0.9)%float /\
  success_count (successes 10 self) = 0.
Proof.
  intros Hsc Hn.
  split; [reflexivity |].
  split; [exact on_success_tenth |].
  split; [intros s Hs; destruct (on_success_below_ten s Hs) as (? & _ & ?); auto |].
  destruct (successes_below_ten n self Hsc Hn) as (Hc & _ & Hs).
  split; [exact Hc |]. split; [exact Hs |].
  destruct (successes_below_ten 9 self Hsc ltac:(lia)) as (Hc9 & Hm9 & Hs9).
  rewrite successes_succ.
  destruct (on_success_tenth (successes 9 self)) as (Hc' & Hs'); [lia |].
  rewrite Hc', Hs', Hc9, Hm9. auto.
Qed.

Lemma C2_on_success_decay_witness :
  current_delay (successes 9 init_default) = 3%float /\
  current_delay (successes 10 init_default) = 2.7%float.
Proof.
  destruct (C2_on_success_decay init_default 9 eq_refl ltac:(lia))
    as (_ & _ & _ & H9 & _ & H10 & _).
  split; [exact H9 | exact H10].
Defined.

(** C3: [on_error(is_rate_limit=True)] sets the delay to
    [min(max_delay, current_delay * 2.0)], [on_error(is_rate_limit=False)] to
    [min(max_delay, current_delay * 1.2)]; both reset [success_count] to 0,
    add 1 to [error_count] and leave the three parameters alone. *)
Theorem C3_on_error_growth (self : RateLimiter) :
  current_delay (on_error true self)
  = min2 (max_delay self) (current_delay self * 2.0)%float /\
  current_delay (on_error false self)
  = min2 (max_delay self) (current_delay self * 1.2)%float /\
  forall b,
    success_count (on_error b self) = 0 /\
    error_count (on_error b self) = error_count self + 1 /\
    base_delay (on_error b self) = base_delay self /\
    min_delay (on_error b self) = min_delay self /\
    max_delay (on_error b self) = max_delay self.
Proof.
  split; [reflexivity |]. split; [reflexivity |].
  intros b. repeat split.
Qed.

(** The delay [wait] asks for is clamped again: whenever
    [min_delay <= max_delay], it lies between the two, whatever
    [current_delay] holds (also a value outside the bounds, or NaN). *)
Theorem wait_delay_clamped (self : RateLimiter) :
  (min_delay self <=? max_delay self)%float = true ->
  (min_delay self <=? wait_delay self)%float = true /\
  (wait_delay self <=? max_delay self)%float = true /\
  (wait self).1 = self.
Proof.
  intros Hmm. unfold wait_delay, max2, min2.
  pose proof (leb_refl_l _ _ Hmm) as Hmin.
  pose proof (leb_refl_r _ _ Hmm) as Hmax.
  destruct (max_delay self <? current_delay self)%float eqn:Hhi.
  - destruct (min_delay self <? max_delay self)%float; auto.
  - destruct (min_delay self <? current_delay self)%float eqn:Hlo; [| auto].
    apply ltb_leb in Hlo. pose proof (leb_refl_r _ _ Hlo) as Hcur.
    split; [exact Hlo |]. split; [| reflexivity].
    apply ltb_false_leb; assumption.
Qed.

Lemma wait_delay_clamped_witness :
  (2 <=? wait_delay (run (init (-1)%float 2%float 30%float) [OnError true]))%float
  = true /\
  (wait_delay (run (init (-1)%float 2%float 30%float) [OnError true]) <=? 30)%float
  = true /\
  (wait (run (init (-1)%float 2%float 30%float) [OnError true])).1
  = run (init (-1)%float 2%float 30%float) [OnError true].
Proof.
  apply (wait_delay_clamped (run (init (-1)%float 2%float 30%float) [OnError true])).
  vm_compute. reflexivity.
Defined.


(** In an ordered state a success never raises the delay and an error never
    lowers it. *)
Theorem delay_moves_one_way (self : RateLimiter) :
  ordered self ->
  (current_delay (on_success self) <=? current_delay self)%float = true /\
  forall b,
    (current_delay self <=? current_delay (on_error b self))%float = true.
Proof.
  intros (H0 & H1 & H2 & Hlo & Hhi).
  assert (Hcur : (0 <=? current_delay self)%float = true)
    by (apply leb_trans with (min_delay self); assumption).
  split.
  - unfold on_success.
    destruct (10 <=? success_count self + 1); cbn [current_delay];
      [| apply (leb_refl_r _ _ Hlo)].
    unfold max2.
    destruct (min_delay self <? current_delay self * 0.9)%float;
      [apply mul_0_9_le; exact Hcur | exact Hlo].
  - intros b. unfold on_error. cbn [current_delay]. unfold min2.
    destruct b.
    + destruct (current_delay self * 2 <? max_delay self)%float;
        [apply mul_2_0_ge; exact Hcur | exact Hhi].
    + destruct (current_delay self * 1.2 <? max_delay self)%float;
        [apply mul_1_2_ge; exact Hcur | exact Hhi].
Qed.

Lemma delay_moves_one_way_witness :
  (current_delay (on_success (successes 9 init_default))
   <=? current_delay (successes 9 init_default))%float = true /\
  forall b,
    (current_delay (successes 9 init_default)
     <=? current_delay (on_error b (successes 9 init_default)))%float = true.
Proof.
  apply (delay_moves_one_way (successes 9 init_default)).
  repeat split; vm_compute; reflexivity.
Defined.

(** The bounds absorb: in an ordered state, a delay that sits at
    [max_delay] stays there under every error, and a delay that sits at
    [min_delay] stays there under every success. *)
Theorem bounds_absorb (self : RateLimiter) :
  ordered self ->
  (current_delay self = max_delay self ->
   forall b, current_delay (on_error b self) = max_delay self) /\
  (current_delay self = min_delay self ->
   current_delay (on_success self) = min_delay self).
Proof.
  intros (H0 & H1 & H2 & Hlo & Hhi).
  assert (Hcur : (0 <=? current_delay self)%float = true)
    by (apply leb_trans with (min_delay self); assumption).
  split.
  - intros Heq b. unfold on_error. cbn [current_delay]. unfold min2.
    rewrite <- Heq.
    destruct b.
    + rewrite (leb_not_ltb _ _ (mul_2_0_ge _ Hcur)). reflexivity.
    + rewrite (leb_not_ltb _ _ (mul_1_2_ge _ Hcur)). reflexivity.
  - intros Heq. unfold on_success.
    destruct (10 <=? success_count self + 1); cbn [current_delay];
      [| exact Heq].
    unfold max2. rewrite <- Heq.
    rewrite (leb_not_ltb _ _ (mul_0_9_le _ Hcur)). reflexivity.
Qed.

Lemma bounds_absorb_witness :
  (current_delay (on_error true (run init_default (repeat (OnError true) 4)))
   = 30%float /\
   current_delay (on_error false (run init_default (repeat (OnError true) 4)))
   = 30%float) /\
  current_delay (on_success (successes 9 (init 2%float 2%float 30%float)))
  = 2%float.
Proof.
  split.
  - destruct (bounds_absorb (run init_default (repeat (OnError true) 4)))
      as [Hmax _]; [repeat split; vm_compute; reflexivity |].
    split; apply Hmax; vm_compute; reflexivity.
  - destruct (bounds_absorb (successes 9 (init 2%float 2%float 30%float)))
      as [_ Hmin]; [repeat split; vm_compute; reflexivity |].
    apply Hmin. vm_compute. reflexivity.
Defined.

Lemma run_parameters cs : forall self,
  base_delay (run self cs) = base_delay self /\
  min_delay (run self cs) = min_delay self /\
  max_delay (run self cs) = max_delay self.
Proof.
  unfold run. induction cs as [| c cs IH]; intros self; [auto |].
  cbn [fold_left]. destruct (IH (step self c)) as (-> & -> & ->).
  destruct c; cbn [step]; unfold wait, on_success;
    try destruct (10 <=? success_count self + 1); cbn; auto.
Qed.

(** [reset] makes the limiter as new: whatever calls came before, after
    [reset] the object is in the state in which it was constructed. *)
Theorem reset_restores (base min max : float) (cs : list call) :
  reset (run (init base min max) cs) = init base min max.
Proof.
  destruct (run_parameters cs (init base min max)) as (Hb & Hm & Hx).
  unfold reset. rewrite Hb, Hm, Hx. reflexivity.
Qed.

Lemma ordered_min_max_on_success self :
  min_delay (on_success self) = min_delay self /\
  max_delay (on_success self) = max_delay self.
Proof.
  unfold on_success. destruct (10 <=? success_count self + 1);
    split; reflexivity.
Qed.

Lemma ordered_min_max_on_error b self :
  min_delay (on_error b self) = min_delay self /\
  max_delay (on_error b self) = max_delay self.
Proof. split; reflexivity. Qed.

End RateLimiterProps.

(** ** [src/utils.py] *)

Module UtilsProps.
Import PyFloat Utils.

(** *** [validate_username] *)

Lemma lstrip_by_head p s c r : lstrip_by p s = c :: r -> p c = false.
Proof.
  induction s as [| a s IH]; cbn; [discriminate |].
  destruct (p a) eqn:Hp; [exact IH |].
  intros [= <- _]. exact Hp.
Qed.

(** A stripped string does not end in a newline, so the [$] of the pattern
    can only match at its very end. *)
Lemma re_match_allowed_strip s :
  re_match_allowed (strip s)
  = match strip s with [] => false | _ :: _ => forallb allowed_char (strip s) end.
Proof.
  unfold re_match_allowed.
  destruct (rev (strip s)) as [| c r] eqn:Hrev; [reflexivity |].
  destruct (N.eq_dec c 10%N) as [-> | Hc].
  - exfalso. unfold strip, rstrip_by in Hrev. rewrite rev_involutive in Hrev.
    apply lstrip_by_head in Hrev. discriminate.
  - destruct c as [| [p | [[p | [p | p |] |] | p |] |]]; try reflexivity.
    congruence.
Qed.

(** C9: [validate_username(s)] returns [s.strip().lower()] when the stripped
    input is 1 to 30 characters long, consists only of letters, digits, dots
    and underscores and neither starts nor ends with a dot; in every other
    case it raises [ValueError]. *)
Theorem C9_validate_username (s : pystr) :
  (valid_name (strip s) = true /\
   validate_username s = Ok (lower (strip s)))
  \/
  (valid_name (strip s) = false /\
   exists why, validate_username s = Raise (ValueError why)).
Proof.
  unfold validate_username, valid_name.
  destruct s as [| c s'].
  { right. split; [reflexivity | eauto]. }
  rewrite (re_match_allowed_strip (c :: s')).
  set (t := strip (c :: s')).
  destruct (Nat.ltb_spec (length t) 1) as [Hlo | Hlo].
  { right. cbn [orb]. split; [| eauto].
    destruct (Nat.leb_spec 1 (length t)); [lia | reflexivity]. }
  destruct (Nat.ltb_spec 30 (length t)) as [Hhi | Hhi].
  { right. cbn [orb]. split; [| eauto].
    destruct (Nat.leb_spec (length t) 30); [lia |].
    rewrite andb_false_r. reflexivity. }
  cbn [orb].
  destruct (Nat.leb_spec 1 (length t)); [| lia].
  destruct (Nat.leb_spec (length t) 30); [| lia].
  cbn [andb].
  destruct t as [| a t'] eqn:Ht; [cbn in Hlo; lia |].
  destruct (forallb allowed_char (a :: t')) eqn:Hall; cbn [negb andb];
    [| right; split; [reflexivity | eauto]].
  destruct (startswith (lit ".") (a :: t')); cbn [negb andb];
    [right; split; [reflexivity | eauto] |].
  destruct (endswith (lit ".") (a :: t')); cbn [negb];
    [right; split; [reflexivity | eauto] |].
  left. split; reflexivity.
Qed.

(** *** [calculate_rate_limit_delay] *)

(** The power is taken first: with [multiplier = 0.0] and
    [error_count = -1] it raises [ZeroDivisionError], and with an
    [error_count] too large for a float ([2 ** 1024]) it raises
    [OverflowError]. Neither depends on the C library's [pow]. *)
Lemma power_can_raise :
  (forall L : Libm,
     calculate_rate_limit_delay (-1) None (Some 0%float) None
     = Raise ZeroDivisionError) /\
  (forall L : Libm,
     calculate_rate_limit_delay (2 ^ 1024) None None None
     = Raise OverflowError).
Proof. split; intros L; vm_compute; reflexivity. Qed.

(** The only exceptions of [float ** int]. *)
Lemma float_pow_raises `{Libm} (v : float) (w : Z) (e : exn) :
  float_pow v w = Raise e -> e = ZeroDivisionError \/ e = OverflowError.
Proof.
  unfold float_pow, of_int.
  destruct (is_inf (SF2Prim (binary_normalize prec emax w 0 false)));
    cbn [mbind result_bind]; [intros [= <-]; auto |].
  repeat match goal with
  | |- (if ?b then _ else _) = _ -> _ => destruct b
  | |- (let _ := _ in _) = _ -> _ => cbv zeta
  end; intros [= <-]; auto.
Qed.

(** Any float to the power 0 is 1.0, whatever the C library does. *)
Lemma float_pow_zero `{Libm} (v : float) : float_pow v 0 = Ok 1%float.
Proof. reflexivity. Qed.

(** What [calculate_rate_limit_delay] computes, for every input: whenever
    Python's [multiplier ** error_count] evaluates to a float [p] the result
    is [min(base_delay * p, max_delay)], and whenever the power raises the
    call raises with it, before [min] is reached. *)
Lemma calculate_rate_limit_delay_cases `{Libm} (error_count : Z)
    (base_delay multiplier max_delay : option float) :
  let b := default 3.0%float base_delay in
  let m := default 1.5%float multiplier in
  let mx := default 300.0%float max_delay in
  match float_pow m error_count with
  | Ok p =>
      calculate_rate_limit_delay error_count base_delay multiplier max_delay
      = Ok (min2 (b * p)%float mx)
  | Raise e =>
      calculate_rate_limit_delay error_count base_delay multiplier max_delay
      = Raise e /\ (e = ZeroDivisionError \/ e = OverflowError)
  end /\
  calculate_rate_limit_delay 0 base_delay multiplier max_delay
  = Ok (min2 (b * 1)%float mx).
Proof.
  intros b m mx. unfold calculate_rate_limit_delay. fold b m mx.
  split.
  - destruct (float_pow m error_count) as [p | e] eqn:Hpow; [reflexivity |].
    split; [reflexivity |]. exact (float_pow_raises _ _ _ Hpow).
  - rewrite float_pow_zero. reflexivity.
Qed.

(** C4 (defect of the code): the cap comes after the power, and the power
    can fail. With the defaults, [1.5 ** 1751] is beyond the largest float
    ([3^1751 > 2^1024 * 2^1751]); when the C library's [pow] answers
    infinity there, as IEEE 754 asks, CPython raises [OverflowError] and
    [calculate_rate_limit_delay(1751)] raises with it, where the claim, the
    docstring and the [min] of the last line give the cap:
    [min(3.0 * inf, 300.0)] is [300.0]. *)
Theorem C4_overflow_before_the_cap `{Libm} :
  libm_pow 1.5%float 1751%float = infinity ->
  (2 ^ 1024 * 2 ^ 1751 < 3 ^ 1751)%Z /\
  calculate_rate_limit_delay 1751 None None None = Raise OverflowError /\
  min2 (3.0 * infinity)%float 300.0%float = 300.0%float.
Proof.
  intros Hpow. split; [vm_compute; reflexivity |].
  split; [| vm_compute; reflexivity].
  unfold calculate_rate_limit_delay, float_pow. cbn [default].
  replace (of_int 1751) with (Ok 1751%float) by (vm_compute; reflexivity).
  cbn [mbind result_bind].
  replace (1751 =? 0)%float with false by (vm_compute; reflexivity).
  replace (is_nan 1.5%float) with false by (vm_compute; reflexivity).
  replace (is_inf 1.5%float) with false by (vm_compute; reflexivity).
  replace (1.5 =? 0)%float with false by (vm_compute; reflexivity).
  replace (1.5 <? 0)%float with false by (vm_compute; reflexivity).
  cbn [andb].
  replace (1.5 =? 1)%float with false by (vm_compute; reflexivity).
  cbv zeta. rewrite Hpow. reflexivity.
Qed.

Lemma C4_overflow_before_the_cap_witness :
  (2 ^ 1024 * 2 ^ 1751 < 3 ^ 1751)%Z /\
  @calculate_rate_limit_delay rounding_pow 1751 None None None
  = Raise OverflowError /\
  min2 (3.0 * infinity)%float 300.0%float = 300.0%float.
Proof.
  apply (@C4_overflow_before_the_cap rounding_pow).
  vm_compute. reflexivity.
Defined.

(** With a [pow] that rounds as IEEE 754 asks, the defaults reach the cap
    at the twelfth error and keep it up to [error_count = 1750]; the next
    count raises. The three calls of [tests/test_utils.py] give what the
    tests expect. *)
Example cap_holds_up_to_1750 :
  @calculate_rate_limit_delay rounding_pow 11 None None None
  = Ok 259.492675781250%float /\
  @calculate_rate_limit_delay rounding_pow 12 None None None
  = Ok 300.0%float /\
  @calculate_rate_limit_delay rounding_pow 1750 None None None
  = Ok 300.0%float /\
  @calculate_rate_limit_delay rounding_pow 1751 None None None
  = Raise OverflowError /\
  @calculate_rate_limit_delay rounding_pow 1 (Some 3.0%float)
    (Some 1.5%float) None = Ok 4.5%float /\
  @calculate_rate_limit_delay rounding_pow 3 (Some 3.0%float)
    (Some 2.0%float) None = Ok 24.0%float /\
  @calculate_rate_limit_delay rounding_pow 10 (Some 3.0%float)
    (Some 2.0%float) (Some 100.0%float) = Ok 100.0%float.
Proof. vm_compute. repeat split. Qed.

(** The result never exceeds the cap: whenever the function returns, the
    delay returned is not greater than [max_delay], whatever the power is
    (also infinite or NaN). *)
Theorem delay_is_capped `{Libm} (error_count : Z)
    (base_delay multiplier max_delay : option float) (delay : float) :
  calculate_rate_limit_delay error_count base_delay multiplier max_delay
  = Ok delay ->
  (default 300.0%float max_delay <? delay)%float = false.
Proof.
  unfold calculate_rate_limit_delay.
  destruct (float_pow _ error_count) as [p | e]; [| discriminate].
  cbn [mbind result_bind]. intros [= <-]. unfold min2.
  set (mx := default 300.0%float max_delay).
  set (d := (default 3.0%float base_delay * p)%float).
  destruct (mx <? d)%float eqn:Hlt;
    [apply Binary64.ltb_irrefl | exact Hlt].
Qed.

Lemma delay_is_capped_witness :
  (default 300.0%float (Some 10%float) <? 10%float)%float = false.
Proof.
  apply (@delay_is_capped no_libm 0 (Some 20%float) None (Some 10%float)).
  vm_compute. reflexivity.
Defined.

(** *** [parse_profile_list_file] *)

Section ParseProfileList.
Context `{UrlLib}.

Lemma validate_username_raises s e :
  validate_username s = Raise e -> exists why, e = ValueError why.
Proof.
  unfold validate_username. destruct s as [| c s']; [intros [= <-]; eauto |].
  repeat match goal with
  | |- (if ?b then _ else _) = _ -> _ => destruct b
  end; intros [= <-]; eauto.
Qed.

(** [extract_username_from_url] raises nothing but [ValueError]. *)
Lemma extract_username_raises url e :
  extract_username_from_url url = Raise e -> exists why, e = ValueError why.
Proof.
  unfold extract_username_from_url.
  set (u := strip url).
  assert (Hfail : forall e',
    @Raise pystr (ValueError (CannotExtract u)) = Raise e' ->
    exists why, e' = ValueError why) by (intros e' [= <-]; eauto).
  repeat first
    [ apply validate_username_raises
    | apply Hfail
    | match goal with
      | |- (if ?b then _ else _) = _ -> _ => destruct b
      | |- match ?x with _ => _ end = _ -> _ => destruct x
      | |- Raise _ = Raise _ -> _ => intros [= <-]; eauto
      end ].
Qed.

Lemma parse_lines_spec lines :
  forall n profiles log,
    parse_lines lines n profiles log
    = (log ++ rejected_lines n lines, Ok (profiles ++ valid_profiles lines)).
Proof.
  induction lines as [| line rest IH]; intros n profiles log.
  - cbn. rewrite !app_nil_r. reflexivity.
  - unfold rejected_lines, valid_profiles.
    cbn [length]. rewrite Nat2Z.inj_succ, seqZ_cons by lia.
    replace (Z.pred (Z.succ (Z.of_nat (length rest))))
      with (Z.of_nat (length rest)) by lia.
    replace (Z.succ n) with (n + 1) by lia.
    cbn [parse_lines zip zip_with omap list_omap].
    unfold kept_name at 1, logged_line at 1. cbn [fst snd].
    destruct (strip line) as [| c l] eqn:Hline.
    + cbn [orb]. rewrite IH. reflexivity.
    + cbn [orb].
      destruct (startswith (lit "#") (c :: l)); [rewrite IH; reflexivity |].
      destruct (extract_username_from_url (c :: l)) as [u | e] eqn:Hex.
      * rewrite IH. unfold valid_profiles.
        rewrite <- app_assoc. reflexivity.
      * destruct (extract_username_raises _ _ Hex) as [why ->].
        rewrite IH. unfold rejected_lines.
        rewrite <- app_assoc. reflexivity.
Qed.

End ParseProfileList.


(** *** What [validate_username] returns *)

Lemma validate_username_cases (s : pystr) :
  (valid_name (strip s) = true /\
   validate_username s = Ok (lower (strip s)))
  \/
  (valid_name (strip s) = false /\
   exists why, validate_username s = Raise (ValueError why)).
Proof.
  unfold validate_username, valid_name.
  destruct s as [| c s'].
  { right. split; [reflexivity | eauto]. }
  rewrite (re_match_allowed_strip (c :: s')).
  set (t := strip (c :: s')).
  destruct (Nat.ltb_spec (length t) 1) as [Hlo | Hlo].
  { right. cbn [orb]. split; [| eauto].
    destruct (Nat.leb_spec 1 (length t)); [lia | reflexivity]. }
  destruct (Nat.ltb_spec 30 (length t)) as [Hhi | Hhi].
  { right. cbn [orb]. split; [| eauto].
    destruct (Nat.leb_spec (length t) 30); [lia |].
    rewrite andb_false_r. reflexivity. }
  cbn [orb].
  destruct (Nat.leb_spec 1 (length t)); [| lia].
  destruct (Nat.leb_spec (length t) 30); [| lia].
  cbn [andb].
  destruct t as [| a t'] eqn:Ht; [cbn in Hlo; lia |].
  destruct (forallb allowed_char (a :: t')) eqn:Hall; cbn [negb andb];
    [| right; split; [reflexivity | eauto]].
  destruct (startswith (lit ".") (a :: t')); cbn [negb andb];
    [right; split; [reflexivity | eauto] |].
  destruct (endswith (lit ".") (a :: t')); cbn [negb];
    [right; split; [reflexivity | eauto] |].
  left. split; reflexivity.
Qed.

Lemma validate_username_ok s u :
  validate_username s = Ok u ->
  valid_name (strip s) = true /\ u = lower (strip s).
Proof.
  intros Hv.
  destruct (validate_username_cases s) as [[Hvalid Heq] | [_ [why Heq]]];
    rewrite Heq in Hv; [| discriminate].
  injection Hv as <-. split; [exact Hvalid | reflexivity].
Qed.

Lemma validate_username_valid s :
  valid_name (strip s) = true -> validate_username s = Ok (lower (strip s)).
Proof.
  intros Hv.
  destruct (validate_username_cases s) as [[_ Heq] | [Hinv _]];
    [exact Heq | congruence].
Qed.

Lemma allowed_range c : allowed_char c = true -> (46 <= c <= 122)%N.
Proof.
  unfold allowed_char. intros Ha.
  repeat match type of Ha with
  | context [(?a <=? ?b)%N] => destruct (N.leb_spec a b)
  | context [(?a =? ?b)%N] => destruct (N.eqb_spec a b)
  end; try discriminate Ha; lia.
Qed.

Lemma allowed_not_whitespace c :
  allowed_char c = true -> is_whitespace c = false.
Proof.
  unfold allowed_char, is_whitespace. intros Ha.
  assert (Hr : (33 <= c <= 122)%N).
  { repeat match type of Ha with
    | context [(?a <=? ?b)%N] => destruct (N.leb_spec a b)
    | context [(?a =? ?b)%N] => destruct (N.eqb_spec a b)
    end; try discriminate Ha; lia. }
  repeat match goal with
  | |- context [(?a <=? ?b)%N] => destruct (N.leb_spec a b); try lia
  | |- context [(?a =? ?b)%N] => destruct (N.eqb_spec a b); try lia
  end; reflexivity.
Qed.

Lemma allowed_lower_char c : allowed_char (lower_char c) = allowed_char c.
Proof.
  unfold lower_char.
  destruct ((65 <=? c) && (c <=? 90))%N eqn:Hup; [| reflexivity].
  apply andb_true_iff in Hup as [H1 H2].
  apply N.leb_le in H1, H2.
  unfold allowed_char.
  replace (97 <=? c + 32)%N with true by (symmetry; apply N.leb_le; lia).
  replace (c + 32 <=? 122)%N with true by (symmetry; apply N.leb_le; lia).
  replace (65 <=? c)%N with true by (symmetry; apply N.leb_le; lia).
  replace (c <=? 90)%N with true by (symmetry; apply N.leb_le; lia).
  cbn [andb orb]. rewrite !orb_true_r. reflexivity.
Qed.

Lemma lower_char_idem c : lower_char (lower_char c) = lower_char c.
Proof.
  unfold lower_char.
  destruct ((65 <=? c) && (c <=? 90))%N eqn:Hup; [| rewrite Hup; reflexivity].
  apply andb_true_iff in Hup as [H1 H2].
  apply N.leb_le in H1, H2.
  replace (c + 32 <=? 90)%N with false by (symmetry; apply N.leb_gt; lia).
  rewrite andb_false_r. reflexivity.
Qed.

Lemma lower_char_dot c : (46 =? lower_char c)%N = (46 =? c)%N.
Proof.
  unfold lower_char.
  destruct ((65 <=? c) && (c <=? 90))%N eqn:Hup; [| reflexivity].
  apply andb_true_iff in Hup as [H1 H2].
  apply N.leb_le in H1, H2.
  replace (46 =? c + 32)%N with false by (symmetry; apply N.eqb_neq; lia).
  symmetry. apply N.eqb_neq. lia.
Qed.

Lemma startswith_dot_lower t :
  startswith (lit ".") (lower t) = startswith (lit ".") t.
Proof.
  destruct t as [| a t']; [reflexivity |].
  cbn. rewrite !andb_true_r. apply lower_char_dot.
Qed.

Lemma endswith_dot_lower t :
  endswith (lit ".") (lower t) = endswith (lit ".") t.
Proof.
  unfold endswith, lower. rewrite <- map_rev. apply startswith_dot_lower.
Qed.

Lemma lstrip_by_none p s :
  forallb (fun c => negb (p c)) s = true -> lstrip_by p s = s.
Proof.
  destruct s as [| a s']; [reflexivity |].
  cbn. intros Hall. apply andb_true_iff in Hall as [Ha _].
  destruct (p a); [discriminate | reflexivity].
Qed.

Lemma strip_none s :
  forallb (fun c => negb (is_whitespace c)) s = true -> strip s = s.
Proof.
  intros Hall. unfold strip, rstrip_by.
  rewrite (lstrip_by_none _ s Hall).
  rewrite lstrip_by_none; [apply rev_involutive |].
  rewrite forallb_forall in *. intros c Hc. apply Hall.
  apply in_rev. exact Hc.
Qed.

Lemma valid_name_lower t : valid_name (lower t) = valid_name t.
Proof.
  unfold valid_name.
  rewrite startswith_dot_lower, endswith_dot_lower.
  unfold lower at 1 2. rewrite length_map.
  replace (forallb allowed_char (lower t)) with (forallb allowed_char t);
    [reflexivity |].
  unfold lower. induction t as [| a t IH]; [reflexivity |].
  cbn. rewrite allowed_lower_char, IH. reflexivity.
Qed.

Lemma valid_name_strip t : valid_name t = true -> strip t = t.
Proof.
  unfold valid_name. intros Hv.
  rewrite !andb_true_iff in Hv. destruct Hv as [[[_ Hall] _] _].
  apply strip_none.
  rewrite forallb_forall in *. intros c Hc.
  rewrite (allowed_not_whitespace c (Hall c Hc)). reflexivity.
Qed.

Lemma lower_idem t : lower (lower t) = lower t.
Proof.
  unfold lower. rewrite map_map. apply map_ext. apply lower_char_idem.
Qed.

Lemma validate_username_normal (s u : pystr) :
  validate_username s = Ok u ->
  valid_name u = true /\ validate_username u = Ok u.
Proof.
  intros Hv. apply validate_username_ok in Hv as [Hvalid ->].
  rewrite <- valid_name_lower in Hvalid. split; [exact Hvalid |].
  rewrite validate_username_valid;
    rewrite (valid_name_strip _ Hvalid); [| exact Hvalid].
  rewrite lower_idem. reflexivity.
Qed.

(** A name that [validate_username] returns is in normal form: it obeys the
    naming rule itself, stripping and lowering leave it as it is, and
    validating it again returns it unchanged. *)
Theorem validate_username_normal_form (s u : pystr) :
  validate_username s = Ok u ->
  valid_name u = true /\ strip u = u /\ lower u = u /\
  validate_username u = Ok u.
Proof.
  intros Hv. apply validate_username_ok in Hv as [Hvalid ->].
  assert (Hu : valid_name (lower (strip s)) = true)
    by (rewrite valid_name_lower; exact Hvalid).
  assert (Hs : strip (lower (strip s)) = lower (strip s))
    by (apply valid_name_strip; exact Hu).
  repeat split; [exact Hu | exact Hs | apply lower_idem |].
  rewrite validate_username_valid; rewrite Hs; [| exact Hu].
  rewrite lower_idem. reflexivity.
Qed.

Lemma validate_username_normal_form_witness :
  valid_name (lit "user.name_9") = true /\
  strip (lit "user.name_9") = lit "user.name_9" /\
  lower (lit "user.name_9") = lit "user.name_9" /\
  validate_username (lit "user.name_9") = Ok (lit "user.name_9").
Proof.
  apply (validate_username_normal_form (lit "  User.Name_9 ")).
  vm_compute. reflexivity.
Defined.

(** *** What [extract_username_from_url] and the file parser return *)

Section ExtractedNames.
Context `{UrlLib}.

Lemma extract_username_ok url u :
  extract_username_from_url url = Ok u ->
  exists s, validate_username s = Ok u.
Proof.
  unfold extract_username_from_url.
  set (t := strip url).
  repeat first
    [ match goal with
      | |- validate_username ?s = _ -> _ => intros Hv; exists s; exact Hv
      | |- (if ?b then _ else _) = _ -> _ => destruct b
      | |- match ?x with _ => _ end = _ -> _ => destruct x
      | |- Raise _ = Ok _ -> _ => discriminate
      end ].
Qed.

(** Whatever the shape of the input (plain name, mention, URL with or
    without scheme) and whatever [urlparse] returns, a name that
    [extract_username_from_url] returns obeys the naming rule and is in the
    normal form of [validate_username]. *)
Theorem extract_username_is_valid (url u : pystr) :
  extract_username_from_url url = Ok u ->
  valid_name u = true /\ validate_username u = Ok u.
Proof.
  intros Hex. apply extract_username_ok in Hex as [s Hs].
  apply validate_username_normal in Hs as (Hvalid & Hagain).
  split; assumption.
Qed.

Lemma valid_profiles_valid lines u :
  In u (valid_profiles lines) ->
  valid_name u = true /\ validate_username u = Ok u.
Proof.
  unfold valid_profiles. intros Hin.
  apply list_elem_of_In, list_elem_of_omap in Hin as (line & _ & Hkept).
  unfold kept_name in Hkept.
  destruct (strip line) as [| c l]; [discriminate |].
  destruct (startswith (lit "#") (c :: l)); [discriminate |].
  destruct (extract_username_from_url (c :: l)) as [v | e] eqn:Hex;
    [| discriminate].
  injection Hkept as <-.
  apply extract_username_ok in Hex as [s Hs].
  apply validate_username_normal in Hs as (Hvalid & Hagain).
  split; assumption.
Qed.

Lemma kept_or_logged n lines :
  (length (valid_profiles lines) + length (rejected_lines n lines)
   <= length lines)%nat.
Proof.
  unfold valid_profiles, rejected_lines.
  revert n. induction lines as [| line rest IH]; intros n;
    [rewrite seqZ_nil by reflexivity; cbn; lia |].
  cbn [length]. rewrite Nat2Z.inj_succ, seqZ_cons by lia.
  replace (Z.pred (Z.succ (Z.of_nat (length rest))))
    with (Z.of_nat (length rest)) by lia.
  cbn [zip zip_with omap list_omap].
  specialize (IH (Z.succ n)).
  unfold kept_name at 1, logged_line at 1. cbn [fst snd].
  destruct (strip line) as [| c l]; [lia |].
  destruct (startswith (lit "#") (c :: l)); [lia |].
  destruct (extract_username_from_url (c :: l)); cbn [length]; lia.
Qed.

(** When [parse_profile_list_file] returns, the file exists, the list
    returned is not empty, every name in it obeys the naming rule and is in
    normal form, and each line of the file has given at most one name or
    one warning. *)
Theorem parsed_profiles_are_valid (fs : text_files) (file_path : pystr)
    (log : warnings) (profiles : list pystr) :
  parse_profile_list_file fs file_path = (log, Ok profiles) ->
  profiles <> [] /\
  Forall (fun u => valid_name u = true /\ validate_username u = Ok u)
    profiles /\
  exists lines,
    fs !! file_path = Some lines /\
    (length profiles + length log <= length lines)%nat.
Proof.
  unfold parse_profile_list_file.
  destruct (fs !! file_path) as [lines |]; [| discriminate].
  rewrite parse_lines_spec. cbn [app].
  destruct (valid_profiles lines) as [| p ps] eqn:Hvp; [discriminate |].
  intros [= <- <-]. split; [discriminate |]. split.
  - apply Forall_forall. intros u Hu. apply (valid_profiles_valid lines).
    rewrite Hvp. apply list_elem_of_In. exact Hu.
  - exists lines. split; [reflexivity |].
    rewrite <- Hvp. apply kept_or_logged.
Qed.

Lemma startswith_single c a s : startswith [c] (a :: s) = (c =? a)%N.
Proof. cbn [startswith]. apply andb_true_r. Qed.

Lemma contains_slash_allowed u :
  forallb allowed_char u = true -> contains (lit "/") u = false.
Proof.
  induction u as [| a u IH]; [reflexivity |].
  cbn [forallb]. intros Hall. apply andb_true_iff in Hall as [Ha Hu].
  cbn [contains]. rewrite (IH Hu), orb_false_r.
  change (lit "/") with [47%N]. rewrite startswith_single.
  destruct (N.eqb_spec 47 a) as [<- |]; [discriminate Ha | reflexivity].
Qed.

(** A valid name that does not start with [http] is taken as it is. *)
Lemma extract_plain_name u :
  valid_name u = true -> startswith (lit "http") u = false ->
  extract_username_from_url u = validate_username u.
Proof.
  intros Hv Hhttp. unfold extract_username_from_url.
  rewrite (valid_name_strip u Hv), Hhttp.
  unfold valid_name in Hv. rewrite !andb_true_iff in Hv.
  destruct Hv as [[[[Hlen _] Hall] _] _].
  rewrite (contains_slash_allowed u Hall).
  destruct u as [| a u']; [discriminate Hlen |].
  cbn [forallb] in Hall. apply andb_true_iff in Hall as [Ha _].
  replace (startswith (lit "@") (a :: u')) with false; [reflexivity |].
  change (lit "@") with [64%N]. rewrite startswith_single.
  destruct (N.eqb_spec 64 a) as [<- |]; [discriminate Ha | reflexivity].
Qed.

End ExtractedNames.

Lemma extract_username_is_valid_witness :
  valid_name (lit "username2") = true /\
  validate_username (lit "username2") = Ok (lit "username2").
Proof.
  apply (@extract_username_is_valid simple_urlparse
           (lit "https://instagram.com/Username2/")).
  vm_compute. reflexivity.
Defined.

Lemma parsed_profiles_are_valid_witness :
  [lit "username1"; lit "username2"; lit "username3"] <> [] /\
  Forall (fun u => valid_name u = true /\ validate_username u = Ok u)
    [lit "username1"; lit "username2"; lit "username3"] /\
  exists lines,
    ({[ lit "profiles.txt" := profiles_txt ]} : text_files)
      !! lit "profiles.txt" = Some lines /\
    (length [lit "username1"; lit "username2"; lit "username3"]
     + length ([] : warnings) <= length lines)%nat.
Proof.
  apply (@parsed_profiles_are_valid simple_urlparse
           {[ lit "profiles.txt" := profiles_txt ]} (lit "profiles.txt")).
  vm_compute. reflexivity.
Defined.

Lemma forallb_rev_true {A} (f : A -> bool) l :
  forallb f l = true -> forallb f (rev l) = true.
Proof.
  rewrite !forallb_forall. intros Hall x Hx. apply Hall.
  apply in_rev. exact Hx.
Qed.

(** *** Stripping lines *)

Lemma lstrip_by_snoc p l c :
  p c = false -> exists r, lstrip_by p (l ++ [c]) = r ++ [c].
Proof.
  intros Hc. induction l as [| a l IH].
  - exists []. cbn. rewrite Hc. reflexivity.
  - cbn. destruct (p a); [exact IH | exists (a :: l); reflexivity].
Qed.

(** A line that starts with a character that is not white space keeps it. *)
Lemma strip_head c s :
  is_whitespace c = false -> exists r, strip (c :: s) = c :: r.
Proof.
  intros Hc. unfold strip, rstrip_by. cbn [lstrip_by]. rewrite Hc.
  cbn [rev].
  destruct (lstrip_by_snoc is_whitespace (rev s) c Hc) as [r ->].
  exists (rev r). rewrite rev_app_distr. reflexivity.
Qed.

(** A name without white space, followed by a line end. *)
Lemma strip_newline u :
  forallb (fun c => negb (is_whitespace c)) u = true ->
  strip (u ++ [10%N]) = u.
Proof.
  intros Hu. unfold strip, rstrip_by.
  assert (Hl : lstrip_by is_whitespace (u ++ [10%N])
               = match u with [] => [] | _ => u ++ [10%N] end).
  { destruct u as [| a u']; [reflexivity |].
    cbn in Hu. apply andb_true_iff in Hu as [Ha _].
    cbn. destruct (is_whitespace a); [discriminate | reflexivity]. }
  rewrite Hl. destruct u as [| a u']; [reflexivity |].
  remember (a :: u') as v eqn:Ev.
  rewrite rev_app_distr.
  change (rev [10%N] ++ rev v) with (10%N :: rev v). cbn [lstrip_by].
  change (is_whitespace 10%N) with true. cbv iota.
  rewrite lstrip_by_none; [apply rev_involutive |].
  apply forallb_rev_true. exact Hu.
Qed.




(** *** The file parser, line by line *)

Section ProfileList.
Context `{UrlLib}.



End ProfileList.

(** *** [truncate_string] and [safe_filename] *)

Lemma len_nonneg s : 0 <= len s.
Proof. unfold len. lia. Qed.

Lemma len_app s t : len (s ++ t) = len s + len t.
Proof. unfold len. rewrite length_app. lia. Qed.

Lemma slice_to_take k s :
  0 <= k <= len s -> slice_to k s = take (Z.to_nat k) s /\ len (slice_to k s) = k.
Proof.
  unfold slice_to, len. intros Hk.
  destruct (Z.leb_spec 0 k); [| lia].
  split; [reflexivity |]. rewrite length_take. lia.
Qed.

Lemma startswith_app p r : startswith p (p ++ r) = true.
Proof.
  induction p as [| a p IH]; [reflexivity |].
  cbn. rewrite N.eqb_refl. exact IH.
Qed.

Lemma endswith_app r sfx : endswith sfx (r ++ sfx) = true.
Proof. unfold endswith. rewrite rev_app_distr. apply startswith_app. Qed.

(** When the suffix is not longer than [max_length], the result of
    [truncate_string] is never longer than [max_length]: a text that fits
    is returned as it is, and a longer one becomes exactly [max_length]
    characters, the first characters of the text followed by the suffix. *)
Theorem truncate_string_fits (text : pystr) (max_length : option Z)
    (suffix : option pystr) :
  let m := default 50 max_length in
  let sfx := default (lit "...") suffix in
  len sfx <= m ->
  len (truncate_string text max_length suffix) <= m /\
  (len text <= m -> truncate_string text max_length suffix = text) /\
  (m < len text ->
   len (truncate_string text max_length suffix) = m /\
   truncate_string text max_length suffix
   = take (Z.to_nat (m - len sfx)) text ++ sfx /\
   endswith sfx (truncate_string text max_length suffix) = true).
Proof.
  intros m sfx Hsfx. unfold truncate_string. fold m sfx.
  pose proof (len_nonneg sfx) as Hs0.
  destruct (Z.leb_spec (len text) m) as [Hfit | Hlong].
  - split; [exact Hfit |]. split; [reflexivity | lia].
  - destruct (slice_to_take (m - len sfx) text) as [Htake Hlen]; [lia |].
    assert (Htotal : len (slice_to (m - len sfx) text ++ sfx) = m)
      by (rewrite len_app, Hlen; lia).
    split; [lia |]. split; [lia |]. intros _.
    split; [exact Htotal |]. split; [rewrite Htake; reflexivity |].
    apply endswith_app.
Qed.

Lemma truncate_string_fits_witness :
  len (truncate_string (lit "very long string here") (Some 10) None) <= 10 /\
  (len (lit "very long string here") <= 10 ->
   truncate_string (lit "very long string here") (Some 10) None
   = lit "very long string here") /\
  (10 < len (lit "very long string here") ->
   len (truncate_string (lit "very long string here") (Some 10) None) = 10 /\
   truncate_string (lit "very long string here") (Some 10) None
   = take (Z.to_nat (10 - len (lit "..."))) (lit "very long string here")
     ++ lit "..." /\
   endswith (lit "...")
     (truncate_string (lit "very long string here") (Some 10) None) = true).
Proof.
  apply (truncate_string_fits (lit "very long string here") (Some 10) None).
  vm_compute. discriminate.
Defined.

(** A suffix longer than [max_length] breaks the bound: the slice then
    counts from the end of the text. *)
Example truncate_string_long_suffix :
  truncate_string (lit "abcdef") (Some 2) None = lit "abcde...".
Proof. vm_compute. reflexivity. Qed.

Lemma splitext_parts p :
  (splitext p).1 ++ (splitext p).2 = p.
Proof.
  unfold splitext.
  destruct (_ && _); cbn [fst snd]; [apply take_drop | apply app_nil_r].
Qed.

Lemma forallb_take {A} (f : A -> bool) n l :
  forallb f l = true -> forallb f (take n l) = true.
Proof.
  revert n. induction l as [| a l IH]; intros [| n]; try reflexivity.
  cbn. intros Hall. apply andb_true_iff in Hall as [Ha Hl].
  rewrite Ha. apply IH, Hl.
Qed.

Lemma forallb_lstrip_by (f : codepoint -> bool) p l :
  forallb f l = true -> forallb f (lstrip_by p l) = true.
Proof.
  induction l as [| a l IH]; [reflexivity |].
  intros Hall. cbn [lstrip_by].
  destruct (p a); [| exact Hall].
  apply IH. cbn in Hall. apply andb_true_iff in Hall as [_ Hl]. exact Hl.
Qed.

Lemma forallb_rev {A} (f : A -> bool) l :
  forallb f l = true -> forallb f (rev l) = true.
Proof.
  rewrite !forallb_forall. intros Hall x Hx. apply Hall.
  apply in_rev. exact Hx.
Qed.

Lemma forallb_strip f s : forallb f s = true -> forallb f (strip s) = true.
Proof.
  intros Hall. unfold strip, rstrip_by.
  apply forallb_rev, forallb_lstrip_by, forallb_rev, forallb_lstrip_by.
  exact Hall.
Qed.

Lemma re_sub_invalid_clean filename :
  forallb (fun c => negb (invalid_char c)) (re_sub_invalid filename) = true.
Proof.
  unfold re_sub_invalid. induction filename as [| c s IH]; [reflexivity |].
  cbn [map forallb]. rewrite IH, andb_true_r.
  destruct (invalid_char c) eqn:Hc; [reflexivity | rewrite Hc; reflexivity].
Qed.

(** [safe_filename] never returns one of the characters it is there to
    remove. A name that fits after cleaning is the cleaned, stripped name.
    A longer one, when its extension is not longer than [max_length], is cut
    to exactly [max_length] characters: the first characters of the cleaned
    name followed by the whole extension. *)
Theorem safe_filename_spec (filename : pystr) (max_length : option Z) :
  let m := default 255 max_length in
  let cleaned := strip (re_sub_invalid filename) in
  let ext := (splitext cleaned).2 in
  forallb (fun c => negb (invalid_char c)) (safe_filename filename max_length)
  = true /\
  (len cleaned <= m -> safe_filename filename max_length = cleaned) /\
  (m < len cleaned -> len ext <= m ->
   len (safe_filename filename max_length) = m /\
   safe_filename filename max_length
   = take (Z.to_nat (m - len ext)) cleaned ++ ext).
Proof.
  intros m cleaned ext.
  assert (Hclean : forallb (fun c => negb (invalid_char c)) cleaned = true)
    by (apply forallb_strip, re_sub_invalid_clean).
  unfold safe_filename. fold m cleaned.
  pose proof (splitext_parts cleaned) as Hparts.
  fold ext in Hparts. unfold ext in *.
  destruct (splitext cleaned) as [name e] eqn:Hsplit. cbn [fst snd] in *.
  assert (Hname : forallb (fun c => negb (invalid_char c)) name = true /\
                  forallb (fun c => negb (invalid_char c)) e = true).
  { rewrite <- Hparts, forallb_app in Hclean.
    apply andb_true_iff in Hclean. exact Hclean. }
  destruct Hname as [Hname He].
  destruct (Z.ltb_spec m (len cleaned)) as [Hlong | Hfit].
  - split; [| split; [lia |]].
    + rewrite forallb_app, He, andb_true_r.
      unfold slice_to. destruct (0 <=? m - len e); apply forallb_take, Hname.
    + intros _ Hext.
      assert (Hlen : len cleaned = len name + len e)
        by (rewrite <- Hparts; apply len_app).
      pose proof (len_nonneg name). pose proof (len_nonneg e).
      destruct (slice_to_take (m - len e) name) as [Htake Hl]; [lia |].
      split; [rewrite len_app, Hl; lia |].
      rewrite Htake. f_equal.
      rewrite <- Hparts. rewrite take_app_le; [reflexivity |].
      unfold len in *. lia.
  - split; [exact Hclean |]. split; [reflexivity | lia].
Qed.

(** [test_safe_filename_max_length] *)
Lemma safe_filename_spec_witness :
  forallb (fun c => negb (invalid_char c)) (safe_filename long_name None)
  = true /\
  len (safe_filename long_name None) = 255 /\
  safe_filename long_name None = repeat 97%N 251 ++ lit ".txt".
Proof.
  destruct (safe_filename_spec long_name None) as (Hclean & _ & Hcut).
  destruct Hcut as [Hlen Heq]; [vm_compute; reflexivity
                               | vm_compute; discriminate |].
  split; [exact Hclean |]. split; [exact Hlen |].
  rewrite Heq. vm_compute. reflexivity.
Defined.

(** An extension longer than [max_length] is kept whole, so the result is
    longer than [max_length]. *)
Example safe_filename_long_extension :
  safe_filename (lit "a.extension") (Some 5) = lit ".extension".
Proof. vm_compute. reflexivity. Qed.

End UtilsProps.

(** ** [src/auth.py] *)

Module AuthProps.
Import Auth.

(** *** UTF-8 *)

Ltac Zify.zify_post_hook ::= Z.to_euclidean_division_equations.

(** Settles the comparisons of the goal one by one. *)
Ltac decide_tests :=
  repeat match goal with
  | |- context [(?a <? ?b)%N] =>
      first [ replace (a <? b)%N with true
                by (symmetry; apply N.ltb_lt; lia)
            | replace (a <? b)%N with false
                by (symmetry; apply N.ltb_ge; lia) ]
  | |- context [(?a <=? ?b)%N] =>
      first [ replace (a <=? b)%N with true
                by (symmetry; apply N.leb_le; lia)
            | replace (a <=? b)%N with false
                by (symmetry; apply N.leb_gt; lia) ]
  end.

Lemma scalar_value c :
  ((c <? 55296) || (57343 <? c) && (c <? 1114112))%N = true ->
  (c < 55296 \/ 57343 < c < 1114112)%N.
Proof.
  destruct (N.ltb_spec c 55296); [auto |].
  destruct (N.ltb_spec 57343 c); [| discriminate].
  destruct (N.ltb_spec c 1114112); [auto | discriminate].
Qed.

Lemma utf8_decode_encode_char c rest :
  ((c <? 55296) || (57343 <? c) && (c <? 1114112))%N = true ->
  exists bs,
    utf8_encode_char c = Some bs /\
    utf8_decode (bs ++ rest) = (s ← utf8_decode rest; Ok (c :: s)).
Proof.
  intros Hc. apply scalar_value in Hc. unfold utf8_encode_char.
  destruct (N.ltb_spec c 128) as [H1 | H1].
  { eexists. split; [reflexivity |]. cbn [app utf8_decode].
    decide_tests. reflexivity. }
  destruct (N.ltb_spec c 2048) as [H2 | H2].
  { eexists. split; [reflexivity |]. cbn [app utf8_decode].
    unfold continuation.
    replace ((192 + c / 64 - 192) * 64 + (128 + c mod 64 - 128))%N
      with c by lia.
    decide_tests. reflexivity. }
  destruct (N.leb_spec 55296 c) as [H5 | H5];
    [destruct (N.leb_spec c 57343) as [H6 | H6]; [lia |] |]; cbn [andb].
  - (* above the surrogates *)
    destruct (N.ltb_spec c 65536) as [H3 | H3].
    + eexists. split; [reflexivity |]. cbn [app utf8_decode].
      unfold continuation.
      replace ((224 + c / 4096 - 224) * 4096
               + (128 + (c / 64) mod 64 - 128) * 64
               + (128 + c mod 64 - 128))%N with c by lia.
      decide_tests. reflexivity.
    + eexists. split; [reflexivity |]. cbn [app utf8_decode].
      unfold continuation.
      replace ((240 + c / 262144 - 240) * 262144
               + (128 + (c / 4096) mod 64 - 128) * 4096
               + (128 + (c / 64) mod 64 - 128) * 64
               + (128 + c mod 64 - 128))%N with c by lia.
      decide_tests. reflexivity.
  - (* below the surrogates *)
    destruct (N.ltb_spec c 65536) as [H3 | H3]; [| lia].
    eexists. split; [reflexivity |]. cbn [app utf8_decode].
    unfold continuation.
    replace ((224 + c / 4096 - 224) * 4096
             + (128 + (c / 64) mod 64 - 128) * 64
             + (128 + c mod 64 - 128))%N with c by lia.
    decide_tests. reflexivity.
Qed.

(** Decoding what [encode] produced gives the string back. *)
Lemma utf8_decode_encode s :
  encodable s = true ->
  exists bs, utf8_encode s = Ok bs /\ utf8_decode bs = Ok s.
Proof.
  induction s as [| c s IH]; intros Hs.
  - exists []. split; reflexivity.
  - cbn in Hs. apply andb_true_iff in Hs as [Hc Hs].
    destruct (IH Hs) as (bs' & Henc & Hdec).
    destruct (utf8_decode_encode_char c bs' Hc) as (bs & Hb & Hd).
    exists (bs ++ bs'). cbn [utf8_encode]. rewrite Hb, Henc.
    split; [reflexivity |]. rewrite Hd, Hdec. reflexivity.
Qed.

(** *** Key derivation *)

(** C5, as stated, fails for the case without password: when
    [SESSION_ENCRYPTION_KEY] is set, [_derive_key(None)] returns the encoded
    variable itself, whatever the key-derivation function is, and the
    instance is built on it; the key the KDF derives from the machine
    passphrase is another one. *)
Lemma C5_env_key_bypasses_kdf :
  (forall Hh : Hashlib, _derive_key env_with_key None = Ok session_key) /\
  @init toy_hashlib toy_fernet env_with_key None
  = Ok {| key := session_key; fernet_obj := session_key : @fernet toy_fernet |} /\
  @kdf_key toy_hashlib (machine_passphrase env_with_key) <> Ok session_key.
Proof.
  split; [intros Hh; vm_compute; reflexivity |].
  split; [vm_compute; reflexivity |].
  vm_compute. discriminate.
Qed.

(** C5 (amended): the key of every [SessionEncryption] instance is the
    urlsafe base64 form of PBKDF2-HMAC-SHA256 over the UTF-8 password with
    the salt [b'instagram_downloader_salt_v1'] and 100000 iterations when a
    password is supplied; without password, it is the UTF-8 form of the
    environment variable [SESSION_ENCRYPTION_KEY], taken as it is, when that
    variable is set and not empty, and otherwise the same derivation applied
    to the passphrase [ig_downloader_<system user>_secret]. *)
Theorem C5_key_derivation `{Hashlib} `{FernetLib} (env : environ)
    (password : option pystr) (self : SessionEncryption) :
  init env password = Ok self ->
  match password with
  | Some p =>
      exists encoded,
        utf8_encode p = Ok encoded /\
        key self
        = urlsafe_b64encode (pbkdf2_hmac "sha256" encoded kdf_salt 100000)
  | None =>
      match getenv env "SESSION_ENCRYPTION_KEY" with
      | Some (c :: k) => utf8_encode (c :: k) = Ok (key self)
      | _ =>
          exists encoded,
            utf8_encode (machine_passphrase env) = Ok encoded /\
            key self
            = urlsafe_b64encode (pbkdf2_hmac "sha256" encoded kdf_salt 100000)
      end
  end.
Proof.
  unfold init. intros Hinit.
  assert (Hkey : _derive_key env password = Ok (key self)).
  { destruct (_derive_key env password) as [k |]; [| discriminate].
    cbn in Hinit. destruct (Fernet k); [| discriminate].
    cbn in Hinit. injection Hinit as <-. reflexivity. }
  clear Hinit. unfold _derive_key in Hkey.
  assert (Hkdf : forall p, kdf_key p = Ok (key self) ->
    exists encoded,
      utf8_encode p = Ok encoded /\
      key self
      = urlsafe_b64encode (pbkdf2_hmac "sha256" encoded kdf_salt 100000)).
  { intros p. unfold kdf_key.
    destruct (utf8_encode p) as [encoded |]; [| discriminate].
    cbn. intros [= <-]. eauto. }
  destruct password as [p |]; [auto |].
  destruct (getenv env "SESSION_ENCRYPTION_KEY") as [[| c k] |]; auto.
Qed.

Lemma C5_key_derivation_witness :
  exists encoded,
    utf8_encode (lit "secret") = Ok encoded /\
    key toy_session
    = urlsafe_b64encode
        (@pbkdf2_hmac toy_hashlib "sha256" encoded kdf_salt 100000).
Proof.
  apply (@C5_key_derivation toy_hashlib toy_fernet ∅ (Some (lit "secret"))
           toy_session).
  vm_compute. reflexivity.
Defined.

(** *** Encryption round trip *)

Lemma toy_fernet_correct : fernet_correct toy_fernet.
Proof.
  intros f r m. cbn.
  rewrite take_app_length, drop_app_length.
  case_decide; [reflexivity | congruence].
Qed.

(** C8, as stated, fails: a Python string may hold a lone surrogate, which
    [data.encode()] refuses, so [encrypt] raises [UnicodeEncodeError] on it
    for every instance (one such instance is [toy_session]). *)
Lemma C8_surrogate_cannot_be_encrypted :
  (forall (F : FernetLib) (self : SessionEncryption) (r : fernet_entropy),
     encrypt self r [55296%N] = Raise UnicodeEncodeError) /\
  @init toy_hashlib toy_fernet ∅ (Some (lit "secret")) = Ok toy_session.
Proof.
  split; [intros F self r; reflexivity |].
  vm_compute. reflexivity.
Qed.

(** C8 (amended): for every string [data] that UTF-8 can encode (no lone
    surrogate) and every password (also [None], in any fixed environment),
    a [SessionEncryption] constructed with that password satisfies
    [decrypt(encrypt(data)) = data], Fernet being correct. *)
Theorem C8_encrypt_decrypt `{Hashlib} `{F : FernetLib} (env : environ)
    (password : option pystr) (self : SessionEncryption)
    (r : fernet_entropy) (data : pystr) :
  fernet_correct F ->
  init env password = Ok self ->
  encodable data = true ->
  exists token,
    encrypt self r data = Ok token /\ decrypt self token = Ok data.
Proof.
  intros Hfernet _ Hdata.
  destruct (utf8_decode_encode data Hdata) as (encoded & Henc & Hdec).
  unfold encrypt, decrypt. rewrite Henc. cbn.
  eexists. split; [reflexivity |].
  rewrite Hfernet. cbn. exact Hdec.
Qed.

Lemma C8_encrypt_decrypt_witness :
  exists token,
    @encrypt toy_fernet toy_session tt [104; 233; 8364; 128512]%N = Ok token /\
    decrypt toy_session token = Ok [104; 233; 8364; 128512]%N.
Proof.
  apply (@C8_encrypt_decrypt toy_hashlib toy_fernet ∅ (Some (lit "secret"))).
  - exact toy_fernet_correct.
  - vm_compute. reflexivity.
  - vm_compute. reflexivity.
Defined.

(** *** [AuthManager._save_session] *)

Section SaveSession.
Context `{Instaloader} `{FernetLib}.

Lemma chmod_files path mode w : files (chmod path mode w).1 = files w.
Proof. unfold chmod. destruct (files w !! path); reflexivity. Qed.

(** [try: os.chmod(...) except: ...] never raises and leaves the contents of
    the files alone. *)
Lemma try_chmod_files path mode (h : exn -> io unit) w :
  (forall e w0, (h e w0).2 = Ok tt /\ files (h e w0).1 = files w0) ->
  (try_except (chmod path mode) h w).2 = Ok tt /\
  files (try_except (chmod path mode) h w).1 = files w.
Proof.
  intros Hh. unfold try_except, chmod.
  destruct (files w !! path); cbn; [auto |]. apply Hh.
Qed.

Lemma write_file_ok path c w w' r :
  write_file path c w = (w', r) ->
  match r with
  | Ok _ => files w' = <[path := c]> (files w) /\
            now_isoformat w' = now_isoformat w
  | Raise _ => w' = w
  end.
Proof.
  unfold write_file. case_decide; intros [= <- <-]; auto.
Qed.

(** When the body of the [try] completes, the last write to the file system
    is the metadata document. *)
Lemma _save_session_try_metadata (self : AuthManager) (username : pystr)
    (r : fernet_entropy) (w w' : world) :
  _save_session_try self username r w = (w', Ok tt) ->
  files w' !! path_join (session_dir self) (lit "session.json")
  = Some (JsonText (JObject
      [("username", JString username);
       ("timestamp", JString (now_isoformat w));
       ("encrypted", JBool (encrypt_sessions self))])).
Proof.
  unfold _save_session_try.
  set (session_file_path :=
         path_join (session_dir self) (lit "session_" ++ username)).
  set (metadata_file := path_join (session_dir self) (lit "session.json")).
  set (doc := JsonText _).
  unfold mbind, io_bind, datetime_now_isoformat.
  destruct (save_session_to_file (am_loader self) session_file_path w)
    as [w1 [[] | e1]]; [| cbv beta iota; intros Hx; discriminate Hx].
  match goal with
  | |- (let (_, _) := ?m w1 in _) = _ -> _ =>
      destruct (m w1) as [w2 [[] | e2]];
        [| cbv beta iota; intros Hx; discriminate Hx]
  end.
  destruct (try_chmod_files session_file_path 384
              (fun e => logger (ChmodWarning e)) w2) as [Hr3 Hf3];
    [intros e w0; split; reflexivity |].
  destruct (try_except (chmod session_file_path 384) _ w2) as [w3 r3].
  cbn in Hr3, Hf3. subst r3.
  match goal with
  | |- (let (_, _) := ?m in _) = _ -> _ =>
      destruct m as [w4 [[] | e4]] eqn:Hw;
        [| cbv beta iota; intros Hx; discriminate Hx]
  end.
  apply write_file_ok in Hw as [Hf4 _].
  destruct (try_chmod_files metadata_file 384 (fun _ => mret tt) w4)
    as [Hr5 Hf5]; [intros e w0; split; reflexivity |].
  destruct (try_except (chmod metadata_file 384) _ w4) as [w5 r5].
  cbn in Hr5, Hf5. subst r5.
  unfold logger. intros [= <-]. cbn [files].
  rewrite Hf5, Hf4. apply lookup_insert_eq.
Qed.

(** C6: whenever [_save_session(username)] completes without error, the
    session directory holds a file [session.json] whose content is the JSON
    object with exactly the three keys [username] (the given user name),
    [timestamp] (the time read at the start of the save) and [encrypted]
    (the manager's [encrypt_sessions] flag). *)
Theorem C6_session_metadata (self : AuthManager) (username : pystr)
    (r : fernet_entropy) (w : world) :
  (_save_session self username r w).2 = true ->
  exists fields,
    files (_save_session self username r w).1
      !! path_join (session_dir self) (lit "session.json")
    = Some (JsonText (JObject fields)) /\
    map fst fields = ["username"; "timestamp"; "encrypted"]%string /\
    map snd fields = [JString username; JString (now_isoformat w);
                      JBool (encrypt_sessions self)].
Proof.
  unfold _save_session.
  destruct (_save_session_try self username r w) as [w' [[] | e]] eqn:Htry;
    [| discriminate].
  intros _. cbn [fst].
  eexists. split; [exact (_save_session_try_metadata _ _ _ _ _ Htry) |].
  split; reflexivity.
Qed.

End SaveSession.

Lemma C6_session_metadata_witness :
  exists fields,
    files (@_save_session toy_instaloader toy_fernet toy_manager
             (lit "alice") tt toy_world).1
      !! lit "data/sessions/session.json"
    = Some (JsonText (JObject fields)) /\
    map fst fields = ["username"; "timestamp"; "encrypted"]%string /\
    map snd fields = [JString (lit "alice");
                      JString (lit "2024-05-01T12:00:00"); JBool true].
Proof.
  apply (@C6_session_metadata toy_instaloader toy_fernet toy_manager
           (lit "alice") tt toy_world).
  vm_compute. reflexivity.
Defined.

(** *** [_load_session] and [logout] *)

Lemma path_join_inj dir a b : path_join dir a = path_join dir b -> a = b.
Proof.
  unfold path_join. intros Heq.
  apply app_inv_head in Heq. apply app_inv_head in Heq. exact Heq.
Qed.

(** The session file of a user is never the metadata file. *)
Lemma session_file_not_metadata dir u :
  path_join dir (lit "session_" ++ u) <> path_join dir (lit "session.json").
Proof. intros Heq. apply path_join_inj in Heq. discriminate Heq. Qed.



Section LoadSession.
Context `{SL : SessionLoader} `{Hh : Hashlib} `{F : FernetLib} `{Pf : PyFormat}.



(** A session that the cipher in use cannot decrypt is refused, and nothing
    changes on disk: when the metadata name a user and say [encrypted], the
    session file exists, and [decrypt] raises for the cipher of the manager
    (or, when it has none, for the default cipher [SessionEncryption()],
    which the manager then keeps), [_load_session] returns [False] and
    leaves the files and the login state as they were. *)
Theorem undecryptable_session_is_refused (self : AuthManager)
    (enc : SessionEncryption) (fields : list (string * json)) (u : pystr)
    (token : bytes) (e : exn) (env : environ) (w : world) :
  files w !! path_join (session_dir self) (lit "session.json")
  = Some (JsonText (JObject fields)) ->
  json_get "username" fields = Some (JString u) -> u <> [] ->
  json_get "encrypted" fields = Some (JBool true) ->
  files w !! path_join (session_dir self) (lit "session_" ++ u)
  = Some (Binary token) ->
  match encryption self with
  | Some own => Ok own
  | None => init env None
  end = Ok enc ->
  decrypt enc token = Raise e ->
  _load_session self env w = (w, (set_encryption enc self, false)) /\
  logged_in (set_encryption enc self) = logged_in self /\
  username (set_encryption enc self) = username self.
Proof.
  intros Hmeta Huser Hu Hflag Hsession Hcipher Hdec.
  split; [| split; reflexivity].
  unfold _load_session. rewrite Hmeta, Huser, Hflag.
  cbn [default truthy format_value negb].
  destruct u as [| c u']; [congruence |]. cbn [truthy negb].
  unfold path_exists. rewrite Hsession. cbn [negb].
  destruct (encryption self) as [own |] eqn:Hown.
  - injection Hcipher as ->.
    unfold _load_encrypted, read_bytes. rewrite Hsession, Hdec.
    unfold set_encryption. rewrite <- Hown. destruct self; reflexivity.
  - rewrite Hcipher.
    unfold _load_encrypted, read_bytes. rewrite Hsession, Hdec. reflexivity.
Qed.

(** [logout] when every removal it attempts is allowed: the metadata file
    and the session file of the user the manager knew are gone, every other
    file is as it was, the manager is logged out, and [_load_session] finds
    nothing to load. When a removal is refused, the [except] swallows the
    error and the manager stays as it was, logged in if it was: either the
    metadata file could not be removed and nothing has changed, or it is
    gone and the session file is still there. *)
Theorem logout_forgets_the_session `{Permissions} (self : AuthManager)
    (env : environ) (w : world) :
  let metadata_file := path_join (session_dir self) (lit "session.json") in
  let w' := (logout self w).1 in
  let self' := (logout self w).2 in
  if logout_permitted self w then
    files w' !! metadata_file = None /\
    (forall c u, username self = Some (c :: u) ->
       files w' !! path_join (session_dir self) (lit "session_" ++ c :: u)
       = None) /\
    (forall p,
       p <> metadata_file ->
       (forall c u, username self = Some (c :: u) ->
          p <> path_join (session_dir self) (lit "session_" ++ c :: u)) ->
       files w' !! p = files w !! p) /\
    logged_in self' = false /\ username self' = None /\
    _load_session self' env w' = (w', (self', false))
  else
    self' = self /\
    ((w' = w /\ path_exists metadata_file w = true /\
      may_unlink metadata_file w = false) \/
     (exists c u,
        let session_file :=
          path_join (session_dir self) (lit "session_" ++ c :: u) in
        username self = Some (c :: u) /\
        w' = without_metadata self w /\
        files w' !! metadata_file = None /\
        path_exists session_file w' = true /\
        may_unlink session_file w' = false)).
Proof.
  intros metadata_file w' self'.
  assert (H1 : files (without_metadata self w)
               = delete metadata_file (files w)).
  { unfold without_metadata, path_exists, unlink. fold metadata_file.
    destruct (files w !! metadata_file) eqn:Hm; [reflexivity |].
    symmetry. apply delete_id. exact Hm. }
  assert (Hremove : forall p w0,
            remove_if_exists p w0
            = if negb (path_exists p w0) || may_unlink p w0
              then (if path_exists p w0 then (unlink p w0).1 else w0, Ok tt)
              else (w0, Raise OSError)).
  { intros p w0. unfold remove_if_exists, unlink_checked, path_exists, unlink.
    destruct (files w0 !! p); cbn [negb orb]; [| reflexivity].
    destruct (may_unlink p w0); reflexivity. }
  assert (Hgone : forall p w0,
            files (if path_exists p w0 then (unlink p w0).1 else w0)
            = delete p (files w0)).
  { intros p w0. unfold path_exists, unlink.
    destruct (files w0 !! p) eqn:Hp; [reflexivity |].
    symmetry. apply delete_id. exact Hp. }
  subst w' self'.
  unfold logout_permitted, logout, logout_try. fold metadata_file.
  unfold mbind, io_bind, mret, io_ret. rewrite (Hremove metadata_file w).
  fold (without_metadata self w).
  destruct (negb (path_exists metadata_file w) || may_unlink metadata_file w)
    eqn:Hfirst; cbn [andb].
  - change (if path_exists metadata_file w
            then (unlink metadata_file w).1 else w)
      with (without_metadata self w).
    set (w1 := without_metadata self w) in *.
    assert (Hload : forall (s' : AuthManager) (w2 : world),
              session_dir s' = session_dir self ->
              files w2 !! metadata_file = None ->
              _load_session s' env w2 = (w2, (s', false))).
    { intros s' w2 Hdir Hnone. unfold _load_session. rewrite Hdir.
      fold metadata_file. rewrite Hnone. reflexivity. }
    destruct (username self) as [[| c u] |] eqn:Hname.
    + cbn [fst snd]. rewrite H1.
      split; [apply lookup_delete_eq |]. split; [intros ? ? [=] |].
      split; [intros p Hp _; apply lookup_delete_ne; congruence |].
      split; [reflexivity |]. split; [reflexivity |].
      apply Hload; [reflexivity |]. rewrite H1. apply lookup_delete_eq.
    + set (session_file :=
             path_join (session_dir self) (lit "session_" ++ c :: u)).
      rewrite (Hremove session_file w1).
      destruct (negb (path_exists session_file w1)
                || may_unlink session_file w1) eqn:Hsecond.
      * cbn [fst snd]. rewrite (Hgone session_file w1), H1.
        assert (Hmeta : delete session_file (delete metadata_file (files w))
                        !! metadata_file = None).
        { rewrite lookup_delete_ne by (apply session_file_not_metadata).
          apply lookup_delete_eq. }
        split; [exact Hmeta |].
        split; [intros c' u' [= <- <-]; apply lookup_delete_eq |].
        split.
        { intros p Hp Hps.
          rewrite !lookup_delete_ne; [reflexivity | congruence |].
          intros Heq. exact (Hps c u eq_refl (eq_sym Heq)). }
        split; [reflexivity |]. split; [reflexivity |].
        apply Hload; [reflexivity |].
        rewrite (Hgone session_file w1), H1. exact Hmeta.
      * cbn [fst snd]. split; [reflexivity |]. right. exists c, u.
        cbv zeta. fold session_file.
        apply orb_false_iff in Hsecond as [Hex Hmay].
        apply negb_false_iff in Hex.
        split; [reflexivity |]. split; [reflexivity |].
        split; [rewrite H1; apply lookup_delete_eq |].
        split; assumption.
    + cbn [fst snd]. rewrite H1.
      split; [apply lookup_delete_eq |]. split; [intros ? ? [=] |].
      split; [intros p Hp _; apply lookup_delete_ne; congruence |].
      split; [reflexivity |]. split; [reflexivity |].
      apply Hload; [reflexivity |]. rewrite H1. apply lookup_delete_eq.
  - cbn [fst snd]. split; [reflexivity |]. left.
    apply orb_false_iff in Hfirst as [Hex Hmay].
    apply negb_false_iff in Hex. auto.
Qed.

End LoadSession.


(** With the stand-ins the round trip ends logged in, the loader holds the
    bytes it had saved, and the temporary file is gone. *)
Example alice_logs_in_again :
  let r := @_load_session _ toy_session_loader toy_hashlib toy_fernet
             toy_format toy_manager ∅ saved_world in
  r.2.2 = true /\ am_loader r.2.1 = [1; 2; 3]%N /\
  username r.2.1 = Some (lit "alice") /\
  files r.1 !! lit "data/sessions/session_alice.tmp" = None /\
  files r.1 = files saved_world.
Proof. vm_compute. repeat split. Qed.

(** The session saved under the key of a password is refused by a new
    process, whose default cipher has another key. *)
Lemma undecryptable_session_is_refused_witness :
  @_load_session _ toy_session_loader toy_hashlib toy_fernet toy_format
    fresh_manager ∅ saved_world
  = (saved_world, (set_encryption default_session fresh_manager, false)) /\
  logged_in (set_encryption default_session fresh_manager)
  = logged_in fresh_manager /\
  username (set_encryption default_session fresh_manager)
  = username fresh_manager.
Proof.
  apply (undecryptable_session_is_refused (SL:=toy_session_loader)
           (Hh:=toy_hashlib) (Pf:=toy_format) fresh_manager default_session
           [("username", JString (lit "alice"));
            ("timestamp", JString (lit "2024-05-01T12:00:00"));
            ("encrypted", JBool true)]
           (lit "alice") (key toy_session ++ [1; 2; 3]%N) InvalidToken ∅
           saved_world).
  - vm_compute. reflexivity.
  - reflexivity.
  - discriminate.
  - reflexivity.
  - vm_compute. reflexivity.
  - vm_compute. reflexivity.
  - vm_compute. reflexivity.
Defined.

(** When the loader refuses the decrypted session, the decrypted bytes stay
    on disk in the temporary file. *)
Example refused_session_stays_decrypted :
  let r := @_load_session _ picky_session_loader toy_hashlib toy_fernet
             toy_format toy_manager ∅ saved_world in
  r.2.2 = false /\
  files r.1 !! lit "data/sessions/session_alice.tmp"
  = Some (Binary [1; 2; 3]%N).
Proof. vm_compute. repeat split. Qed.

(** The temporary file of a user whose name ends in [.tmp] is the session
    file itself: the first load deletes it, and the next finds no session. *)
Example tmp_user_loses_the_session :
  let saved := (@_save_session toy_instaloader toy_fernet toy_manager
                  (lit "a.tmp") tt toy_world).1 in
  let first := @_load_session _ toy_session_loader toy_hashlib toy_fernet
                 toy_format toy_manager ∅ saved in
  let second := @_load_session _ toy_session_loader toy_hashlib toy_fernet
                  toy_format toy_manager ∅ first.1 in
  with_suffix (lit "data/sessions/session_a.tmp") (lit ".tmp")
  = Some (lit "data/sessions/session_a.tmp") /\
  first.2.2 = true /\
  files first.1 !! lit "data/sessions/session_a.tmp" = None /\
  second.2.2 = false.
Proof. vm_compute. repeat split. Qed.

(** The temporary file of a user whose name holds a dot drops what follows
    the dot: [john.doe] decrypts into the file [session_john.tmp], which is
    the session file of the user [john.tmp]. *)
Example dotted_user_shares_the_temporary_file :
  with_suffix (lit "data/sessions/session_john.doe") (lit ".tmp")
  = Some (lit "data/sessions/session_john.tmp").
Proof. vm_compute. reflexivity. Qed.

(** With every removal allowed, [logout] forgets the session of [alice].
    Where the session files are protected the metadata file goes, the
    session file stays, and the manager still counts as logged in. *)
Example refused_logout_stays_logged_in :
  let allowed := @logout _ _ permissive toy_manager saved_world in
  let refused := @logout _ _ protected_sessions toy_manager saved_world in
  path_exists (lit "data/sessions/session.json") allowed.1 = false /\
  path_exists (lit "data/sessions/session_alice") allowed.1 = false /\
  logged_in allowed.2 = false /\ username allowed.2 = None /\
  path_exists (lit "data/sessions/session.json") refused.1 = false /\
  path_exists (lit "data/sessions/session_alice") refused.1 = true /\
  logged_in refused.2 = true /\ username refused.2 = Some (lit "alice").
Proof. vm_compute. repeat split. Qed.

End AuthProps.

(** ** [src/batch.py] *)

Module BatchProps.
Import Batch.




Lemma uninterrupted_app tr1 tr2 :
  uninterrupted (tr1 ++ tr2) = uninterrupted tr1 && uninterrupted tr2.
Proof. apply forallb_app. Qed.

Lemma uninterrupted_sleeps n : uninterrupted (repeat Sleep1 n) = true.
Proof. induction n; [reflexivity | exact IHn]. Qed.

Lemma uninterrupted_expected d usernames :
  uninterrupted (expected_trace d usernames) = true.
Proof.
  induction usernames as [| u rest IH]; [reflexivity |].
  cbn [expected_trace]. destruct rest as [| v rest']; [reflexivity |].
  change (Download u :: ?l) with ([Download u] ++ l).
  rewrite !uninterrupted_app, uninterrupted_sleeps, IH. reflexivity.
Qed.

Section Loop.
Context {W : Type} `{ProfileDownloader W} `{Clock W}.







End Loop.




(** A Ctrl-C during the wait between two profiles is caught by nothing: it
    leaves [download_from_list], which returns no dictionary; the profiles
    after the wait are not downloaded. *)
Example interrupted_sleep_leaves_the_method :
  @download_from_list nat patient_ok third_second (init 5)
    [lit "a"; lit "b"; lit "c"] 0%nat
  = (ByKeyboardInterrupt,
     {| this := {| delay_between := 5; failed_profiles := [];
                   batch_stats := {| total := 3; completed := 1; failed := 0;
                                     skipped := 0 |} |};
        remote := 3%nat;
        trace := [Download (lit "a"); Sleep1; Sleep1; CtrlC] |}).
Proof. vm_compute. reflexivity. Qed.


(** *** [download_from_file] *)

Section FromFile.
Context `{Utils.UrlLib} {W : Type} `{ProfileDownloader W} `{Clock W}.




End FromFile.

(** A Ctrl-C during the wait after a failed profile: [download_from_file]
    is left by the [KeyboardInterrupt], and the failure it had recorded is
    not written to the file of failures, although [save_failed] is set.
    Without the interrupt the file is written. *)
Example interrupted_wait_saves_no_failures :
  let stopped :=
    @download_from_file nat Utils.simple_urlparse never_found third_second
      (init 5) (lit "profiles.txt") true two_profiles 0%nat in
  let finished :=
    @download_from_file nat Utils.simple_urlparse never_found quiet_clock
      (init 5) (lit "profiles.txt") true two_profiles 0%nat in
  stopped.1.1 = ByKeyboardInterrupt /\
  failed_profiles (this stopped.1.2.1)
  = [(lit "user_a", lit "Profil nie istnieje")] /\
  texts stopped.2 !! lit "failed_profiles.txt" = None /\
  (exists r, finished.1.1 = ByReturn (Loaded r) /\
             length (res_failed r) = 2%nat) /\
  texts finished.2 !! lit "failed_profiles.txt" <> None.
Proof.
  vm_compute. repeat split; [eexists; split; reflexivity | discriminate].
Qed.

(** *** The file of failures *)

Lemma readlines_go_line body rest cur :
  one_line body = true ->
  readlines_go (body ++ 10%N :: rest) cur
  = (rev cur ++ body ++ [10%N]) :: readlines_go rest [].
Proof.
  revert cur. induction body as [| c body IH]; intros cur Hb.
  - cbn [app readlines_go]. change (10 =? 10)%N with true. reflexivity.
  - cbn [one_line forallb] in Hb.
    apply andb_true_iff in Hb as [Hc Hb].
    apply andb_true_iff in Hc as [Hn Hr].
    apply negb_true_iff in Hn, Hr.
    cbn [app readlines_go]. rewrite Hn, Hr, (IH _ Hb).
    cbn [rev]. rewrite <- !app_assoc. reflexivity.
Qed.

(** Reading a text made of lines gives the lines. *)
Lemma readlines_lines (ls : list pystr) :
  Forall (fun l => one_line l = true) ls ->
  readlines (concat (map with_newline ls))
  = map with_newline ls.
Proof.
  unfold readlines. induction 1 as [| l ls Hl _ IH]; [reflexivity |].
  cbn [map concat]. unfold with_newline at 1. rewrite <- app_assoc. cbn [app].
  rewrite (readlines_go_line l _ [] Hl), IH. reflexivity.
Qed.

Lemma write_all_ok pieces written :
  Forall (fun piece => Auth.encodable piece = true) pieces ->
  write_all pieces written = (written ++ concat pieces, true).
Proof.
  intros Hall. revert written.
  induction Hall as [| piece pieces Hp _ IH]; intros written.
  - cbn. rewrite app_nil_r. reflexivity.
  - cbn [write_all concat].
    destruct (AuthProps.utf8_decode_encode piece Hp) as (bs & -> & _).
    rewrite IH, app_assoc. reflexivity.
Qed.

Lemma encodable_app s t :
  Auth.encodable (s ++ t) = Auth.encodable s && Auth.encodable t.
Proof. apply forallb_app. Qed.

Lemma one_line_app s t : one_line (s ++ t) = one_line s && one_line t.
Proof. apply forallb_app. Qed.

Lemma failed_pieces_lines now failed :
  concat (failed_pieces now failed)
  = concat (map with_newline (failed_lines now failed)).
Proof.
  unfold failed_pieces, failed_lines.
  rewrite map_app, !concat_app. f_equal.
  - cbn [map concat app]. unfold with_newline. rewrite ?app_nil_r.
    repeat (rewrite <- app_assoc; cbn [app]). reflexivity.
  - induction failed as [| [u e] failed IH]; [reflexivity |].
    cbn [flat_map]. rewrite map_app, !concat_app, IH. f_equal.
    cbn [map concat app]. unfold with_newline. rewrite ?app_nil_r.
    repeat (rewrite <- app_assoc; cbn [app]). reflexivity.
Qed.

Section Retry.
Context `{Utils.UrlLib}.
Import Utils.

Lemma comment_gives (body : pystr) : line_gives (35%N :: body) None.
Proof.
  unfold line_gives, kept_name, logged_line, with_newline. cbn [fst snd app].
  destruct (UtilsProps.strip_head 35%N (body ++ [10%N]) eq_refl) as [r ->].
  change (startswith (lit "#") (35%N :: r)) with true.
  split; [reflexivity | intros k; reflexivity].
Qed.

Lemma blank_gives : line_gives [] None.
Proof. split; [reflexivity | intros k; reflexivity]. Qed.

Lemma name_gives u :
  validate_username u = Ok u -> startswith (lit "http") u = false ->
  line_gives u (Some u).
Proof.
  intros Hv Hhttp.
  destruct (UtilsProps.validate_username_normal u u Hv) as (Hvalid & _).
  assert (Hall : forallb allowed_char u = true /\ u <> []).
  { unfold valid_name in Hvalid. rewrite !andb_true_iff in Hvalid.
    destruct Hvalid as [[[[Hlen _] Hall] _] _]. split; [exact Hall |].
    intros ->. discriminate Hlen. }
  destruct Hall as [Hall Hne].
  assert (Hstrip : strip (u ++ [10%N]) = u).
  { apply UtilsProps.strip_newline.
    rewrite forallb_forall in *. intros c Hc.
    rewrite (UtilsProps.allowed_not_whitespace c (Hall c Hc)). reflexivity. }
  unfold line_gives, kept_name, logged_line, with_newline. cbn [fst snd].
  rewrite Hstrip.
  destruct u as [| a u']; [congruence |].
  assert (Hhash : startswith (lit "#") (a :: u') = false).
  { change (lit "#") with [35%N]. rewrite UtilsProps.startswith_single.
    cbn [forallb] in Hall. apply andb_true_iff in Hall as [Ha _].
    destruct (N.eqb_spec 35 a) as [<- |]; [discriminate Ha | reflexivity]. }
  rewrite Hhash, (UtilsProps.extract_plain_name _ Hvalid Hhttp), Hv.
  split; [reflexivity | intros k; reflexivity].
Qed.

Lemma name_is_plain u :
  validate_username u = Ok u ->
  Forall (fun c => (46 <= c <= 122)%N) u.
Proof.
  intros Hv.
  destruct (UtilsProps.validate_username_normal u u Hv) as (Hvalid & _).
  unfold valid_name in Hvalid. rewrite !andb_true_iff in Hvalid.
  destruct Hvalid as [[[_ Hall] _] _].
  apply Forall_forall. intros c Hc. apply list_elem_of_In in Hc.
  rewrite forallb_forall in Hall.
  apply UtilsProps.allowed_range, Hall, Hc.
Qed.

Lemma name_is_one_line u : validate_username u = Ok u -> one_line u = true.
Proof.
  intros Hv. apply name_is_plain in Hv. unfold one_line.
  induction Hv as [| c u Hc _ IH]; [reflexivity |].
  cbn [forallb]. rewrite IH, andb_true_r.
  destruct (N.eqb_spec c 10); [lia |].
  destruct (N.eqb_spec c 13); [lia | reflexivity].
Qed.

Lemma name_is_encodable u :
  validate_username u = Ok u -> Auth.encodable u = true.
Proof.
  intros Hv. apply name_is_plain in Hv. unfold Auth.encodable.
  induction Hv as [| c u Hc _ IH]; [reflexivity |].
  cbn [forallb]. rewrite IH, andb_true_r.
  destruct (N.ltb_spec c 55296); [reflexivity | lia].
Qed.

Lemma lines_give (ls : list pystr) (names : list (option pystr)) :
  Forall2 line_gives ls names ->
  forall n,
    valid_profiles (map with_newline ls) = omap id names /\
    rejected_lines n (map with_newline ls) = [].
Proof.
  unfold valid_profiles, rejected_lines.
  induction 1 as [| l name ls names [Hk Hl] _ IH]; intros n.
  - split; [reflexivity |]. rewrite seqZ_nil by reflexivity. reflexivity.
  - cbn [map length]. rewrite Nat2Z.inj_succ, seqZ_cons by lia.
    rewrite Z.pred_succ.
    cbn [zip zip_with omap list_omap].
    destruct (IH (Z.succ n)) as [IHk IHl].
    rewrite Hk, Hl, IHk, IHl. split; reflexivity.
Qed.

Lemma failed_lines_give now failed :
  Forall retryable failed ->
  Forall2 line_gives (failed_lines now failed)
    ([None; None; None]
     ++ flat_map (fun entry => [None; Some entry.1; None]) failed).
Proof.
  intros Hall. unfold failed_lines. apply Forall2_app.
  - constructor; [apply comment_gives |].
    constructor; [apply comment_gives |].
    constructor; [apply blank_gives | constructor].
  - induction Hall as [| [u e] failed (Hv & Hhttp & _) _ IH];
      [constructor |].
    cbn [flat_map fst]. apply Forall2_app; [| exact IH].
    constructor; [apply comment_gives |].
    constructor; [apply name_gives; assumption |].
    constructor; [apply blank_gives | constructor].
Qed.

Lemma failed_lines_one_line now failed :
  one_line now = true -> Forall retryable failed ->
  Forall (fun l => one_line l = true) (failed_lines now failed).
Proof.
  intros Hnow Hall. unfold failed_lines. apply Forall_app. split.
  - repeat constructor. rewrite one_line_app, Hnow. reflexivity.
  - induction Hall as [| [u e] failed (Hv & _ & He & _) _ IH];
      [constructor |].
    cbn [flat_map]. apply Forall_app. split; [| exact IH].
    cbn [snd] in He. repeat constructor.
    + rewrite !one_line_app, He. reflexivity.
    + apply name_is_one_line. exact Hv.
Qed.

Lemma failed_pieces_encodable now failed :
  Auth.encodable now = true -> Forall retryable failed ->
  Forall (fun piece => Auth.encodable piece = true) (failed_pieces now failed).
Proof.
  intros Hnow Hall. unfold failed_pieces. apply Forall_app. split.
  - repeat constructor. rewrite !encodable_app, Hnow. reflexivity.
  - induction Hall as [| [u e] failed (Hv & _ & _ & He) _ IH];
      [constructor |].
    cbn [flat_map]. apply Forall_app. split; [| exact IH].
    cbn [fst snd] in Hv, He. repeat constructor.
    + rewrite !encodable_app, He. reflexivity.
    + rewrite encodable_app, (name_is_encodable _ Hv). reflexivity.
Qed.

(** The file of failures can be fed back to [download_from_file]: when
    every failed profile is [retryable], the clock text is one line that
    can be written and the file can be opened, parsing the file that
    [_save_failed_profiles] writes gives exactly the failed user names, in
    order, and no warning. *)
Theorem failed_profiles_can_be_retried (self : BatchDownloader) (d : disk) :
  failed_profiles self <> [] ->
  lit "failed_profiles.txt" ∉ locked d ->
  one_line (clock d) = true -> Auth.encodable (clock d) = true ->
  Forall retryable (failed_profiles self) ->
  parse_profile_list_file
    (open_for_reading (_save_failed_profiles self None d))
    (lit "failed_profiles.txt")
  = ([], Ok (map fst (failed_profiles self))).
Proof.
  intros Hne Hfree Hline Henc Hall.
  unfold _save_failed_profiles, open_for_reading. cbn [default].
  case_decide; [contradiction |]. cbn [texts].
  unfold parse_profile_list_file.
  rewrite fmap_insert.
  match goal with
  | |- context [(<[?k := ?v]> ?m) !! ?k'] =>
      replace ((<[k := v]> m) !! k') with (Some v)
        by (symmetry; apply lookup_insert_eq)
  end.
  rewrite (write_all_ok _ [] (failed_pieces_encodable _ _ Henc Hall)).
  cbn [fst app].
  rewrite failed_pieces_lines,
    (readlines_lines _ (failed_lines_one_line _ _ Hline Hall)).
  rewrite UtilsProps.parse_lines_spec. cbn [app].
  destruct (lines_give _ _ (failed_lines_give (clock d) _ Hall) 1)
    as [-> ->].
  assert (Hnames : forall failed : list (pystr * pystr),
            omap id ([None; None; None]
                     ++ flat_map (fun entry => [None; Some entry.1; None])
                          failed)
            = map fst failed).
  { clear. intros failed. cbn [app omap list_omap id].
    induction failed as [| [u e] failed IH]; [reflexivity |].
    cbn [flat_map app omap list_omap id map fst]. rewrite IH. reflexivity. }
  rewrite Hnames.
  destruct (failed_profiles self) as [| entry rest]; [congruence |].
  reflexivity.
Qed.

End Retry.

Lemma failed_profiles_can_be_retried_witness :
  @Utils.parse_profile_list_file Utils.simple_urlparse
    (open_for_reading (_save_failed_profiles failed_once None empty_disk))
    (lit "failed_profiles.txt")
  = ([], Ok [lit "user_a"]).
Proof.
  apply (@failed_profiles_can_be_retried Utils.simple_urlparse
           failed_once empty_disk).
  - discriminate.
  - apply not_elem_of_empty.
  - reflexivity.
  - reflexivity.
  - repeat constructor.
Defined.

(** An error message of two lines is outside [retryable]: its second line
    is read back as a profile. *)
Example line_break_in_error_adds_a_profile :
  @Utils.parse_profile_list_file Utils.simple_urlparse
    (open_for_reading
       (_save_failed_profiles failed_in_two_lines None empty_disk))
    (lit "failed_profiles.txt")
  = ([], Ok [lit "retry_later"; lit "user_a"]).
Proof. vm_compute. reflexivity. Qed.

End BatchProps.

(** ** [_download_posts] *)

Module PostsProps.
Import PyFloat Downloader Posts.

Lemma wait_delay_within (self : RateLimiter) :
  ordered self -> within self (wait_delay self).
Proof.
  intros (H0 & H1 & H2 & Hlo & Hhi).
  assert (Hmm : (min_delay self <=? max_delay self)%float = true)
    by (apply Binary64.leb_trans with (base_delay self); assumption).
  unfold within, wait_delay, max2, min2.
  pose proof (Binary64.leb_refl_l _ _ Hmm) as Hmin.
  pose proof (Binary64.leb_refl_r _ _ Hmm) as Hmax.
  destruct (max_delay self <? current_delay self)%float eqn:Hgt.
  - destruct (min_delay self <? max_delay self)%float; auto.
  - destruct (min_delay self <? current_delay self)%float eqn:Hlt; [| auto].
    split; [exact Hlo | exact Hhi].
Qed.

Lemma saved_bounds outcomes :
  0 <= saved outcomes <= Z.of_nat (length outcomes).
Proof.
  induction outcomes as [| o outcomes IH]; [cbn; lia |].
  destruct o; cbn [saved length]; lia.
Qed.

Section Loop.
Context {P W : Type} `{PostLoader P W}.

Lemma attempts_app (tr1 tr2 : list (post_event P)) :
  attempts (tr1 ++ tr2) = attempts tr1 ++ attempts tr2.
Proof. apply omap_app. Qed.

Lemma waits_app (tr1 tr2 : list (post_event P)) :
  waits (tr1 ++ tr2) = waits tr1 ++ waits tr2.
Proof. apply omap_app. Qed.

(** One turn of the loop. *)
Lemma loop_body_facts (post : P) (st : posts_state P W) :
  exists outcome ws,
    let after := (loop_body post st).2 in
    let how := (loop_body post st).1 in
    trace after = trace st ++ Attempt post outcome :: ws /\
    attempts ws = [] /\
    count after = count st + saved [outcome] /\
    how <> Leave Exhausted /\
    (how = Next -> stops_at_once outcome = false) /\
    (forall k, 0 <= k <= errors st -> errors st < max_errors ->
       streak_after k outcome <= max_errors /\
       (how = Next ->
        0 <= streak_after k outcome <= errors after /\
        errors after < max_errors)) /\
    (ordered (limiter st) ->
       ordered (limiter after) /\
       min_delay (limiter after) = min_delay (limiter st) /\
       max_delay (limiter after) = max_delay (limiter st) /\
       Forall (within (limiter st)) (waits ws)).
Proof.
  unfold loop_body, rate_limiter_wait.
  destruct (download_post post (remote st)) as [outcome remote'].
  exists outcome.
  assert (Hwait : forall rl waited,
            ordered rl ->
            min_delay rl = min_delay (limiter st) ->
            max_delay rl = max_delay (limiter st) ->
            Forall (within (limiter st))
              (waits [Wait (P:=P) (wait_delay rl) waited])).
  { intros rl waited Hord Hmin Hmax. repeat constructor;
      rewrite <- ?Hmin, <- ?Hmax; apply wait_delay_within, Hord. }
  pose proof (RateLimiterProps.ordered_min_max_on_success (limiter st))
    as [Hmin_s Hmax_s].
  pose proof (RateLimiterProps.ordered_on_success (limiter st)) as Hord_s.
  pose proof (fun b => RateLimiterProps.ordered_on_error b (limiter st))
    as Hord_e.
  pose proof (fun b => RateLimiterProps.ordered_on_error b
                         (on_success (limiter st))) as Hord_se.
  assert (Hforbidden : forall m, forbidden m = false ->
            stops_at_once (PostConnection m) = false) by (intros m Hm; exact Hm).
  destruct outcome as [| | | error_msg | message];
    cbn [count errors limiter remote trace];
    [ destruct (sleep _ remote') as [[] remote''];
      eexists [Wait _ _]
    | exists []
    | exists []
    | destruct (forbidden error_msg) eqn:Hf;
      [ exists []
      | destruct (sleep _ remote') as [[] remote''];
        eexists [Wait _ _] ]
    | exists [] ];
    cbv zeta;
    cbn [fst snd count errors limiter remote trace with_errors with_limiter
         saved streak_after];
    try match goal with
        | |- context [max_errors <=? ?e] =>
            destruct (Z.leb_spec max_errors e);
            cbn [fst snd count errors limiter remote trace]
        end;
    rewrite <- ?app_assoc;
    (split; [reflexivity |]); (split; [reflexivity |]);
    (split; [lia |]); (split; [discriminate |]);
    (split; [first [discriminate | intros _; reflexivity
                   | intros _; apply Hforbidden; assumption] |]);
    (split; [intros k Hk Herr; unfold max_errors in *;
             split; [lia | first [discriminate | intros _; lia]] |]);
    intros Hord;
    (split; [| split; [| split]]);
    first [ reflexivity
          | apply List.Forall_nil
          | apply Hwait; auto
          | auto ].
Qed.

Lemma saved_cons o outcomes : saved (o :: outcomes) = saved [o] + saved outcomes.
Proof. destruct o; cbn [saved]; lia. Qed.

Lemma within_same (a b : RateLimiter) (delay : float) :
  min_delay b = min_delay a -> max_delay b = max_delay a ->
  within b delay -> within a delay.
Proof. unfold within. intros -> ->. auto. Qed.

(** The whole loop, from any state. *)
Lemma posts_loop_facts (posts : list P) :
  forall st : posts_state P W,
  exists tr,
    let r := posts_loop posts st in
    trace r.2 = trace st ++ tr /\
    map fst (attempts tr) `prefix_of` posts /\
    (r.1 = Exhausted -> map fst (attempts tr) = posts) /\
    count r.2 = count st + saved (map snd (attempts tr)) /\
    (forall l o l',
       map snd (attempts tr) = l ++ o :: l' ->
       stops_at_once o = true -> l' = []) /\
    (forall k, 0 <= k <= errors st -> errors st < max_errors ->
       Forall (fun n => n <= max_errors)
         (streaks k (map snd (attempts tr)))) /\
    (ordered (limiter st) ->
       ordered (limiter r.2) /\
       Forall (within (limiter st)) (waits tr)).
Proof.
  induction posts as [| post rest IH]; intros st.
  { exists []. cbv zeta. cbn [posts_loop fst snd attempts waits omap list_omap map saved streaks].
    rewrite app_nil_r.
    split; [reflexivity |]. split; [reflexivity |].
    split; [reflexivity |]. split; [lia |].
    split; [intros [| x l] o l' Heq; discriminate Heq |].
    split; [intros k _ _; constructor |].
    intros Hord. split; [exact Hord | constructor]. }
  destruct (loop_body_facts post st)
    as (o & ws & Htr & Hatt & Hcount & Hne & Hnext & Hstreak & Hlim).
  cbn [posts_loop].
  destruct (loop_body post st) as [how st'] eqn:Hbody.
  cbn [fst snd] in Htr, Hcount, Hne, Hnext, Hstreak, Hlim.
  assert (Hattempts : forall tr',
            attempts (Attempt post o :: ws ++ tr') = (post, o) :: attempts tr').
  { intros tr'. change (Attempt post o :: ws ++ tr')
      with ([Attempt post o] ++ ws ++ tr').
    rewrite !attempts_app, Hatt. reflexivity. }
  assert (Hwaits : forall tr',
            waits (Attempt post o :: ws ++ tr') = waits ws ++ waits tr').
  { intros tr'. change (Attempt post o :: ws ++ tr')
      with ([Attempt post o] ++ ws ++ tr').
    rewrite !waits_app. reflexivity. }
  destruct how as [| how].
  - (* the next post *)
    destruct (IH st') as (tr' & Ht & Hpre & Hex & Hc & Hstop & Hs & Hl).
    cbv zeta in Ht, Hpre, Hex, Hc, Hstop, Hs, Hl.
    exists (Attempt post o :: ws ++ tr'). cbv zeta.
    rewrite Hattempts. cbn [map fst snd].
    split; [rewrite Ht, Htr, <- app_assoc; reflexivity |].
    split; [apply prefix_cons, Hpre |].
    split; [intros Hend; rewrite (Hex Hend); reflexivity |].
    split; [rewrite (saved_cons o (map snd (attempts tr'))), Hc, Hcount; lia |].
    split.
    { intros [| x l] x' l' Heq Hx.
      - injection Heq as <- _. rewrite (Hnext eq_refl) in Hx. discriminate.
      - injection Heq as _ Heq. exact (Hstop _ _ _ Heq Hx). }
    split.
    { intros k Hk Herr. destruct (Hstreak k Hk Herr) as [Hle Hn].
      destruct (Hn eq_refl) as [Hk' Herr'].
      cbn [streaks]. constructor; [exact Hle |].
      apply Hs; assumption. }
    intros Hord. destruct (Hlim Hord) as (Hord' & Hmin & Hmax & Hws).
    destruct (Hl Hord') as [Hfinal Htr'].
    split; [exact Hfinal |].
    rewrite Hwaits. apply Forall_app. split; [exact Hws |].
    eapply Forall_impl; [exact Htr' |].
    intros delay. apply within_same; assumption.
  - (* the loop is left *)
    exists (Attempt post o :: ws). cbv zeta. cbn [fst snd].
    rewrite <- (app_nil_r ws), Hattempts, app_nil_r. cbn [map fst snd attempts omap list_omap].
    split; [exact Htr |].
    split; [exists rest; reflexivity |].
    split; [intros ->; congruence |].
    split; [exact Hcount |].
    split.
    { intros [| x [| y l]] x' l' Heq Hx; try discriminate Heq.
      injection Heq as _ <-. reflexivity. }
    split.
    { intros k Hk Herr. destruct (Hstreak k Hk Herr) as [Hle _].
      cbn [streaks]. repeat constructor. exact Hle. }
    intros Hord. destruct (Hlim Hord) as (Hord' & _ & _ & Hws).
    split; [exact Hord' |].
    replace (waits (Attempt post o :: ws)) with (waits ws) by reflexivity.
    exact Hws.
Qed.

(** [_download_posts] tries the posts in the order of the listing, each at
    most once (a post that failed is not tried again), and stops at some
    point of the list; when the loop is not left early every post has been
    tried. The count it returns is the number of posts that
    [download_post] saved, so at most the number of posts. *)
Theorem _download_posts_counts_saved (rate_limiter : RateLimiter)
    (posts : list P) (w : W) :
  let r := _download_posts rate_limiter (Some posts) w in
  let tried := attempts (trace r.2) in
  map fst tried `prefix_of` posts /\
  (r.1 = Exhausted -> map fst tried = posts) /\
  count r.2 = saved (map snd tried) /\
  0 <= count r.2 <= Z.of_nat (length posts).
Proof.
  intros r tried. subst tried r. unfold _download_posts. cbv beta iota zeta.
  destruct (posts_loop_facts posts
              {| count := 0; errors := 0; limiter := rate_limiter;
                 remote := w; trace := [] |})
    as (tr & Ht & Hpre & Hex & Hc & _).
  cbv zeta in Ht, Hpre, Hex, Hc. cbn [count trace app] in Ht, Hc.
  rewrite Ht, Hc.
  split; [exact Hpre |]. split; [exact Hex |]. split; [lia |].
  pose proof (saved_bounds (map snd (attempts tr))) as Hb.
  apply prefix_length in Hpre. rewrite !length_map in *. lia.
Qed.

(** [_download_posts] gives up in time: counted from the last saved post,
    the connection errors never exceed [max_errors = 5], and nothing is
    tried after an interrupt or after a connection error that mentions 403
    or Forbidden. *)
Theorem _download_posts_gives_up (rate_limiter : RateLimiter)
    (posts : list P) (w : W) :
  let r := _download_posts rate_limiter (Some posts) w in
  let outcomes := map snd (attempts (trace r.2)) in
  Forall (fun n => n <= 5) (streaks 0 outcomes) /\
  forall before outcome after,
    outcomes = before ++ outcome :: after ->
    stops_at_once outcome = true -> after = [].
Proof.
  intros r outcomes. subst outcomes r. unfold _download_posts.
  cbv beta iota zeta.
  destruct (posts_loop_facts posts
              {| count := 0; errors := 0; limiter := rate_limiter;
                 remote := w; trace := [] |})
    as (tr & Ht & _ & _ & _ & Hstop & Hs & _).
  cbv zeta in Ht, Hstop, Hs. cbn [errors trace app] in Ht, Hs.
  rewrite Ht. split; [| exact Hstop].
  apply (Hs 0); unfold max_errors; lia.
Qed.

(** [_download_posts] keeps the rate limiter in order: started with an
    ordered limiter it leaves an ordered one, and every delay it asks
    [wait] for lies between [min_delay] and [max_delay]. *)
Theorem _download_posts_keeps_limiter (rate_limiter : RateLimiter)
    (posts : list P) (w : W) :
  ordered rate_limiter ->
  let r := _download_posts rate_limiter (Some posts) w in
  ordered (limiter r.2) /\
  Forall (within rate_limiter) (waits (trace r.2)).
Proof.
  intros Hord r. subst r. unfold _download_posts. cbv beta iota zeta.
  destruct (posts_loop_facts posts
              {| count := 0; errors := 0; limiter := rate_limiter;
                 remote := w; trace := [] |})
    as (tr & Ht & _ & _ & _ & _ & _ & Hl).
  cbv zeta in Ht, Hl. cbn [limiter trace app] in Ht, Hl.
  rewrite Ht. exact (Hl Hord).
Qed.

(** One turn of the plain loop. *)
Lemma plain_body_facts (post : P) (st : posts_state P W) :
  exists outcome ws,
    let after := (plain_body post st).2 in
    let how := (plain_body post st).1 in
    trace after = trace st ++ Attempt post outcome :: ws /\
    attempts ws = [] /\
    count after = count st + saved [outcome] /\
    (how = Next \/ how = Leave Interrupted) /\
    (ordered (limiter st) ->
       ordered (limiter after) /\
       min_delay (limiter after) = min_delay (limiter st) /\
       max_delay (limiter after) = max_delay (limiter st) /\
       Forall (within (limiter st)) (waits ws)).
Proof.
  unfold plain_body, rate_limiter_wait.
  destruct (download_post post (remote st)) as [outcome remote'].
  exists outcome.
  assert (Hwait : forall rl waited,
            ordered rl ->
            min_delay rl = min_delay (limiter st) ->
            max_delay rl = max_delay (limiter st) ->
            Forall (within (limiter st))
              (waits [Wait (P:=P) (wait_delay rl) waited])).
  { intros rl waited Hord Hmin Hmax. repeat constructor;
      rewrite <- ?Hmin, <- ?Hmax; apply wait_delay_within, Hord. }
  pose proof (RateLimiterProps.ordered_min_max_on_success (limiter st))
    as [Hmin_s Hmax_s].
  pose proof (RateLimiterProps.ordered_on_success (limiter st)) as Hord_s.
  pose proof (fun b => RateLimiterProps.ordered_on_error b (limiter st))
    as Hord_e.
  pose proof (fun b => RateLimiterProps.ordered_on_error b
                         (on_success (limiter st))) as Hord_se.
  destruct outcome as [| | | error_msg | message];
    cbn [count errors limiter remote trace];
    [ destruct (sleep _ remote') as [[] remote''];
      eexists [Wait _ _]
    | exists [] | exists [] | exists [] | exists [] ];
    cbv zeta;
    cbn [fst snd count errors limiter remote trace with_errors with_limiter
         saved];
    rewrite <- ?app_assoc;
    (split; [reflexivity |]); (split; [reflexivity |]);
    (split; [lia |]); (split; [auto |]);
    intros Hord;
    (split; [| split; [| split]]);
    first [ reflexivity
          | apply List.Forall_nil
          | apply Hwait; auto
          | auto ].
Qed.

Lemma plain_loop_facts (posts : list P) :
  forall st : posts_state P W,
  exists tr,
    let r := plain_loop posts st in
    trace r.2 = trace st ++ tr /\
    (r.1 = Exhausted /\ map fst (attempts tr) = posts \/
     r.1 = Interrupted /\ map fst (attempts tr) `prefix_of` posts) /\
    count r.2 = count st + saved (map snd (attempts tr)) /\
    (ordered (limiter st) ->
       ordered (limiter r.2) /\
       Forall (within (limiter st)) (waits tr)).
Proof.
  induction posts as [| post rest IH]; intros st.
  { exists []. cbv zeta.
    cbn [plain_loop fst snd attempts waits omap list_omap map saved].
    rewrite app_nil_r.
    split; [reflexivity |]. split; [left; split; reflexivity |].
    split; [lia |].
    intros Hord. split; [exact Hord | constructor]. }
  destruct (plain_body_facts post st)
    as (o & ws & Htr & Hatt & Hcount & Hhow & Hlim).
  cbn [plain_loop].
  destruct (plain_body post st) as [how st'] eqn:Hbody.
  cbn [fst snd] in Htr, Hcount, Hhow, Hlim.
  assert (Hattempts : forall tr',
            attempts (Attempt post o :: ws ++ tr') = (post, o) :: attempts tr').
  { intros tr'. change (Attempt post o :: ws ++ tr')
      with ([Attempt post o] ++ ws ++ tr').
    rewrite !attempts_app, Hatt. reflexivity. }
  assert (Hwaits : forall tr',
            waits (Attempt post o :: ws ++ tr') = waits ws ++ waits tr').
  { intros tr'. change (Attempt post o :: ws ++ tr')
      with ([Attempt post o] ++ ws ++ tr').
    rewrite !waits_app. reflexivity. }
  destruct Hhow as [-> | ->].
  - destruct (IH st') as (tr' & Ht & Hend & Hc & Hl).
    cbv zeta in Ht, Hend, Hc, Hl.
    exists (Attempt post o :: ws ++ tr'). cbv zeta.
    rewrite Hattempts. cbn [map fst snd].
    split; [rewrite Ht, Htr, <- app_assoc; reflexivity |].
    split.
    { destruct Hend as [[He Hall] | [He Hpre]]; [left | right];
        (split; [exact He |]).
      - rewrite Hall. reflexivity.
      - apply prefix_cons, Hpre. }
    split; [rewrite (saved_cons o (map snd (attempts tr'))), Hc, Hcount; lia |].
    intros Hord. destruct (Hlim Hord) as (Hord' & Hmin & Hmax & Hws).
    destruct (Hl Hord') as [Hfinal Htr'].
    split; [exact Hfinal |].
    rewrite Hwaits. apply Forall_app. split; [exact Hws |].
    eapply Forall_impl; [exact Htr' |].
    intros delay. apply within_same; assumption.
  - exists (Attempt post o :: ws). cbv zeta. cbn [fst snd].
    rewrite <- (app_nil_r ws), Hattempts, app_nil_r.
    cbn [map fst snd attempts omap list_omap].
    split; [exact Htr |].
    split; [right; split; [reflexivity | exists rest; reflexivity] |].
    split; [exact Hcount |].
    intros Hord. destruct (Hlim Hord) as (Hord' & _ & _ & Hws).
    split; [exact Hord' |].
    replace (waits (Attempt post o :: ws)) with (waits ws) by reflexivity.
    exact Hws.
Qed.

(** [_download_tagged] and [_download_igtv] never give up on errors: the
    loop ends only at the end of the list, with every post tried once in
    order, or by an interrupt; the count is the number of posts saved; and
    an ordered rate limiter stays ordered, with every delay asked of [wait]
    between [min_delay] and [max_delay]. *)
Theorem plain_downloads_try_every_post (rate_limiter : RateLimiter)
    (posts : list P) (w : W) :
  let r := _download_tagged rate_limiter (Some posts) w in
  let tried := attempts (trace r.2) in
  _download_igtv rate_limiter (Some posts) w = r /\
  (r.1 = Exhausted /\ map fst tried = posts \/
   r.1 = Interrupted /\ map fst tried `prefix_of` posts) /\
  count r.2 = saved (map snd tried) /\
  (ordered rate_limiter ->
   ordered (limiter r.2) /\
   Forall (within rate_limiter) (waits (trace r.2))).
Proof.
  intros r tried. subst tried r. unfold _download_igtv, _download_tagged.
  cbv beta iota zeta.
  destruct (plain_loop_facts posts
              {| count := 0; errors := 0; limiter := rate_limiter;
                 remote := w; trace := [] |})
    as (tr & Ht & Hend & Hc & Hl).
  cbv zeta in Ht, Hend, Hc, Hl. cbn [count limiter trace app] in Ht, Hc, Hl.
  rewrite Ht, Hc.
  split; [reflexivity |]. split; [exact Hend |]. split; [lia | exact Hl].
Qed.

End Loop.

(** Five connection errors in a row end the loop, though posts remain. *)
Example five_errors_end_the_loop :
  let r := @_download_posts _ _ scripted init_default
             (Some (repeat (PostConnection (lit "429 Too Many Requests")) 7))
             tt in
  r.1 = Broke /\ length (attempts (trace r.2)) = 5%nat /\ count r.2 = 0 /\
  current_delay (limiter r.2) = 30%float.
Proof. vm_compute. repeat split. Qed.

Lemma _download_posts_keeps_limiter_witness :
  ordered
    (limiter (@_download_posts _ _ scripted init_default
                (Some [PostSaved; PostConnection (lit "429"); PostSaved])
                tt).2) /\
  Forall (within init_default)
    (waits (trace (@_download_posts _ _ scripted init_default
                     (Some [PostSaved; PostConnection (lit "429"); PostSaved])
                     tt).2)).
Proof.
  apply (@_download_posts_keeps_limiter _ _ scripted init_default
           [PostSaved; PostConnection (lit "429"); PostSaved] tt).
  repeat split; vm_compute; reflexivity.
Defined.

End PostsProps.

(** ** [download_profile] *)

Module ProfilesProps.
Import Profiles.

Section Body.
Context {Pr W : Type} `{Utils.UrlLib} `{Instagram Pr W}.

(** A block of one kind of content goes on, or leaves by an interrupt; it
    touches neither [success] nor [interrupted], and it only adds errors. *)
Lemma content_step_facts (self : InstagramDownloader)
    (options : gmap pystr bool) (c : content) (profile : Pr)
    (username : pystr) (s : stats) (w : W) :
  let r := content_step self options c profile username s w in
  (r.1.1 = inl tt \/ r.1.1 = inr (Raises KeyboardInterrupt)) /\
  success r.1.2 = success s /\ interrupted r.1.2 = interrupted s /\
  stats_username r.1.2 = stats_username s.
Proof.
  unfold content_step.
  destruct (wanted self options c); [| cbn; auto].
  destruct (_download c profile username w) as [[count | e] w'];
    [cbn; destruct c; auto |].
  destruct e; cbn; auto.
Qed.

(** How the body of the [try] leaves [stats]. *)
Lemma try_body_facts (self : InstagramDownloader)
    (options : gmap pystr bool) (username : pystr) (s : stats) (w : W) :
  success s = false -> interrupted s = false ->
  let r := try_body self options username s w in
  interrupted r.1.2 = false /\
  stats_username r.1.2 = stats_username s /\
  match r.1.1 with
  | inl _ => success r.1.2 = true
  | inr Returns => success r.1.2 = false /\ errors r.1.2 <> []
  | inr (Raises _) => success r.1.2 = false
  end.
Proof.
  intros Hs Hi. unfold try_body, mbind, step_bind.
  unfold fetch_profile.
  destruct (from_username username w) as [[profile | e] w1].
  2:{ destruct e; cbn; (split; [exact Hi |]); (split; [reflexivity |]);
        try exact Hs;
        (split; [exact Hs |]); intros Hnil;
        apply app_eq_nil in Hnil as [_ Hnil]; discriminate Hnil. }
  unfold call.
  destruct (_display_profile_info profile w1) as [[e |] w2];
    [cbn; auto |].
  match goal with
  | |- context [ensure_directory ?path w2] =>
      destruct (ensure_directory path w2) as [[e |] w3]; [cbn; auto |]
  end.
  assert (Hu : stats_username s = stats_username s) by reflexivity.
  repeat match goal with
  | |- context [content_step self options ?c profile username ?s1 ?w0] =>
      let Hc := fresh "Hc" in
      let r' := fresh "r" in
      let s' := fresh "s" in
      let w' := fresh "w" in
      let Hr' := fresh "Hr" in
      pose proof (content_step_facts self options c profile username s1 w0)
        as Hc;
      cbv zeta in Hc;
      destruct (content_step self options c profile username s1 w0)
        as [[r' s'] w'];
      cbn [fst snd] in Hc;
      destruct Hc as (Hr' & Hs' & Hi' & Hu');
      pose proof (eq_trans Hs' Hs) as Hs2;
      pose proof (eq_trans Hi' Hi) as Hi2;
      pose proof (eq_trans Hu' Hu) as Hu2;
      clear Hs Hi Hu Hs' Hi' Hu';
      rename Hs2 into Hs; rename Hi2 into Hi; rename Hu2 into Hu;
      destruct Hr' as [-> | ->]; [| cbn [fst snd]; auto]
  end.
  unfold mark_success. cbn. auto.
Qed.

Lemma content_step_quiet (self : InstagramDownloader)
    (options : gmap pystr bool) (c : content) (profile : Pr)
    (username : pystr) (s : stats) (w : W) :
  (_download c profile username w).1 <> inr KeyboardInterrupt ->
  (content_step self options c profile username s w).1.1 = inl tt.
Proof.
  unfold content_step. intros Hq.
  destruct (wanted self options c); [| reflexivity].
  destruct (_download c profile username w) as [[count | e] w'];
    [reflexivity |].
  destruct e; try reflexivity. cbn in Hq. congruence.
Qed.

Lemma try_body_completes (self : InstagramDownloader)
    (options : gmap pystr bool) (username : pystr) (profile : Pr)
    (s : stats) (w w1 w2 w3 : W) :
  from_username username w = (inl profile, w1) ->
  _display_profile_info profile w1 = (None, w2) ->
  ensure_directory (Auth.path_join (download_dir self) username) w2
  = (None, w3) ->
  (forall c w0,
     (_download c profile username w0).1 <> inr KeyboardInterrupt) ->
  (try_body self options username s w).1.1 = inl tt.
Proof.
  intros Hfetch Hshow Hdir Hquiet.
  unfold try_body, mbind, step_bind, fetch_profile, call.
  rewrite Hfetch, Hshow, Hdir.
  repeat match goal with
  | |- context [content_step self options ?c profile username ?s1 ?w0] =>
      let Hc := fresh "Hc" in
      let r' := fresh "r" in
      let s' := fresh "s" in
      let w' := fresh "w" in
      pose proof (content_step_quiet self options c profile username s1 w0
                    (Hquiet c w0)) as Hc;
      destruct (content_step self options c profile username s1 w0)
        as [[r' s'] w'];
      cbn [fst snd] in Hc; subst r'
  end.
  reflexivity.
Qed.



(** [success] says that the profile was reached, not that anything was
    downloaded: when the name is valid, [Profile.from_username] returns a
    profile, showing it and creating its directory do not raise and no
    download is interrupted, [download_profile] reports [success] for the
    extracted name, whatever the downloads return or raise. *)
Theorem fetched_profile_is_a_success (self : InstagramDownloader)
    (profile_url username : pystr)
    (download_options : option (gmap pystr bool)) (profile : Pr)
    (w w1 w2 w3 : W) :
  Utils.extract_username_from_url profile_url = Ok username ->
  from_username username w = (inl profile, w1) ->
  _display_profile_info profile w1 = (None, w2) ->
  ensure_directory (Auth.path_join (download_dir self) username) w2
  = (None, w3) ->
  (forall c w0,
     (_download c profile username w0).1 <> inr KeyboardInterrupt) ->
  exists s,
    (download_profile self profile_url download_options w).1 = Ok (Report s) /\
    success s = true /\ interrupted s = false /\
    stats_username s = username.
Proof.
  intros Hex Hfetch Hshow Hdir Hquiet. unfold download_profile.
  rewrite Hex. cbv zeta.
  set (s0 := {| stats_username := username; success := false; posts := 0;
                stories := 0; highlights := 0; tagged := 0; igtv := 0;
                errors := []; interrupted := false |}).
  pose proof (try_body_facts self (default ∅ download_options) username s0 w
                eq_refl eq_refl) as Hbody.
  pose proof (try_body_completes self (default ∅ download_options) username
                profile s0 w w1 w2 w3 Hfetch Hshow Hdir Hquiet) as Hdone.
  cbv zeta in Hbody.
  destruct (try_body self (default ∅ download_options) username s0 w)
    as [[r s] w'].
  cbn [fst snd] in Hbody, Hdone. subst r.
  destruct Hbody as (Hi & Hname & Hs).
  exists s. cbn [fst]. auto.
Qed.

End Body.

Lemma fetched_profile_is_a_success_witness :
  exists s,
    (@download_profile _ _ Utils.simple_urlparse blocked plain_downloader
       (lit "https://www.instagram.com/NatGeo/") None tt).1
    = Ok (Report s) /\
    success s = true /\ interrupted s = false /\
    stats_username s = lit "natgeo".
Proof.
  apply (@fetched_profile_is_a_success _ _ Utils.simple_urlparse blocked
           plain_downloader (lit "https://www.instagram.com/NatGeo/")
           (lit "natgeo") None tt tt tt tt tt).
  - vm_compute. reflexivity.
  - reflexivity.
  - reflexivity.
  - reflexivity.
  - intros c w0. discriminate.
Defined.

Section WithBatch.
Context {Pr W : Type} `{Utils.UrlLib} `{Instagram Pr W} `{ErrorText}
  `{Batch.Clock W}.



End WithBatch.

(** A profile whose every download is blocked still counts as a success:
    the error is recorded, [success] is set. *)
Example blocked_profile_is_a_success :
  (@download_profile _ _ Utils.simple_urlparse blocked plain_downloader
     (lit "natgeo") None tt).1
  = Ok (Report {| stats_username := lit "natgeo"; success := true;
                  posts := 0; stories := 0; highlights := 0; tagged := 0;
                  igtv := 0;
                  errors := [lit "Posty: 403 Forbidden"];
                  interrupted := false |}).
Proof. vm_compute. reflexivity. Qed.

End ProfilesProps.

(** ** [ConfigManager] *)

Module ConfigProps.
Import Config.

Section Env.
Context `{PyBuiltins} (env : Auth.environ).

Lemma env_fold_other (table : list (string * pystr * kind)) (key : pystr) :
  key ∉ map (fun row => row.1.2) table ->
  forall acc, fold_left (env_step env) table acc !! key = acc !! key.
Proof.
  induction table as [| [[name key'] k] table IH]; intros Hkey acc;
    [reflexivity |].
  cbn [map fst snd] in Hkey. apply not_elem_of_cons in Hkey as [Hne Hkey].
  cbn [fold_left]. rewrite (IH Hkey). unfold env_step.
  destruct (env_value env name k); [| reflexivity].
  apply lookup_insert_ne. congruence.
Qed.

Lemma env_fold_row (table : list (string * pystr * kind)) :
  NoDup (map (fun row => row.1.2) table) ->
  forall name key k acc,
    (name, key, k) ∈ table ->
    fold_left (env_step env) table acc !! key
    = match env_value env name k with
      | Some value => Some value
      | None => acc !! key
      end.
Proof.
  induction table as [| [[name' key'] k'] table IH];
    intros Hnodup name key k acc Hin; [inversion Hin |].
  cbn [map fst snd] in Hnodup. apply NoDup_cons in Hnodup as [Hfresh Hnodup].
  cbn [fold_left]. apply elem_of_cons in Hin as [[= -> -> ->] | Hin].
  - rewrite (env_fold_other _ _ Hfresh). unfold env_step.
    destruct (env_value env name' k'); [apply lookup_insert_eq | reflexivity].
  - rewrite (IH Hnodup _ _ _ _ Hin).
    destruct (env_value env name k); [reflexivity |].
    unfold env_step. destruct (env_value env name' k'); [| reflexivity].
    apply lookup_insert_ne. intros ->. apply Hfresh.
    apply list_elem_of_In.
    apply (in_map (fun row => row.1.2) _ _ (proj1 (list_elem_of_In _ _) Hin)).
Qed.

End Env.

Lemma env_table_keys : NoDup (map (fun row => row.1.2) env_table).
Proof.
  apply (@bool_decide_unpack _ (NoDup_dec _)). vm_compute. reflexivity.
Qed.

Section Precedence.
Context `{PyBuiltins}.

Lemma _load_from_env_fold (env : Auth.environ) :
  _load_from_env env = fold_left (env_step env) env_table ∅.
Proof. reflexivity. Qed.

Lemma below_env_lookup (fs : config_files) (path key : pystr) :
  (_load_from_file fs path ∪ _default_config) !! key = below_env fs path key.
Proof.
  unfold below_env. rewrite lookup_union.
  destruct (_load_from_file fs path !! key) as [v |];
    destruct (_default_config !! key); reflexivity.
Qed.

(** The priority the class documents, statement by statement: for the key
    of each variable that [_load_from_env] reads, the configuration holds
    what the variable gives whenever it gives a value (a Boolean variable
    that is set always does, also when its text is none of the four words;
    a number only when it can be converted; a directory only when it is not
    empty), and otherwise the value of the file, or else the default; for
    every other key it holds the value of the file, or else the default. *)
Theorem config_precedence (path : option pystr) (fs : config_files)
    (env : Auth.environ) (key : pystr) :
  let cm := init path fs env in
  (forall name k,
     (name, key, k) ∈ env_table ->
     config cm !! key
     = match env_value env name k with
       | Some value => Some value
       | None => below_env fs (config_path cm) key
       end) /\
  (key ∉ map (fun row => row.1.2) env_table ->
   config cm !! key = below_env fs (config_path cm) key).
Proof.
  intros cm. unfold cm, init. cbn [config config_path].
  unfold _load_config. cbv zeta. split.
  - intros name k Hin. rewrite lookup_union, below_env_lookup.
    rewrite _load_from_env_fold,
      (env_fold_row env _ env_table_keys _ _ _ ∅ Hin).
    rewrite lookup_empty.
    destruct (env_value env name k); [| destruct (below_env _ _ key)];
      try reflexivity.
    destruct (below_env _ _ key); reflexivity.
  - intros Hkey. rewrite lookup_union, below_env_lookup.
    rewrite _load_from_env_fold, (env_fold_other env _ _ Hkey).
    rewrite lookup_empty. destruct (below_env _ _ key); reflexivity.
Qed.

(** Every key of [_default_config] is always set, whatever file and
    environment hold: [get] never returns the fallback its caller passes
    for such a key. *)
Theorem default_keys_are_always_set (path : option pystr) (fs : config_files)
    (env : Auth.environ) (key : pystr) (fallback : option pyvalue) :
  key ∈ map fst default_items ->
  let cm := init path fs env in
  is_Some (config cm !! key) /\
  get cm key fallback = get cm key None.
Proof.
  intros Hkey cm.
  assert (Hset : is_Some (config cm !! key)).
  { unfold cm, init, _load_config. cbn [config]. cbv zeta.
    apply lookup_union_is_Some. right.
    apply lookup_union_is_Some. right.
    unfold _default_config.
    destruct (list_to_map default_items !! key) as [v |] eqn:Hd; [eauto |].
    apply not_elem_of_list_to_map in Hd. contradiction. }
  split; [exact Hset |].
  unfold get. destruct Hset as [v ->]. reflexivity.
Qed.

End Precedence.

Lemma default_keys_are_always_set_witness :
  is_Some (config (@init plain_builtins None ∅ ∅) !! lit "sleep_time") /\
  get (@init plain_builtins None ∅ ∅) (lit "sleep_time")
    (Some (VFloat 3.0%float))
  = get (@init plain_builtins None ∅ ∅) (lit "sleep_time") None.
Proof.
  apply (@default_keys_are_always_set plain_builtins None ∅ ∅
           (lit "sleep_time") (Some (VFloat 3.0%float))).
  apply (@bool_decide_unpack _ (list_elem_of_dec _ _)). vm_compute. reflexivity.
Defined.

(** With nothing configured, [sleep_time] is the default 5 of
    [_default_config], not the fallback [3.0] that [InstagramDownloader]
    passes (nor the 3 that [test_default_config] expects). *)
Example default_sleep_time :
  get (@init plain_builtins None ∅ ∅) (lit "sleep_time")
    (Some (VFloat 3.0%float))
  = VInt 5.
Proof. vm_compute. reflexivity. Qed.

(** [test_load_from_env] and [test_env_overrides_file] *)
Example test_load_from_env :
  let env : Auth.environ :=
    {[ lit "SLEEP_TIME" := lit "7"; lit "DOWNLOAD_VIDEOS" := lit "false";
       lit "DOWNLOAD_GEOTAGS" := lit "true"; lit "MAX_ATTEMPTS" := lit "5" ]} in
  let cm := @init plain_builtins None ∅ env in
  get cm (lit "sleep_time") None = VInt 7 /\
  get cm (lit "download_videos") None = VBool false /\
  get cm (lit "download_geotags") None = VBool true /\
  get cm (lit "max_attempts") None = VInt 5.
Proof. vm_compute. repeat split. Qed.

Example test_env_overrides_file :
  let fs : config_files :=
    {[ lit "config.json" := Object {[ lit "sleep_time" := VInt 3 ]} ]} in
  let env : Auth.environ := {[ lit "SLEEP_TIME" := lit "10" ]} in
  get (@init plain_builtins (Some (lit "config.json")) fs env)
    (lit "sleep_time") None
  = VInt 10.
Proof. vm_compute. reflexivity. Qed.

(** A Boolean variable set to a text other than the four words switches the
    option off, whatever file and defaults say; a number that cannot be
    converted is ignored. *)
Example unknown_words_switch_off :
  let env : Auth.environ :=
    {[ lit "DOWNLOAD_POSTS" := lit "on"; lit "SLEEP_TIME" := lit "5.5" ]} in
  let cm := @init plain_builtins None ∅ env in
  get cm (lit "download_posts") None = VBool false /\
  get cm (lit "sleep_time") None = VInt 5.
Proof. vm_compute. repeat split. Qed.

End ConfigProps.

(** ** The repository's tests, run on the embedding

    The cases of [tests/test_utils.py] that concern the modelled functions,
    evaluated on the definitions above. *)

Module Tests.
Import PyFloat Utils.

Example test_valid_username :
  validate_username (lit "john_doe") = Ok (lit "john_doe") /\
  validate_username (lit "user.name") = Ok (lit "user.name") /\
  validate_username (lit "User123") = Ok (lit "user123") /\
  validate_username (lit "a") = Ok (lit "a").
Proof. repeat split. Qed.

Example test_invalid_username_length :
  validate_username (repeat 97%N 31) = Raise (ValueError (BadLength 31)).
Proof. reflexivity. Qed.

Example test_invalid_username_characters :
  validate_username (lit "user@name")
  = Raise (ValueError (BadCharacters (lit "user@name"))) /\
  validate_username (lit "user name")
  = Raise (ValueError (BadCharacters (lit "user name"))) /\
  validate_username (lit "user#name")
  = Raise (ValueError (BadCharacters (lit "user#name"))).
Proof. repeat split. Qed.

Example test_invalid_username_dots :
  validate_username (lit ".username") = Raise (ValueError LeadingDot) /\
  validate_username (lit "username.") = Raise (ValueError TrailingDot).
Proof. repeat split. Qed.

(** The empty string is refused by the first test of the function; a string
    of blanks passes it and is refused by the length test. *)
Example test_invalid_username_empty :
  validate_username [] = Raise (ValueError EmptyUsername) /\
  validate_username (lit "   ") = Raise (ValueError (BadLength 0)).
Proof. repeat split. Qed.

Example test_extract_from_full_url :
  @extract_username_from_url simple_urlparse
    (lit "https://www.instagram.com/username/") = Ok (lit "username") /\
  @extract_username_from_url simple_urlparse
    (lit "https://instagram.com/username") = Ok (lit "username") /\
  @extract_username_from_url simple_urlparse
    (lit "http://instagram.com/username/") = Ok (lit "username").
Proof. repeat split; vm_compute; reflexivity. Qed.

Example test_extract_from_partial_url :
  @extract_username_from_url simple_urlparse
    (lit "instagram.com/username/") = Ok (lit "username") /\
  @extract_username_from_url simple_urlparse
    (lit "www.instagram.com/username") = Ok (lit "username").
Proof. repeat split; vm_compute; reflexivity. Qed.

Example test_extract_from_username_and_mention :
  @extract_username_from_url simple_urlparse (lit "user_name.123")
  = Ok (lit "user_name.123") /\
  @extract_username_from_url simple_urlparse (lit "@username")
  = Ok (lit "username").
Proof. repeat split; vm_compute; reflexivity. Qed.

Example test_zero_errors :
  @calculate_rate_limit_delay no_libm 0 (Some 3.0%float) None None
  = Ok 3.0%float.
Proof. vm_compute. reflexivity. Qed.

Example test_parse_valid_file :
  @parse_profile_list_file simple_urlparse
    {[ lit "profiles.txt" := profiles_txt ]} (lit "profiles.txt")
  = ([], Ok [lit "username1"; lit "username2"; lit "username3"]).
Proof. vm_compute. reflexivity. Qed.

Example test_parse_empty_file :
  @parse_profile_list_file simple_urlparse
    {[ lit "empty.txt" := [lit "# Tylko komentarze" ++ [10%N]; [10%N]] ]}
    (lit "empty.txt")
  = ([], Raise (ValueError NoValidProfiles)).
Proof. vm_compute. reflexivity. Qed.

Example test_parse_nonexistent_file :
  @parse_profile_list_file simple_urlparse ∅ (lit "nonexistent.txt")
  = ([], Raise FileNotFoundError).
Proof. vm_compute. reflexivity. Qed.

Example test_parse_with_invalid_names :
  @parse_profile_list_file simple_urlparse
    {[ lit "profiles.txt" :=
         [ [10%N]; lit "valid_username" ++ [10%N];
           lit "invalid@username" ++ [10%N];
           lit "another_valid" ++ [10%N]; lit "        " ] ]}
    (lit "profiles.txt")
  = ([(3, lit "invalid@username")],
     Ok [lit "valid_username"; lit "another_valid"]).
Proof. vm_compute. reflexivity. Qed.

End Tests.
